(** * DetectGPT perturbation, scoring and discrepancy pipeline

    A shallow embedding of the notebook functions [batch_mask_text],
    [batch_replace_masks], [batch_extract_fills],
    [batch_apply_extracted_fills], [t5_perturbation],
    [batch_average_log_prob], [optimized_processing], [compute_perplexity]
    and [compute_detectgpt_discrepancy].

    Two generations of the code exist side by side:
    - [Part000]: the first notebook of [src/unnamed/part_000] (numpy sampler,
      vectorised reduction with [clamp], normalisation flag);
    - [Part001]: [src/unnamed/part_001], which is also, line for line, the
      second notebook of [part_000] ([random.sample], per-row reduction,
      plain Python mean).

    [Old] holds the single-text perturbations of the earlier notebook
    [src/Notebooks/old/detectgpt_paul.ipynb]. *)

From Stdlib Require Import Ascii String.
From Stdlib Require Import List Bool Arith ZArith QArith Qround Lia.
From Stdlib Require Import Permutation.
From Stdlib Require Import DecimalString DecimalNat.
From Stdlib Require Import Floats.SpecFloat.
Import ListNotations.
Close Scope Q_scope.

Set Implicit Arguments.

(** ** Python exceptions and the error monad

    The exceptions the functions can raise, and [InvalidMaskRatio], the
    condition the specification names for an oversized mask request; no
    path of the notebooks raises it. *)

Inductive exn : Type :=
| ValueError
| IndexError
| ZeroDivisionError
| InvalidMaskRatio.

Definition result (A : Type) : Type := (exn + A)%type.

Definition ret {A} (a : A) : result A := inr a.
Definition raise {A} (e : exn) : result A := inl e.

Definition bind {A B} (m : result A) (k : A -> result B) : result B :=
  match m with
  | inl e => inl e
  | inr a => k a
  end.

Declare Scope py_scope.
Delimit Scope py_scope with py.
Notation "x <- m ;; k" := (bind m (fun x => k))
  (at level 61, m at next level, right associativity) : py_scope.
Notation "' pat <- m ;; k" := (bind m (fun x => match x with pat => k end))
  (at level 61, pat pattern, m at next level, right associativity) : py_scope.
Open Scope py_scope.

(** A [for] loop that appends one value per element and stops at the first
    exception. *)
Fixpoint mapM {A B} (f : A -> result B) (l : list A) : result (list B) :=
  match l with
  | [] => ret []
  | a :: l' => b <- f a ;; bs <- mapM f l' ;; ret (b :: bs)
  end.

(** Element-wise combination of two sequences of one shape ([zip]). *)
Definition map2 {A B C} (f : A -> B -> C) (l : list A) (m : list B) : list C :=
  map (fun '(a, b) => f a b) (combine l m).

(** [l[i]] on a Python list, for a non-negative index. *)
Definition index {A} (l : list A) (i : nat) : result A :=
  match nth_error l i with
  | Some a => ret a
  | None => raise IndexError
  end.

(** ** Floating-point numbers

    Values are IEEE 754 numbers of a binary format [(prec, emax)], with the
    operations of [SpecFloat] (round to nearest, ties to even). *)

Module Fl.
Section Format.
Variables prec emax : Z.

Definition zero : spec_float := S754_zero false.
Definition neg_inf : spec_float := S754_infinity true.
Definition of_Z (z : Z) : spec_float := binary_normalize prec emax z 0 false.
Definition of_nat (n : nat) : spec_float := of_Z (Z.of_nat n).

Definition add := SFadd prec emax.
Definition sub := SFsub prec emax.
Definition mul := SFmul prec emax.
Definition div := SFdiv prec emax.
Definition sqrt := SFsqrt prec emax.
Definition neg := SFopp.
Definition ltb := SFltb.

(** A reduction by [+], left to right, every addition rounded to the
    format: the builtin [sum] of Python 3.9 on floats, and the loops of
    numpy over a short run. *)
Definition sum_from (init : spec_float) (l : list spec_float) : spec_float :=
  fold_left add l init.

(** The value of [x] rounded to the format (a float32 accumulator stored
    into a bfloat16 tensor). *)
Definition round (x : spec_float) : spec_float :=
  match x with
  | S754_finite s m e => binary_normalize prec emax (cond_Zopp s (Zpos m)) e s
  | _ => x
  end.

(** The format in which torch accumulates a reduction over a tensor of the
    format [(prec, emax)]: float32 for the narrower formats (bfloat16,
    float16), the format itself from float32 on. *)
Definition acc_prec : Z := Z.max prec 24.
Definition acc_emax : Z := Z.max emax 128.
End Format.
End Fl.

(** binary64: Python [float], [np.float64]. *)
Module B64.
Definition prec : Z := 53.
Definition emax : Z := 1024.
Definition of_Z := Fl.of_Z prec emax.
Definition of_nat := Fl.of_nat prec emax.
Definition add := Fl.add prec emax.
Definition sub := Fl.sub prec emax.
Definition mul := Fl.mul prec emax.
Definition div := Fl.div prec emax.
Definition sqrt := Fl.sqrt prec emax.
Definition sum_from := Fl.sum_from prec emax.
End B64.

(** bfloat16: [TORCH_DTYPE = torch.bfloat16], the format of the scoring
    model and of the tensors derived from its logits. *)
Module BF16.
Definition prec : Z := 8.
Definition emax : Z := 128.
End BF16.

(** ** numpy reductions used by the aggregator *)

Module Np.
(** The unrolled loop of [pairwise_sum]: eight running sums [r[0..7]], and
    every further block of eight elements added to them, lane by lane.
    Returns the running sums and the elements after the last full block. *)
Fixpoint unrolled (r a : list spec_float) : list spec_float * list spec_float :=
  match a with
  | a0 :: a1 :: a2 :: a3 :: a4 :: a5 :: a6 :: a7 :: rest =>
      unrolled (map2 B64.add r [a0; a1; a2; a3; a4; a5; a6; a7]) rest
  | _ => (r, a)
  end.

(** [((r[0] + r[1]) + (r[2] + r[3])) + ((r[4] + r[5]) + (r[6] + r[7]))]. *)
Definition tree8 (r : list spec_float) : spec_float :=
  match r with
  | [r0; r1; r2; r3; r4; r5; r6; r7] =>
      B64.add (B64.add (B64.add r0 r1) (B64.add r2 r3))
              (B64.add (B64.add r4 r5) (B64.add r6 r7))
  | _ => S754_nan
  end.

(** The branch of [pairwise_sum] for 8 to 128 elements: the running sums
    start as the first eight elements, take the full blocks, are added up
    as a tree, and the elements left are added one by one. *)
Definition block_sum (a : list spec_float) : spec_float :=
  let '(r, rest) := unrolled (firstn 8 a) (skipn 8 a) in
  B64.sum_from (tree8 r) rest.

(** [pairwise_sum] of numpy's [loops_utils.h.src]: below 8 elements a plain
    loop from [-0.0]; up to 128 elements the unrolled loop; above, the two
    halves (the first one cut to a multiple of 8) summed on their own and
    added.  A call on [n] elements needs no more than [n] nested calls. *)
Fixpoint pairwise_sum (fuel : nat) (a : list spec_float) : spec_float :=
  let n := length a in
  if n <? 8 then B64.sum_from (S754_zero true) a
  else if n <=? 128 then block_sum a
  else
    match fuel with
    | O => block_sum a
    | S fuel' =>
        let n2 := n / 2 - (n / 2) mod 8 in
        B64.add (pairwise_sum fuel' (firstn n2 a))
                (pairwise_sum fuel' (skipn n2 a))
    end.

(** [np.add.reduce] over a contiguous array of doubles: [0.0] for an empty
    array, else the pairwise sum of the whole array added to the initial
    value [-0.0] of a reduction that is not empty. *)
Definition sum (a : list spec_float) : spec_float :=
  match a with
  | [] => Fl.zero
  | _ :: _ => B64.add (S754_zero true) (pairwise_sum (length a) a)
  end.

(** [np.mean]: the sum divided by the element count (NaN, not an exception,
    for an empty array). *)
Definition mean (a : list spec_float) : spec_float :=
  B64.div (sum a) (B64.of_nat (length a)).

(** [np.std(a, ddof=1)]: deviations from the mean, squared, summed, divided
    by [max(n - ddof, 0)], square root. *)
Definition std_ddof1 (a : list spec_float) : spec_float :=
  let arrmean := mean a in
  let x := map (fun v => B64.sub v arrmean) a in
  let x := map (fun d => B64.mul d d) x in
  let rcount := Z.max (Z.of_nat (length a) - 1) 0 in
  B64.sqrt (B64.div (sum x) (B64.of_Z rcount)).
End Np.

(** ** Python strings

    A [str] is the list of its characters; a character is a code point below
    256 (the ASCII and Latin-1 range of Python's Unicode strings). *)

Module Py.

Definition str : Type := list ascii.

(** A string literal as a [str]. *)
Definition lit (s : string) : str := list_ascii_of_string s.

Definition code (c : ascii) : nat := nat_of_ascii c.

(** [str.isspace] on one character, which is also the class [\s] of [re]:
    tab, line feed, vertical tab, form feed, carriage return, the four
    separators 28-31, space, next line (133) and no-break space (160). *)
Definition isspace (c : ascii) : bool :=
  let n := code c in
  ((9 <=? n) && (n <=? 13)) || ((28 <=? n) && (n <=? 32))
  || (n =? 133) || (n =? 160).

(** The class [\d]: the only decimal digits below 256 are ['0'..'9']. *)
Definition isdigit (c : ascii) : bool :=
  let n := code c in (48 <=? n) && (n <=? 57).

Definition newline : ascii := ascii_of_nat 10.

Definition eqb (s t : str) : bool :=
  if list_eq_dec ascii_dec s t then true else false.

(** [s.startswith(p)]. *)
Fixpoint startswith (p s : str) : bool :=
  match p, s with
  | [], _ => true
  | _ :: _, [] => false
  | a :: p', b :: s' => Ascii.eqb a b && startswith p' s'
  end.

(** [text.split()]: maximal runs of non-whitespace characters. *)
Fixpoint split_from (word : str) (s : str) : list str :=
  match s with
  | [] => match word with [] => [] | _ => [word] end
  | c :: s' =>
      if isspace c
      then match word with
           | [] => split_from [] s'
           | _ => word :: split_from [] s'
           end
      else split_from (word ++ [c]) s'
  end.

Definition split (s : str) : list str := split_from [] s.

(** [sep.join(words)]. *)
Fixpoint join (sep : str) (words : list str) : str :=
  match words with
  | [] => []
  | [w] => w
  | w :: rest => w ++ sep ++ join sep rest
  end.

(** [s.strip()]. *)
Fixpoint lstrip (s : str) : str :=
  match s with
  | c :: s' => if isspace c then lstrip s' else s
  | [] => []
  end.

Definition rstrip (s : str) : str := rev (lstrip (rev s)).
Definition strip (s : str) : str := rstrip (lstrip s).

(** [s.replace(old, new)] for a non-empty [old] (the callers pass literals):
    occurrences are found left to right and do not overlap; [skip] counts the
    characters of the current occurrence still to be dropped. *)
Fixpoint replace_from (old new : str) (skip : nat) (s : str) : str :=
  match s with
  | [] => []
  | c :: s' =>
      match skip with
      | S k => replace_from old new k s'
      | O => if startswith old s
             then new ++ replace_from old new (length old - 1) s'
             else c :: replace_from old new 0 s'
      end
  end.

Definition replace (old new s : str) : str := replace_from old new 0 s.

(** [s.replace(old, new, 1)] for a non-empty [old]: the leftmost occurrence
    only; [s] itself when there is none. *)
Fixpoint replace_first (old new s : str) : str :=
  if startswith old s then new ++ skipn (length old) s
  else match s with
       | [] => []
       | c :: s' => c :: replace_first old new s'
       end.

(** [s.count(sub)] for a non-empty [sub]: non-overlapping occurrences. *)
Fixpoint count_from (sub : str) (skip : nat) (s : str) : nat :=
  match s with
  | [] => 0
  | _ :: s' =>
      match skip with
      | S k => count_from sub k s'
      | O => if startswith sub s
             then S (count_from sub (length sub - 1) s')
             else count_from sub 0 s'
      end
  end.

Definition count (s sub : str) : nat := count_from sub 0 s.

(** [str(i)] for a non-negative integer. *)
Definition of_nat (i : nat) : str :=
  lit (NilEmpty.string_of_uint (Nat.to_uint i)).

(** [max(l)]: [ValueError] on an empty list. *)
Definition max (l : list nat) : result nat :=
  match l with
  | [] => raise ValueError
  | x :: r => ret (fold_left Nat.max r x)
  end.

(** [l[i] = v] inside the list. *)
Fixpoint set_item {A} (l : list A) (i : nat) (v : A) : list A :=
  match l, i with
  | [], _ => []
  | _ :: l', O => v :: l'
  | a :: l', S i' => a :: set_item l' i' v
  end.

(** [del l[i]] (and [l.pop(i)] with its value dropped) inside the list. *)
Fixpoint del_item {A} (l : list A) (i : nat) : list A :=
  match l, i with
  | [], _ => []
  | _ :: l', O => l'
  | a :: l', S i' => a :: del_item l' i'
  end.

(** [sorted(l, reverse=True)]. *)
Fixpoint insert_desc (x : nat) (l : list nat) : list nat :=
  match l with
  | [] => [x]
  | y :: l' => if y <=? x then x :: l else y :: insert_desc x l'
  end.

Definition sorted_reverse (l : list nat) : list nat :=
  fold_right insert_desc [] l.

(** [int(x)]: truncation toward zero. *)
Definition int (x : Q) : Z :=
  if Qle_bool 0%Q x then Qfloor x else Qceiling x.

(** [l[i:i+n]] for [i] from [0] in steps of [n]: the sub-batches of a loop
    [for i in range(0, len(l), n)], for [n > 0]. *)
Fixpoint chunks_upto {A} (fuel n : nat) (l : list A) : list (list A) :=
  match fuel, l with
  | O, _ | _, [] => []
  | S fuel', _ :: _ => firstn n l :: chunks_upto fuel' n (skipn n l)
  end.

Definition chunks {A} (n : nat) (l : list A) : list (list A) :=
  chunks_upto (length l) n l.

End Py.

(** The placeholder marker [f"<extra_id_{i}>"] and the prefix that
    [batch_replace_masks] counts. *)
Definition extra_id_prefix : Py.str := Py.lit "<extra_id_".
Definition extra_id (i : nat) : Py.str :=
  extra_id_prefix ++ Py.of_nat i ++ Py.lit ">".

(** ** The extraction pattern

    [re.findall(r"<extra_id_\d+>\s*(.*?)\s*(?=<extra_id_\d+>|$)", text)],
    as the backtracking matcher runs it: every piece takes a continuation for
    the rest of the pattern, a greedy repetition tries its longest run first
    and gives characters back one at a time, a lazy one tries its shortest
    run first. *)

Module Re.

Section Pieces.
Variable R : Type.

(** A literal piece of the pattern. *)
Definition literal (p : Py.str) (k : Py.str -> option R) (s : Py.str) : option R :=
  if Py.startswith p s then k (skipn (length p) s) else None.

(** [c*] for a character class [c]. *)
Fixpoint greedy_star (c : ascii -> bool) (k : Py.str -> option R) (s : Py.str)
  : option R :=
  match s with
  | a :: s' =>
      if c a
      then match greedy_star c k s' with
           | Some r => Some r
           | None => k s
           end
      else k s
  | [] => k []
  end.

(** [c+]. *)
Definition greedy_plus (c : ascii -> bool) (k : Py.str -> option R) (s : Py.str)
  : option R :=
  match s with
  | a :: s' => if c a then greedy_star c k s' else None
  | [] => None
  end.

(** [(c*?)]: the continuation receives the captured run. *)
Fixpoint lazy_star (c : ascii -> bool) (k : Py.str -> Py.str -> option R)
    (captured : Py.str) (s : Py.str) : option R :=
  match k captured s with
  | Some r => Some r
  | None =>
      match s with
      | a :: s' => if c a then lazy_star c k (captured ++ [a]) s' else None
      | [] => None
      end
  end.

(** [<extra_id_\d+>]. *)
Definition marker (k : Py.str -> option R) (s : Py.str) : option R :=
  literal extra_id_prefix (greedy_plus Py.isdigit (literal (Py.lit ">") k)) s.
End Pieces.

(** [.] matches any character but a line feed. *)
Definition dot (a : ascii) : bool := negb (Ascii.eqb a Py.newline).

(** [$] without [re.MULTILINE]: the end of the string, or just before a line
    feed that ends the string. *)
Definition at_end (s : Py.str) : bool :=
  match s with
  | [] => true
  | [a] => Ascii.eqb a Py.newline
  | _ => false
  end.

(** [(?=<extra_id_\d+>|$)]. *)
Definition lookahead (s : Py.str) : bool :=
  match marker (fun _ => Some tt) s with
  | Some _ => true
  | None => at_end s
  end.

(** One attempt of the whole pattern at the start of [s]: the text of
    group 1 and the input left after the match. *)
Definition match_here (s : Py.str) : option (Py.str * Py.str) :=
  marker
    (greedy_star Py.isspace
       (lazy_star dot
          (fun group rest =>
             greedy_star Py.isspace
               (fun s' => if lookahead s' then Some (group, s') else None)
               rest)
          []))
    s.

(** The scan of [findall]: an attempt at every position, resumed after a
    match at the position where the match ended ([skip] characters ahead). *)
Fixpoint findall_from (skip : nat) (s : Py.str) : list Py.str :=
  match s with
  | [] => []
  | _ :: s' =>
      match skip with
      | S n => findall_from n s'
      | O =>
          match match_here s with
          | Some (group, rest) =>
              group :: findall_from (length s - length rest - 1) s'
          | None => findall_from 0 s'
          end
      end
  end.

Definition findall (s : Py.str) : list Py.str := findall_from 0 s.

End Re.

(** ** Quantities of the span masker *)

(** [words[:max_words]] when the text is longer than [max_words] words. *)
Definition truncate (max_words : nat) (words : list Py.str) : list Py.str :=
  if max_words <? length words then firstn max_words words else words.

(** [int(len(words) * mask_ratio)].  The ratio is a rational and the product
    is exact.  The notebooks multiply in binary64, and where the exact
    product is a whole number, or within a rounding of one, their count can
    differ by one from this one (28 masks, not 29, for 100 words at 0.29);
    the properties that name a number of masks are therefore stated on the
    loop over the drawn positions, for a draw of any size. *)
Definition num_masks (words : list Py.str) (mask_ratio : Q) : Z :=
  Py.int (inject_Z (Z.of_nat (length words)) * mask_ratio)%Q.

(** ** Tensors of a tokenised batch

    A batch is a list of rows.  [input_ids] and [attention_mask] have one row
    per text and one column per (padded) position. *)

Record encoding : Type := {
  input_ids : list (list Z);
  attention_mask : list (list Z)
}.

(** [t[..., 1:]]. *)
Definition drop_first {A} (t : list (list A)) : list (list A) :=
  map (@tl A) t.

(** [t.sum(dim=1)] on an integer tensor. *)
Definition int_sum (row : list Z) : Z := fold_left Z.add row 0%Z.

Section Losses.
Variables prec emax : Z.

(** [CrossEntropyLoss(reduction='none', ignore_index=...)]: the loss of a
    position whose label is the ignored index is [0.0]; elsewhere it is the
    negative log-likelihood [nll] computed from the logits. *)
Definition cross_entropy_loss (ignore_index : Z)
    (nll : list (list spec_float)) (labels : list (list Z))
  : list (list spec_float) :=
  map2 (map2 (fun v label => if (label =? ignore_index)%Z then Fl.zero else v))
       nll labels.

(** [loss_per_token * shift_mask]: the integer mask is promoted to the
    format of the losses. *)
Definition mul_mask (loss_per_token : list (list spec_float))
    (shift_mask : list (list Z)) : list (list spec_float) :=
  map2 (map2 (fun l m => Fl.mul prec emax l (Fl.of_Z prec emax m)))
       loss_per_token shift_mask.

(** The accumulator of a torch reduction by [+] over the elements of a row:
    the additions are made in the accumulation format, here from [0.0] and
    from left to right (the order in which a backend adds is its own). *)
Definition accumulate (row : list spec_float) : spec_float :=
  fold_left (Fl.add (Fl.acc_prec prec) (Fl.acc_emax emax)) row Fl.zero.

(** [t.sum(dim=1)] on a float tensor: every row accumulated, and the
    accumulator rounded once to the format of the tensor. *)
Definition row_sums (t : list (list spec_float)) : list spec_float :=
  map (fun row => Fl.round prec emax (accumulate row)) t.

(** [row[mask]] for a boolean mask. *)
Definition select (row : list spec_float) (mask : list bool) : list spec_float :=
  map fst (filter snd (combine row mask)).

(** [t.mean()] of a one-dimensional tensor: the accumulator divided by the
    element count in the accumulation format, and the quotient rounded once
    to the format of the tensor (the kernel of the CPU; on a GPU the
    accumulator is multiplied by the reciprocal of the count). *)
Definition tensor_mean (t : list spec_float) : spec_float :=
  Fl.round prec emax
    (Fl.div (Fl.acc_prec prec) (Fl.acc_emax emax) (accumulate t)
            (Fl.of_nat (Fl.acc_prec prec) (Fl.acc_emax emax) (length t))).
End Losses.

(** ** Entries of a data file

    A dictionary with the keys ["text"], ["model"] and ["source"] that every
    entry of the data files carries and the notebooks read. *)
Record record : Type := {
  record_text : Py.str;
  record_model : Py.str;
  record_source : Py.str
}.

(** ** First notebook of [part_000] *)

Module Part000.

Section Pipeline.
(** The state of the random generators, and a draw of [k] distinct indices
    below [n] from it. *)
Variable G : Type.
Variable choose : G -> nat -> nat -> list nat * G.

(** The infill tokenizer and model: [t5_tokenizer.encode], the id of the
    end-of-sequence token, and tokenisation, sampling generation up to the
    stop id and decoding of one sub-batch. *)
Variable t5_encode : Py.str -> list Z.
Variable t5_eos_token_id : Z.
Variable t5_generate : G -> list Py.str -> Z -> list Py.str * G.

(** The scoring tokenizer and model: the format of the model's tensors, the
    tokenizer with padding, its pad id, and the negative log-likelihood of
    every shifted label under the shifted logits. *)
Variables prec emax : Z.
Variable computation_tokenizer : list Py.str -> encoding.
Variable pad_token_id : Z.
Variable token_nll : encoding -> list (list spec_float).

(** *** Span masker *)

(** [np.random.choice(a, size, replace=False)] for an integer [a] and a
    positive [size]. *)
Definition np_random_choice (g : G) (a size : Z) : result (list nat * G) :=
  if ((a <=? 0) || (a <? size))%Z then raise ValueError
  else ret (choose g (Z.to_nat a) (Z.to_nat size)).

(** [np.sort]. *)
Fixpoint insert_asc (x : nat) (l : list nat) : list nat :=
  match l with
  | [] => [x]
  | y :: l' => if x <=? y then x :: l else y :: insert_asc x l'
  end.

Definition np_sort (l : list nat) : list nat := fold_right insert_asc [] l.

(** One iteration of [for i, idx in enumerate(mask_indices)]. *)
Definition mask_step (words : list Py.str) (i idx : nat) : result (list Py.str) :=
  if idx <? length words then
    let words := Py.set_item words idx (extra_id i) in
    if idx + 1 <? length words
    then ret (Py.del_item words (idx + 1))
    else ret words
  else raise IndexError.

Fixpoint mask_loop (words : list Py.str) (i : nat) (mask_indices : list nat)
  : result (list Py.str) :=
  match mask_indices with
  | [] => ret words
  | idx :: rest => words <- mask_step words i idx ;; mask_loop words (S i) rest
  end.

(** The body of [for text in texts], up to the words left after masking. *)
Definition mask_words (g : G) (text : Py.str) (mask_ratio : Q) (max_words : nat)
  : result (list Py.str * G) :=
  let words := Py.split text in
  let words := truncate max_words words in
  let num_masks := num_masks words mask_ratio in
  if (0 <? num_masks)%Z then
    '(picked, g) <- np_random_choice g (Z.of_nat (length words) - 1) num_masks ;;
    let mask_indices := rev (np_sort picked) in
    words <- mask_loop words 0 mask_indices ;;
    ret (words, g)
  else ret (words, g).

Fixpoint batch_mask_text (g : G) (texts : list Py.str) (mask_ratio : Q)
    (max_words : nat) : result (list Py.str * G) :=
  match texts with
  | [] => ret ([], g)
  | text :: texts' =>
      '(words, g) <- mask_words g text mask_ratio max_words ;;
      '(masked_texts, g) <- batch_mask_text g texts' mask_ratio max_words ;;
      ret (Py.join (Py.lit " ") words :: masked_texts, g)
  end.

(** *** Infill requester *)

Definition n_expected (batch_texts : list Py.str) : list nat :=
  map (fun text => Py.count text extra_id_prefix) batch_texts.

(** [stop_id] of one sub-batch. *)
Definition stop_id (batch_texts : list Py.str) : result Z :=
  match n_expected batch_texts with
  | [] => ret t5_eos_token_id
  | _ :: _ =>
      m <- Py.max (n_expected batch_texts) ;;
      index (t5_encode (extra_id m)) 0
  end.

Fixpoint replace_batches (g : G) (batches : list (list Py.str))
  : result (list Py.str * G) :=
  match batches with
  | [] => ret ([], g)
  | batch_texts :: rest =>
      stop <- stop_id batch_texts ;;
      let '(batch_decoded, g) := t5_generate g batch_texts stop in
      '(all_outputs, g) <- replace_batches g rest ;;
      ret (batch_decoded ++ all_outputs, g)
  end.

Definition batch_replace_masks (g : G) (texts : list Py.str) (batch_size : nat)
  : result (list Py.str * G) :=
  match batch_size with
  | O => raise ValueError
  | S _ => replace_batches g (Py.chunks batch_size texts)
  end.

(** *** Fill extractor and applier *)

Definition clean (text : Py.str) : Py.str :=
  Py.strip (Py.replace (Py.lit "</s>") [] (Py.replace (Py.lit "<pad>") [] text)).

Definition batch_extract_fills (texts : list Py.str) : list (list Py.str) :=
  map (fun text => Re.findall (clean text)) texts.

Fixpoint replace_masks_from (i : nat) (text : Py.str) (fills : list Py.str)
  : Py.str :=
  match fills with
  | [] => text
  | fill :: rest =>
      replace_masks_from (S i) (Py.replace_first (extra_id i) fill text) rest
  end.

Definition replace_masks (text : Py.str) (fills : list Py.str) : Py.str :=
  replace_masks_from 0 text fills.

Definition batch_apply_extracted_fills (masked_texts : list Py.str)
    (extracted_fills : list (list Py.str)) : list Py.str :=
  map2 (fun masked_text fills =>
          match fills with
          | [] => masked_text
          | _ :: _ => replace_masks masked_text fills
          end)
       masked_texts extracted_fills.

(** *** Perturbation orchestrator *)

Definition t5_perturbation (g : G) (text : list Py.str) (batch_size : nat)
  : result (list Py.str * G) :=
  '(all_masked_texts, g) <- batch_mask_text g text (15 # 100)%Q 370 ;;
  '(all_raw_fills, g) <- batch_replace_masks g all_masked_texts batch_size ;;
  let all_extracted_fills := batch_extract_fills all_raw_fills in
  ret (batch_apply_extracted_fills all_masked_texts all_extracted_fills, g).

(** *** Log-probability scorer *)

(** The body of [for i in range(0, len(texts), batch_size)]. *)
Definition score_batch (batch_texts : list Py.str) : list spec_float :=
  let inputs := computation_tokenizer batch_texts in
  let shift_labels := drop_first (input_ids inputs) in
  let shift_mask := drop_first (attention_mask inputs) in
  let loss_per_token :=
    cross_entropy_loss pad_token_id (token_nll inputs) shift_labels in
  let valid_token_counts := map int_sum shift_mask in
  let masked_losses :=
    map2 (fun s c => Fl.div prec emax s (Fl.of_Z prec emax (Z.max c 1)))
         (row_sums prec emax (mul_mask prec emax loss_per_token shift_mask))
         valid_token_counts in
  let sample_log_probs := map Fl.neg masked_losses in
  map2 (fun v c => if (c =? 0)%Z then Fl.neg_inf else v)
       sample_log_probs valid_token_counts.

Definition batch_average_log_prob (texts : list Py.str) (batch_size : nat)
  : result (list spec_float) :=
  match batch_size with
  | O => raise ValueError
  | S _ => ret (concat (map score_batch (Py.chunks batch_size texts)))
  end.

(** *** Driver *)

(** [[" ".join(data[j]["text"].split()[:max_length]) for j in range(n_samples)]]. *)
Definition original_texts (data : list record) (n_samples max_length : nat)
  : result (list Py.str) :=
  mapM (fun j =>
          entry <- index data j ;;
          ret (Py.join (Py.lit " ")
                 (firstn max_length (Py.split (record_text entry)))))
       (seq 0 n_samples).

(** The loop [for j in range(n_samples)] of one perturbation round: a new
    empty list per text in the first round, then the score of text [j]
    appended to list [j]. *)
Fixpoint organize (perturbation_idx : nat) (all_log_probs : list spec_float)
    (log_probs_per_text_transformed : list (list spec_float)) (js : list nat)
  : result (list (list spec_float)) :=
  match js with
  | [] => ret log_probs_per_text_transformed
  | j :: js' =>
      let log_probs_per_text_transformed :=
        if perturbation_idx =? 0
        then log_probs_per_text_transformed ++ [[]]
        else log_probs_per_text_transformed in
      row <- index log_probs_per_text_transformed j ;;
      v <- index all_log_probs j ;;
      organize perturbation_idx all_log_probs
        (Py.set_item log_probs_per_text_transformed j (row ++ [v])) js'
  end.

(** The loop [for perturbation_idx in range(n_perturbations)]. *)
Fixpoint perturbation_loop (g : G) (original_texts : list Py.str)
    (n_samples batch_size : nat)
    (log_probs_per_text_transformed : list (list spec_float))
    (perturbation_idxs : list nat)
  : result (list (list spec_float) * G) :=
  match perturbation_idxs with
  | [] => ret (log_probs_per_text_transformed, g)
  | perturbation_idx :: rest =>
      '(all_perturbed_texts, g) <- t5_perturbation g original_texts batch_size ;;
      all_log_probs <- batch_average_log_prob all_perturbed_texts batch_size ;;
      log_probs_per_text_transformed <-
        organize perturbation_idx all_log_probs log_probs_per_text_transformed
          (seq 0 n_samples) ;;
      perturbation_loop g original_texts n_samples batch_size
        log_probs_per_text_transformed rest
  end.

Definition optimized_processing (g : G) (data : list record)
    (n_samples max_length n_perturbations batch_size : nat)
  : result (list spec_float * list (list spec_float) * G) :=
  original_texts <- original_texts data n_samples max_length ;;
  log_probs_per_text_base <- batch_average_log_prob original_texts batch_size ;;
  '(log_probs_per_text_transformed, g) <-
    perturbation_loop g original_texts n_samples batch_size []
      (seq 0 n_perturbations) ;;
  ret (log_probs_per_text_base, log_probs_per_text_transformed, g).

(** *** Perplexity *)

(** [torch.exp] on the format of the model's tensors. *)
Variable torch_exp : spec_float -> spec_float.

(** The whole of [original_texts] is one batch; the reduction is the one of
    [batch_average_log_prob] without the sign change and without the
    override of rows that have no valid token. *)
Definition compute_perplexity (data : list record) (n_samples max_length : nat)
  : result (list spec_float) :=
  original_texts <- original_texts data n_samples max_length ;;
  let inputs := computation_tokenizer original_texts in
  let shift_labels := drop_first (input_ids inputs) in
  let shift_mask := drop_first (attention_mask inputs) in
  let loss_per_token :=
    cross_entropy_loss pad_token_id (token_nll inputs) shift_labels in
  let valid_token_counts := map int_sum shift_mask in
  let sentence_losses :=
    map2 (fun s c => Fl.div prec emax s (Fl.of_Z prec emax (Z.max c 1)))
         (row_sums prec emax (mul_mask prec emax loss_per_token shift_mask))
         valid_token_counts in
  ret (map torch_exp sentence_losses).

End Pipeline.

(** *** Discrepancy aggregator *)

(** One iteration of the loop over
    [zip(log_probs_per_text_base, log_probs_per_text_transformed)]. *)
Definition discrepancy_score (normalization : bool)
    (original_log_prob : spec_float) (perturbed_log_probs : list spec_float)
  : spec_float :=
  let mu := Np.mean perturbed_log_probs in
  let discrepancy_score_unormalized := B64.sub original_log_prob mu in
  if normalization then
    let sigma := Np.std_ddof1 perturbed_log_probs in
    if Fl.ltb Fl.zero sigma
    then B64.div discrepancy_score_unormalized sigma
    else Fl.zero
  else discrepancy_score_unormalized.

Definition compute_detectgpt_discrepancy
    (log_probs_per_text_base : list spec_float)
    (log_probs_per_text_transformed : list (list spec_float))
    (normalization : bool) : list spec_float :=
  map (fun '(original_log_prob, perturbed_log_probs) =>
         discrepancy_score normalization original_log_prob perturbed_log_probs)
      (combine log_probs_per_text_base log_probs_per_text_transformed).

End Part000.

(** ** [part_001] (and the second notebook of [part_000]) *)

Module Part001.

Section Pipeline.
Variable G : Type.
Variable choose : G -> nat -> nat -> list nat * G.
Variable t5_encode : Py.str -> list Z.
Variable t5_generate : G -> list Py.str -> Z -> list Py.str * G.
Variables prec emax : Z.
Variable computation_tokenizer : list Py.str -> encoding.
Variable pad_token_id : Z.
Variable token_nll : encoding -> list (list spec_float).

(** *** Span masker *)

(** [random.sample(range(stop), k)]: the population is empty for a
    non-positive [stop]; the sampler rejects a negative [k] and a [k] larger
    than the population. *)
Definition random_sample (g : G) (stop k : Z) : result (list nat * G) :=
  let n := Z.max stop 0 in
  if ((k <? 0) || (n <? k))%Z then raise ValueError
  else ret (choose g (Z.to_nat n) (Z.to_nat k)).

Definition mask_step (words : list Py.str) (i idx : nat) : result (list Py.str) :=
  if idx <? length words then
    let words := Py.set_item words idx (extra_id i) in
    if idx + 1 <? length words
    then ret (Py.del_item words (idx + 1))
    else ret words
  else raise IndexError.

Fixpoint mask_loop (words : list Py.str) (i : nat) (mask_indices : list nat)
  : result (list Py.str) :=
  match mask_indices with
  | [] => ret words
  | idx :: rest => words <- mask_step words i idx ;; mask_loop words (S i) rest
  end.

(** The body of [for text in texts], up to the words left after masking. *)
Definition mask_words (g : G) (text : Py.str) (mask_ratio : Q) (max_words : nat)
  : result (list Py.str * G) :=
  let words := Py.split text in
  let words := truncate max_words words in
  let num_masks := num_masks words mask_ratio in
  '(picked, g) <- random_sample g (Z.of_nat (length words) - 1) num_masks ;;
  let mask_indices := Py.sorted_reverse picked in
  words <- mask_loop words 0 mask_indices ;;
  ret (words, g).

Fixpoint batch_mask_text (g : G) (texts : list Py.str) (mask_ratio : Q)
    (max_words : nat) : result (list Py.str * G) :=
  match texts with
  | [] => ret ([], g)
  | text :: texts' =>
      '(words, g) <- mask_words g text mask_ratio max_words ;;
      '(masked_texts, g) <- batch_mask_text g texts' mask_ratio max_words ;;
      ret (Py.join (Py.lit " ") words :: masked_texts, g)
  end.

(** *** Infill requester *)

Definition n_expected (batch_texts : list Py.str) : list nat :=
  map (fun text => Py.count text extra_id_prefix) batch_texts.

Definition stop_id (batch_texts : list Py.str) : result Z :=
  m <- Py.max (n_expected batch_texts) ;;
  index (t5_encode (extra_id m)) 0.

Fixpoint replace_batches (g : G) (batches : list (list Py.str))
  : result (list Py.str * G) :=
  match batches with
  | [] => ret ([], g)
  | batch_texts :: rest =>
      stop <- stop_id batch_texts ;;
      let '(batch_decoded, g) := t5_generate g batch_texts stop in
      '(all_outputs, g) <- replace_batches g rest ;;
      ret (batch_decoded ++ all_outputs, g)
  end.

Definition batch_replace_masks (g : G) (texts : list Py.str) (batch_size : nat)
  : result (list Py.str * G) :=
  match batch_size with
  | O => raise ValueError
  | S _ => replace_batches g (Py.chunks batch_size texts)
  end.

(** *** Fill extractor and applier *)

Definition clean (text : Py.str) : Py.str :=
  Py.strip (Py.replace (Py.lit "</s>") [] (Py.replace (Py.lit "<pad>") [] text)).

Definition batch_extract_fills (texts : list Py.str) : list (list Py.str) :=
  map (fun text =>
         let text := clean text in
         let fills := Re.findall text in
         map Py.strip fills)
      texts.

Fixpoint fill_loop (i : nat) (filled_text : Py.str) (fills : list Py.str)
  : Py.str :=
  match fills with
  | [] => filled_text
  | fill :: rest =>
      fill_loop (S i) (Py.replace_first (extra_id i) fill filled_text) rest
  end.

Definition batch_apply_extracted_fills (masked_texts : list Py.str)
    (extracted_fills : list (list Py.str)) : list Py.str :=
  map2 (fun masked_text fills =>
          match fills with
          | [] => masked_text
          | _ :: _ => fill_loop 0 masked_text fills
          end)
       masked_texts extracted_fills.

(** *** Perturbation orchestrator *)

Definition t5_perturbation (g : G) (text : list Py.str) (batch_size : nat)
  : result (list Py.str * G) :=
  '(all_masked_texts, g) <- batch_mask_text g text (15 # 100)%Q 370 ;;
  '(all_raw_fills, g) <- batch_replace_masks g all_masked_texts batch_size ;;
  let all_extracted_fills := batch_extract_fills all_raw_fills in
  ret (batch_apply_extracted_fills all_masked_texts all_extracted_fills, g).

(** *** Log-probability scorer *)

(** The body of [for j in range(loss_per_token.size(0))]. *)
Definition sample_loss_at (loss_per_token : list (list spec_float))
    (shift_mask : list (list Z)) (j : nat) : result spec_float :=
  row_mask <- index shift_mask j ;;
  let mask := map (fun m => negb (m =? 0)%Z) row_mask in
  if 0 <? length (filter (fun b => b) mask) then
    row <- index loss_per_token j ;;
    let sample_loss := tensor_mean prec emax (select row mask) in
    ret (Fl.neg sample_loss)
  else ret Fl.neg_inf.

(** The body of [for i in range(0, len(texts), batch_size)]. *)
Definition score_batch (batch_texts : list Py.str) : result (list spec_float) :=
  let inputs := computation_tokenizer batch_texts in
  let shift_labels := drop_first (input_ids inputs) in
  let shift_mask := drop_first (attention_mask inputs) in
  let loss_per_token :=
    cross_entropy_loss pad_token_id (token_nll inputs) shift_labels in
  mapM (sample_loss_at loss_per_token shift_mask)
       (seq 0 (length loss_per_token)).

Fixpoint score_batches (batches : list (list Py.str)) : result (list spec_float) :=
  match batches with
  | [] => ret []
  | batch_texts :: rest =>
      sample_losses <- score_batch batch_texts ;;
      all_log_probs <- score_batches rest ;;
      ret (sample_losses ++ all_log_probs)
  end.

Definition batch_average_log_prob (texts : list Py.str) (batch_size : nat)
  : result (list spec_float) :=
  match batch_size with
  | O => raise ValueError
  | S _ => score_batches (Py.chunks batch_size texts)
  end.

(** *** Driver *)

(** [[" ".join(data[j]["text"].split()[:max_length]) for j in range(num_samples)]]. *)
Definition original_texts (data : list record) (num_samples max_length : nat)
  : result (list Py.str) :=
  mapM (fun j =>
          entry <- index data j ;;
          ret (Py.join (Py.lit " ")
                 (firstn max_length (Py.split (record_text entry)))))
       (seq 0 num_samples).

(** The loop [for j in range(num_samples)] of one perturbation round: a new
    empty list per text in the first round, then the score of text [j]
    appended to list [j]. *)
Fixpoint organize (perturbation_idx : nat) (all_log_probs : list spec_float)
    (log_probs_per_text_transformed : list (list spec_float)) (js : list nat)
  : result (list (list spec_float)) :=
  match js with
  | [] => ret log_probs_per_text_transformed
  | j :: js' =>
      let log_probs_per_text_transformed :=
        if perturbation_idx =? 0
        then log_probs_per_text_transformed ++ [[]]
        else log_probs_per_text_transformed in
      row <- index log_probs_per_text_transformed j ;;
      v <- index all_log_probs j ;;
      organize perturbation_idx all_log_probs
        (Py.set_item log_probs_per_text_transformed j (row ++ [v])) js'
  end.

(** The loop [for perturbation_idx in range(num_perturbation)]. *)
Fixpoint perturbation_loop (g : G) (original_texts : list Py.str)
    (num_samples batch_size : nat)
    (log_probs_per_text_transformed : list (list spec_float))
    (perturbation_idxs : list nat)
  : result (list (list spec_float) * G) :=
  match perturbation_idxs with
  | [] => ret (log_probs_per_text_transformed, g)
  | perturbation_idx :: rest =>
      '(all_perturbed_texts, g) <- t5_perturbation g original_texts batch_size ;;
      all_log_probs <- batch_average_log_prob all_perturbed_texts batch_size ;;
      log_probs_per_text_transformed <-
        organize perturbation_idx all_log_probs log_probs_per_text_transformed
          (seq 0 num_samples) ;;
      perturbation_loop g original_texts num_samples batch_size
        log_probs_per_text_transformed rest
  end.

Definition optimized_processing (g : G) (data : list record)
    (num_samples max_length num_perturbation batch_size : nat)
  : result (list spec_float * list (list spec_float) * G) :=
  original_texts <- original_texts data num_samples max_length ;;
  log_probs_per_text_base <- batch_average_log_prob original_texts batch_size ;;
  '(log_probs_per_text_transformed, g) <-
    perturbation_loop g original_texts num_samples batch_size []
      (seq 0 num_perturbation) ;;
  ret (log_probs_per_text_base, log_probs_per_text_transformed, g).

End Pipeline.

(** *** Discrepancy aggregator *)


(** Builtin [sum]: starts from the integer [0]. *)
Definition py_sum (l : list spec_float) : spec_float :=
  B64.sum_from Fl.zero l.

(** [x / n] for a float [x] and a list length [n]: Python raises on a zero
    divisor. *)
Definition py_truediv (x : spec_float) (n : nat) : result spec_float :=
  match n with
  | O => raise ZeroDivisionError
  | S _ => ret (B64.div x (B64.of_nat n))
  end.

(** Body of [for i in range(num_samples)]. *)
Definition discrepancy_at
    (log_probs_per_text_base : list spec_float)
    (log_probs_per_text_transformed : list (list spec_float))
    (i : nat) : result spec_float :=
  original_log_prob <- index log_probs_per_text_base i ;;
  perturbed_log_probs <- index log_probs_per_text_transformed i ;;
  let num_perturbations := length perturbed_log_probs in
  mu <- py_truediv (py_sum perturbed_log_probs) num_perturbations ;;
  ret (B64.sub original_log_prob mu).

Definition compute_detectgpt_discrepancy
    (log_probs_per_text_base : list spec_float)
    (log_probs_per_text_transformed : list (list spec_float))
  : result (list spec_float) :=
  let num_samples := length log_probs_per_text_base in
  mapM (discrepancy_at log_probs_per_text_base log_probs_per_text_transformed)
       (seq 0 num_samples).

End Part001.


(** ** The earlier notebook [Notebooks/old/detectgpt_paul.ipynb]

    Its perturbations work on one text at a time. *)

Module Old.

Section Perturbations.
Variable G : Type.
(** A draw of [k] distinct indices below [n], and [random.randint(a, b)]. *)
Variable choose : G -> nat -> nat -> list nat * G.
Variable randint : G -> nat -> nat -> nat * G.

(** *** Word swap *)

(** [words[i], words[i + 1] = words[i + 1], words[i]]: both reads, then
    both writes. *)
Definition swap_adjacent (words : list Py.str) (i : nat)
  : result (list Py.str) :=
  right <- index words (i + 1) ;;
  left <- index words i ;;
  ret (Py.set_item (Py.set_item words i right) (i + 1) left).

Definition word_swap_perturbation (g : G) (text : Py.str)
  : result (Py.str * G) :=
  let words := Py.split text in
  if 3 <? length words then
    let '(i, g) := randint g 0 (length words - 2) in
    words <- swap_adjacent words i ;;
    ret (Py.join (Py.lit " ") words, g)
  else ret (Py.join (Py.lit " ") words, g).

(** *** Masking *)

(** [random.sample(range(stop), k)]. *)
Definition random_sample (g : G) (stop k : Z) : result (list nat * G) :=
  let n := Z.max stop 0 in
  if ((k <? 0) || (n <? k))%Z then raise ValueError
  else ret (choose g (Z.to_nat n) (Z.to_nat k)).

(** [sorted(l)]: increasing order. *)
Fixpoint insert (x : nat) (l : list nat) : list nat :=
  match l with
  | [] => [x]
  | y :: l' => if x <=? y then x :: l else y :: insert x l'
  end.

Definition sorted (l : list nat) : list nat := fold_right insert [] l.

(** One iteration of [for i, idx in enumerate(mask_indices)]: the
    placeholder replaces the word at [idx], and the next word is blanked,
    not deleted. *)
Definition mask_step (words : list Py.str) (i idx : nat)
  : result (list Py.str) :=
  if idx <? length words then
    let words := Py.set_item words idx (extra_id i) in
    if idx + 1 <? length words
    then ret (Py.set_item words (idx + 1) [])
    else ret words
  else raise IndexError.

Fixpoint mask_loop (words : list Py.str) (i : nat) (mask_indices : list nat)
  : result (list Py.str) :=
  match mask_indices with
  | [] => ret words
  | idx :: rest => words <- mask_step words i idx ;; mask_loop words (S i) rest
  end.

(** The words that [mask_text] joins. *)
Definition mask_words (g : G) (text : Py.str) (mask_ratio : Q) (max_words : nat)
  : result (list Py.str * G) :=
  let words := Py.split text in
  let words := truncate max_words words in
  let num_masks := num_masks words mask_ratio in
  '(picked, g) <- random_sample g (Z.of_nat (length words) - 1) num_masks ;;
  let mask_indices := sorted picked in
  words <- mask_loop words 0 mask_indices ;;
  ret (words, g).

Definition mask_text (g : G) (text : Py.str) (mask_ratio : Q) (max_words : nat)
  : result (Py.str * G) :=
  '(words, g) <- mask_words g text mask_ratio max_words ;;
  ret (Py.join (Py.lit " ") words, g).

End Perturbations.

End Old.

(** * Vocabulary of the properties *)

(** ** Span masker *)

(** What a sampler without replacement promises: [k] distinct indices below
    [n] whenever [k <= n]. *)
Definition sampler_ok {G} (choose : G -> nat -> nat -> list nat * G) : Prop :=
  forall g n k, k <= n ->
    let picked := fst (choose g n k) in
    length picked = k /\ NoDup picked /\ Forall (fun i => i < n) picked.

(** A sampler that always draws the lowest indices, which is one of the
    draws a uniform sampler can make. *)
Definition lowest (g : unit) (n k : nat) : list nat * unit := (seq 0 k, g).

(** The positions a mask can start at: every word but the last. *)
Definition mask_positions (words : list Py.str) : Z :=
  Z.max (Z.of_nat (length words) - 1) 0.

(** The text a text of fewer than two words is turned into. *)
Definition unmasked (max_words : nat) (text : Py.str) : Py.str :=
  Py.join (Py.lit " ") (truncate max_words (Py.split text)).

(** Mask positions below [n], highest first, no two of them adjacent:
    every position and its successor lie below the position before it. *)
Fixpoint spaced_below (n : nat) (mask_indices : list nat) : Prop :=
  match mask_indices with
  | [] => True
  | idx :: rest => idx + 1 < n /\ spaced_below idx rest
  end.

(** The words left by masking at such positions: placeholder [i] for the
    first (highest) position, and so on down the text. *)
Fixpoint masked_at (words : list Py.str) (i : nat) (mask_indices : list nat)
  : list Py.str :=
  match mask_indices with
  | [] => words
  | idx :: rest =>
      masked_at (firstn idx words) (S i) rest
      ++ extra_id i :: skipn (idx + 2) words
  end.

(** No word is a placeholder marker. *)
Definition marker_free_words (words : list Py.str) : Prop :=
  forall j, ~ In (extra_id j) words.

(** ** Infill requester *)

(** A stand-in for the T5 tokenizer: [<extra_id_0>] is token 32099, the
    end-of-sequence token, which closes every encoding, is token 1. *)
Definition t5_like_encode (s : Py.str) : list Z :=
  if Py.eqb s (extra_id 0) then [32099; 1]%Z else [3; 1]%Z.

(** ** Discrepancy aggregator *)

Definition is_zero (x : spec_float) : Prop :=
  exists s, x = S754_zero s.

(** [s] is a sum of the numbers of [l] in binary64: every number enters it
    once, by additions rounded to binary64, in some order and some
    bracketing. *)
Inductive float_sum : list spec_float -> spec_float -> Prop :=
| float_sum_one : forall x, float_sum [x] x
| float_sum_add : forall l1 l2 s1 s2,
    float_sum l1 s1 -> float_sum l2 s2 ->
    float_sum (l1 ++ l2) (B64.add s1 s2)
| float_sum_perm : forall l l' s,
    Permutation l l' -> float_sum l s -> float_sum l' s.

(** The numbers of [l] added from left to right. *)
Definition left_to_right (l : list spec_float) : spec_float :=
  match l with
  | [] => Fl.zero
  | x :: r => fold_left B64.add r x
  end.

(** The running sums of numpy's unrolled loop, each as the list of the
    elements it has taken: a block adds one element to every list. *)
Definition snoc_lanes (lanes : list (list spec_float))
    (block : list spec_float) : list (list spec_float) :=
  map2 (fun lane x => lane ++ [x]) lanes block.

(** The double nearest to 0.1. *)
Definition tenth : spec_float := B64.div (B64.of_Z 1) (B64.of_Z 10).

(** The square of the deviation of [x] from [mu]. *)
Definition squared_deviation (mu x : spec_float) : spec_float :=
  B64.mul (B64.sub x mu) (B64.sub x mu).


(** ** Fill extractor and applier *)

(** [sub] occurs in [s]. *)
Definition occurs (sub s : Py.str) : Prop :=
  exists a b, s = a ++ sub ++ b.

(** A marker without its opening bracket. *)
Definition marker_body (i : nat) : Py.str :=
  Py.lit "extra_id_" ++ Py.of_nat i ++ Py.lit ">".

(** [out] is [s] with the first occurrence of [old] replaced by [new], or
    [s] itself when [old] does not occur in it. *)
Definition first_replaced (old new s out : Py.str) : Prop :=
  (~ occurs old s /\ out = s)
  \/ (exists a b,
         s = a ++ old ++ b
         /\ (forall a' b', s = a' ++ old ++ b' -> length a <= length a')
         /\ out = a ++ new ++ b).

(** A marker as the pattern [<extra_id_\d+>] sees it: the prefix, a
    non-empty run of digits, the closing bracket. *)
Definition marker_of (d : Py.str) : Py.str :=
  extra_id_prefix ++ d ++ Py.lit ">".

Definition digits (d : Py.str) : Prop :=
  d <> [] /\ Forall (fun c => Py.isdigit c = true) d.

Definition is_marker (m : Py.str) : Prop :=
  exists d, digits d /\ m = marker_of d.

Definition marker_free (s : Py.str) : Prop :=
  forall m, is_marker m -> ~ occurs m s.

Definition whitespace (w : Py.str) : Prop :=
  Forall (fun c => Py.isspace c = true) w.

(** No whitespace at either end. *)
Definition trimmed (f : Py.str) : Prop :=
  (forall c r, f = c :: r -> Py.isspace c = false)
  /\ (forall r c, f = r ++ [c] -> Py.isspace c = false).

(** No line feed. *)
Definition one_line (f : Py.str) : Prop :=
  Forall (fun c => Re.dot c = true) f.

(** A cleaned infill output cut at its markers: each marker with the text
    up to the next marker (or the end), that text being a fill between two
    runs of whitespace. *)
Record segment : Type := {
  seg_digits : Py.str;
  seg_lead : Py.str;
  seg_fill : Py.str;
  seg_trail : Py.str
}.

Definition render_segment (sg : segment) : Py.str :=
  marker_of (seg_digits sg) ++ seg_lead sg ++ seg_fill sg ++ seg_trail sg.

Definition render (segs : list segment) : Py.str :=
  concat (map render_segment segs).

Definition segment_ok (sg : segment) : Prop :=
  digits (seg_digits sg)
  /\ whitespace (seg_lead sg)
  /\ whitespace (seg_trail sg)
  /\ trimmed (seg_fill sg)
  /\ marker_free (seg_fill sg).

(** What can follow a segment: the end of the text or the next marker. *)
Definition follows (y : Py.str) : Prop :=
  y = [] \/ exists d tail, digits d /\ y = marker_of d ++ tail.

(** The decoded output "<pad> <extra_id_0> foo bar <extra_id_1> baz</s>". *)
Definition sample_output : Py.str :=
  Py.lit "<pad> <extra_id_0> foo bar <extra_id_1> baz</s>".

Definition sample_segments : list segment :=
  [ {| seg_digits := Py.of_nat 0; seg_lead := Py.lit " ";
       seg_fill := Py.lit "foo bar"; seg_trail := Py.lit " " |};
    {| seg_digits := Py.of_nat 1; seg_lead := Py.lit " ";
       seg_fill := Py.lit "baz"; seg_trail := [] |} ].

(** The output "<extra_id_0> a", line feed, "b": one marker, followed by a
    text of two lines. *)
Definition two_line_output : Py.str :=
  Py.lit "<extra_id_0> a" ++ [Py.newline] ++ Py.lit "b".

Definition two_line_segments : list segment :=
  [ {| seg_digits := Py.of_nat 0; seg_lead := Py.lit " ";
       seg_fill := Py.lit "a" ++ [Py.newline] ++ Py.lit "b";
       seg_trail := [] |} ].

(** ** Log-probability scorer *)

(** Equality of two results up to the sign of a zero. *)
Definition same_value (x y : spec_float) : Prop :=
  x = y \/ (is_zero x /\ is_zero y).

(** The valid positions of a row after the shift: its attention mask
    without the first column, as flags. *)
Definition valid_flags (mask_row : list Z) : list bool :=
  map (fun m => negb (m =? 0)%Z) (tl mask_row).

(** The count of valid (non-padding, post-shift) tokens of a row. *)
Definition valid_count (mask_row : list Z) : nat :=
  length (filter (fun b => b) (valid_flags mask_row)).

(** The per-token losses of a row: the cross entropy with the pad id
    ignored, at the shifted labels. *)
Definition row_losses (pad_token_id : Z) (nll_row : list spec_float)
    (ids_row : list Z) : list spec_float :=
  map2 (fun v label => if (label =? pad_token_id)%Z then Fl.zero else v)
       nll_row (tl ids_row).

(** The masked per-token losses of a row: loss times mask. *)
Definition masked_row_losses (prec emax : Z) (losses : list spec_float)
    (mask_row : list Z) : list spec_float :=
  map2 (fun l m => Fl.mul prec emax l (Fl.of_Z prec emax m)) losses (tl mask_row).

(** A batch whose tensors fit together: one row of ids, of mask and of
    losses per sequence, rows of one length, a mask of zeros and ones, and
    the pad id at the masked-out positions. *)
Record well_formed (pad_token_id : Z) (inputs : encoding)
    (nll : list (list spec_float)) : Prop := {
  wf_mask_rows : length (attention_mask inputs) = length (input_ids inputs);
  wf_nll_rows : length nll = length (input_ids inputs);
  wf_columns :
    forall j ids mask nll_row,
      nth_error (input_ids inputs) j = Some ids ->
      nth_error (attention_mask inputs) j = Some mask ->
      nth_error nll j = Some nll_row ->
      length mask = length ids /\ length nll_row = length (tl ids);
  wf_mask_bits :
    Forall (Forall (fun m => m = 0%Z \/ m = 1%Z)) (attention_mask inputs);
  wf_padding :
    forall j ids mask p,
      nth_error (input_ids inputs) j = Some ids ->
      nth_error (attention_mask inputs) j = Some mask ->
      nth_error mask p = Some 0%Z ->
      nth_error ids p = Some pad_token_id
}.

(** The value the first notebook computes for one row. *)
Definition row_log_prob_000 (prec emax pad_token_id : Z) (ids mask : list Z) (nll_row : list spec_float)
  : spec_float :=
  let c := int_sum (tl mask) in
  if (c =? 0)%Z then Fl.neg_inf
  else Fl.neg
         (Fl.div prec emax
            (Fl.round prec emax
               (accumulate prec emax
                  (masked_row_losses prec emax
                     (row_losses pad_token_id nll_row ids) mask)))
            (Fl.of_Z prec emax (Z.max c 1))).

(** The value the other notebook computes for one row. *)
Definition row_log_prob_001 (prec emax pad_token_id : Z) (ids mask : list Z) (nll_row : list spec_float)
  : spec_float :=
  if 0 <? valid_count mask
  then Fl.neg (tensor_mean prec emax
                 (select (row_losses pad_token_id nll_row ids) (valid_flags mask)))
  else Fl.neg_inf.

(** The scores of one sub-batch in the second notebook. *)
Definition scores_001 (prec emax : Z)
    (computation_tokenizer : list Py.str -> encoding) (pad_token_id : Z)
    (token_nll : encoding -> list (list spec_float))
    (batch_texts : list Py.str) : list spec_float :=
  let inputs := computation_tokenizer batch_texts in
  map (fun j => row_log_prob_001 prec emax pad_token_id
                  (nth j (input_ids inputs) [])
                  (nth j (attention_mask inputs) [])
                  (nth j (token_nll inputs) []))
      (seq 0 (length (input_ids inputs))).

(** A tiny deterministic scoring capability: a token per character (its
    code), right padding with the id 0 up to the longest text of the batch,
    and a model whose negative log-likelihood of a label is the label. *)
Definition tiny_tokenizer (batch_texts : list Py.str) : encoding :=
  let longest := list_max (map (@length ascii) batch_texts) in
  {| input_ids :=
       map (fun text => map (fun c => Z.of_nat (Py.code c)) text
                        ++ repeat 0%Z (longest - length text))
           batch_texts;
     attention_mask :=
       map (fun text => repeat 1%Z (length text)
                        ++ repeat 0%Z (longest - length text))
           batch_texts |}.

Definition tiny_nll (prec emax : Z) (inputs : encoding)
  : list (list spec_float) :=
  map (fun ids => map (Fl.of_Z prec emax) (tl ids)) (input_ids inputs).

(** A batch of the tiny capability: "abc", "de" and the empty text. *)
Definition tiny_batch : list Py.str := [Py.lit "abc"; Py.lit "de"; []].

(** The capability returns one row per text. *)
Definition row_per_text (computation_tokenizer : list Py.str -> encoding)
    (token_nll : encoding -> list (list spec_float)) : Prop :=
  forall batch_texts,
    let inputs := computation_tokenizer batch_texts in
    length (input_ids inputs) = length batch_texts
    /\ length (attention_mask inputs) = length batch_texts
    /\ length (token_nll inputs) = length batch_texts.


(** ** Span masker: any draw *)

(** Mask positions below [n], highest first, each one once. *)
Fixpoint descending_below (n : nat) (mask_indices : list nat) : Prop :=
  match mask_indices with
  | [] => True
  | idx :: rest => idx < n /\ descending_below idx rest
  end.

(** Strictly increasing order from [m] on, as [np.sort] leaves distinct
    positions. *)
Fixpoint ascending_from (m : nat) (l : list nat) : Prop :=
  match l with
  | [] => True
  | x :: r => m <= x /\ ascending_from (S x) r
  end.

(** The words a call of [mask_words] leaves, without the generator state. *)
Definition masked_words {G} (r : result (list Py.str * G))
  : result (list Py.str) :=
  match r with
  | inl e => inl e
  | inr (words, _) => inr words
  end.

(** A masked text next to the text it was made from: the masked text is
    its own words joined by single spaces; it has no more words than the
    text had after truncation; each of its words is a word of the
    truncated text or a placeholder. *)
Definition masked_from (max_words : nat) (text masked_text : Py.str) : Prop :=
  let words := truncate max_words (Py.split text) in
  let masked := Py.split masked_text in
  masked_text = Py.join (Py.lit " ") masked
  /\ length masked <= length words
  /\ Forall (fun w => In w words \/ exists j, w = extra_id j) masked.

(** ** Fill extractor: any text *)

(** What every fill found by the pattern is: one line, no whitespace at
    either end, no placeholder marker inside. *)
Definition clean_fill (fill : Py.str) : Prop :=
  one_line fill /\ trimmed fill /\ marker_free fill.

(** ** Infill model *)

(** The infill tokenizer gives every placeholder marker at least one
    token. *)
Definition encodes_markers (t5_encode : Py.str -> list Z) : Prop :=
  forall m, t5_encode (extra_id m) <> [].

(** Generation and decoding return one output per text of a sub-batch. *)
Definition output_per_input {G}
    (t5_generate : G -> list Py.str -> Z -> list Py.str * G) : Prop :=
  forall g batch_texts stop,
    length (fst (t5_generate g batch_texts stop)) = length batch_texts.

(** A stand-in for the infill model that answers every masked text with
    one and the same fill for placeholder 0. *)
Definition constant_generate (g : unit) (batch_texts : list Py.str) (stop : Z)
  : list Py.str * unit :=
  (map (fun _ => Py.lit "<pad> <extra_id_0> very</s>") batch_texts, g).

(** ** Perturbation *)

(** A text with its whitespace normalised: its words joined by single
    spaces. *)
Definition normalized (text : Py.str) : Py.str :=
  Py.join (Py.lit " ") (Py.split text).

(** At most six words and no opening angle bracket: nothing to mask at the
    default ratio, and nothing a fill could replace. *)
Definition short_plain (text : Py.str) : Prop :=
  length (Py.split text) <= 6 /\ ~ In "<"%char text.

(** ** Driver *)

(** The perturbation rounds seen as a whole: [round] perturbs and scores
    once; the scores of the rounds are collected in order, one list per
    round. *)
Fixpoint round_scores {G} (round : G -> result (list spec_float * G))
    (g : G) (rounds : nat) : result (list (list spec_float) * G) :=
  match rounds with
  | O => ret ([], g)
  | S rounds' =>
      '(all_log_probs, g) <- round g ;;
      '(later, g) <- round_scores round g rounds' ;;
      ret (all_log_probs :: later, g)
  end.

(** The scores of the rounds organised by text: list [j] holds the score of
    text [j] in every round, in the order of the rounds; no list at all
    when there was no round. *)
Definition per_text (n_samples : nat) (rounds : list (list spec_float))
  : list (list spec_float) :=
  match rounds with
  | [] => []
  | _ :: _ =>
      map (fun j => map (fun all_log_probs => nth j all_log_probs Fl.zero) rounds)
          (seq 0 n_samples)
  end.

(** The loop over the rounds with its round abstracted. *)
Fixpoint round_loop {G} (round : G -> result (list spec_float * G))
    (n_samples : nat) (g : G)
    (log_probs_per_text_transformed : list (list spec_float))
    (perturbation_idxs : list nat) : result (list (list spec_float) * G) :=
  match perturbation_idxs with
  | [] => ret (log_probs_per_text_transformed, g)
  | perturbation_idx :: rest =>
      '(all_log_probs, g) <- round g ;;
      log_probs_per_text_transformed <-
        Part000.organize perturbation_idx all_log_probs
          log_probs_per_text_transformed (seq 0 n_samples) ;;
      round_loop round n_samples g log_probs_per_text_transformed rest
  end.

(** An entry, and a data file of three entries. *)
Definition sample_entry : record :=
  {| record_text := Py.lit "the quick  brown fox jumps over the lazy dog";
     record_model := Py.lit "human"; record_source := Py.lit "wiki" |}.

Definition sample_data : list record :=
  [ sample_entry;
    {| record_text := Py.lit "hello world";
       record_model := Py.lit "gpt2"; record_source := Py.lit "FleLLM" |};
    {| record_text := Py.lit "a b c d e f g h i j k l m n";
       record_model := Py.lit "human"; record_source := Py.lit "wiki" |} ].

(** One round of the driver: perturb the texts, score the perturbed
    texts. *)
Definition round_000 {G} (choose : G -> nat -> nat -> list nat * G)
    (t5_encode : Py.str -> list Z) (t5_eos_token_id : Z)
    (t5_generate : G -> list Py.str -> Z -> list Py.str * G)
    (prec emax : Z) (computation_tokenizer : list Py.str -> encoding)
    (pad_token_id : Z) (token_nll : encoding -> list (list spec_float))
    (original_texts : list Py.str) (batch_size : nat) (g : G)
  : result (list spec_float * G) :=
  '(all_perturbed_texts, g) <-
    Part000.t5_perturbation choose t5_encode t5_eos_token_id t5_generate
      g original_texts batch_size ;;
  all_log_probs <-
    Part000.batch_average_log_prob prec emax computation_tokenizer
      pad_token_id token_nll all_perturbed_texts batch_size ;;
  ret (all_log_probs, g).

Definition round_001 {G} (choose : G -> nat -> nat -> list nat * G)
    (t5_encode : Py.str -> list Z)
    (t5_generate : G -> list Py.str -> Z -> list Py.str * G)
    (prec emax : Z) (computation_tokenizer : list Py.str -> encoding)
    (pad_token_id : Z) (token_nll : encoding -> list (list spec_float))
    (original_texts : list Py.str) (batch_size : nat) (g : G)
  : result (list spec_float * G) :=
  '(all_perturbed_texts, g) <-
    Part001.t5_perturbation choose t5_encode t5_generate
      g original_texts batch_size ;;
  all_log_probs <-
    Part001.batch_average_log_prob prec emax computation_tokenizer
      pad_token_id token_nll all_perturbed_texts batch_size ;;
  ret (all_log_probs, g).

(** The text the driver scores for an entry: its first [max_length] words,
    joined by single spaces. *)
Definition original_text (max_length : nat) (entry : record) : Py.str :=
  Py.join (Py.lit " ") (firstn max_length (Py.split (record_text entry))).

(** ** Perplexity *)

(** The mean masked loss of a row with the clamp of its divisor: the value
    [compute_perplexity] exponentiates. *)
Definition row_sentence_loss (prec emax pad_token_id : Z) (ids mask : list Z)
    (nll_row : list spec_float) : spec_float :=
  Fl.div prec emax
    (Fl.round prec emax
       (accumulate prec emax
          (masked_row_losses prec emax (row_losses pad_token_id nll_row ids)
             mask)))
    (Fl.of_Z prec emax (Z.max (int_sum (tl mask)) 1)).

(** A data file whose texts are "abc", "de" and the empty text. *)
Definition tiny_data : list record :=
  [ {| record_text := Py.lit "abc"; record_model := Py.lit "human";
       record_source := Py.lit "wiki" |};
    {| record_text := Py.lit "de"; record_model := Py.lit "gpt2";
       record_source := Py.lit "FleLLM" |};
    {| record_text := []; record_model := Py.lit "human";
       record_source := Py.lit "wiki" |} ].

(** ** Words *)

(** A word as [split] returns it: not empty, no whitespace. *)
Definition is_word (w : Py.str) : Prop :=
  w <> [] /\ Forall (fun c => Py.isspace c = false) w.

(** ** Placeholders of a masked text *)

(** A word of a masked text: a placeholder, or a word without ["<"]. *)
Definition placeholder_or_plain (w : Py.str) : Prop :=
  (exists j, w = extra_id j) \/ ~ In "<"%char w.

(** The number of words that start like a placeholder. *)
Definition placeholder_count (words : list Py.str) : nat :=
  length (filter (Py.startswith extra_id_prefix) words).

(** ** The earlier notebook *)

(** What [random.randint(a, b)] promises: a value between [a] and [b],
    both included. *)
Definition randint_ok {G} (randint : G -> nat -> nat -> nat * G) : Prop :=
  forall g a b, a <= b ->
    a <= fst (randint g a b) /\ fst (randint g a b) <= b.

(** A generator that always returns the upper bound. *)
Definition highest (g : unit) (a b : nat) : nat * unit := (b, g).
(** * Properties *)

(** ** Span masker *)

Lemma lowest_ok : sampler_ok lowest.
Proof.
  intros g n k Hk. simpl. repeat split.
  - apply length_seq.
  - apply seq_NoDup.
  - apply Forall_forall. intros i Hi. apply in_seq in Hi. lia.
Qed.

(** C3 (the code at an input that breaks the masking invariant): the four
    words "a b c d" with ratio 1/2 ask for two masks; when the sampler draws
    the adjacent positions 0 and 1, the second mask deletes the placeholder
    of the first, and the masked text holds one placeholder, of index 1. *)
Theorem span_masker_adjacent_positions :
  sampler_ok lowest
  /\ num_masks (Py.split (Py.lit "a b c d")) (1 # 2)%Q = 2%Z
  /\ fst (lowest tt 3 2) = [0; 1]
  /\ Part000.batch_mask_text lowest tt [Py.lit "a b c d"] (1 # 2)%Q 370
     = inr ([Py.lit "<extra_id_1> d"], tt)
  /\ Part001.batch_mask_text lowest tt [Py.lit "a b c d"] (1 # 2)%Q 370
     = inr ([Py.lit "<extra_id_1> d"], tt)
  /\ Py.count (Py.lit "<extra_id_1> d") extra_id_prefix = 1
  /\ Py.count (Py.lit "<extra_id_1> d") (extra_id 0) = 0.
Proof.
  split; [exact lowest_ok|].
  repeat split; vm_compute; reflexivity.
Qed.

(** The masker raises nothing but the exceptions of the sampler and of the
    list assignment. *)
Lemma mask_loop_raises_000 words i mask_indices e :
  Part000.mask_loop words i mask_indices = inl e -> e = IndexError.
Proof.
  revert words i. induction mask_indices as [|idx rest IH]; intros words i; simpl.
  - discriminate.
  - unfold Part000.mask_step.
    destruct (idx <? length words); simpl; [|now intros [= <-]].
    destruct (idx + 1 <? length (Py.set_item words idx (extra_id i))); simpl;
      apply IH.
Qed.

Lemma mask_loop_raises_001 words i mask_indices e :
  Part001.mask_loop words i mask_indices = inl e -> e = IndexError.
Proof.
  revert words i. induction mask_indices as [|idx rest IH]; intros words i; simpl.
  - discriminate.
  - unfold Part001.mask_step.
    destruct (idx <? length words); simpl; [|now intros [= <-]].
    destruct (idx + 1 <? length (Py.set_item words idx (extra_id i))); simpl;
      apply IH.
Qed.

Lemma mask_words_raises_000 {G} (choose : G -> nat -> nat -> list nat * G)
    g text mask_ratio max_words e :
  Part000.mask_words choose g text mask_ratio max_words = inl e ->
  e = ValueError \/ e = IndexError.
Proof.
  unfold Part000.mask_words, Part000.np_random_choice.
  destruct (0 <? _)%Z; [|discriminate].
  destruct (_ || _)%bool; simpl; [intros [= <-]; now left|].
  destruct (choose _ _ _) as [picked g']. simpl.
  destruct (Part000.mask_loop _ _ _) as [e'|w] eqn:Hloop; simpl; [|discriminate].
  intros [= <-]. right. eapply mask_loop_raises_000; eauto.
Qed.

Lemma mask_words_raises_001 {G} (choose : G -> nat -> nat -> list nat * G)
    g text mask_ratio max_words e :
  Part001.mask_words choose g text mask_ratio max_words = inl e ->
  e = ValueError \/ e = IndexError.
Proof.
  unfold Part001.mask_words, Part001.random_sample.
  destruct (_ || _)%bool; simpl; [intros [= <-]; now left|].
  destruct (choose _ _ _) as [picked g']. simpl.
  destruct (Part001.mask_loop _ _ _) as [e'|w] eqn:Hloop; simpl; [|discriminate].
  intros [= <-]. right. eapply mask_loop_raises_001; eauto.
Qed.

Lemma batch_mask_text_raises_000 {G} (choose : G -> nat -> nat -> list nat * G)
    texts g mask_ratio max_words e :
  Part000.batch_mask_text choose g texts mask_ratio max_words = inl e ->
  e = ValueError \/ e = IndexError.
Proof.
  revert g. induction texts as [|text texts IH]; intros g; simpl; [discriminate|].
  destruct (Part000.mask_words _ _ _ _ _) as [e'|[words g']] eqn:Hw; simpl.
  - intros [= <-]. eapply mask_words_raises_000; eauto.
  - destruct (Part000.batch_mask_text _ _ _ _ _) as [e'|[masked g'']] eqn:Hb; simpl;
      [|discriminate].
    intros [= <-]. eapply IH; eauto.
Qed.

Lemma batch_mask_text_raises_001 {G} (choose : G -> nat -> nat -> list nat * G)
    texts g mask_ratio max_words e :
  Part001.batch_mask_text choose g texts mask_ratio max_words = inl e ->
  e = ValueError \/ e = IndexError.
Proof.
  revert g. induction texts as [|text texts IH]; intros g; simpl; [discriminate|].
  destruct (Part001.mask_words _ _ _ _ _) as [e'|[words g']] eqn:Hw; simpl.
  - intros [= <-]. eapply mask_words_raises_001; eauto.
  - destruct (Part001.batch_mask_text _ _ _ _ _) as [e'|[masked g'']] eqn:Hb; simpl;
      [|discriminate].
    intros [= <-]. eapply IH; eauto.
Qed.

(** An exception in the body of the loop over the texts ends the call. *)
Lemma batch_mask_text_stops_000 {G} (choose : G -> nat -> nat -> list nat * G)
    before text after g mask_ratio max_words :
  (forall g', exists e,
      Part000.mask_words choose g' text mask_ratio max_words = inl e) ->
  exists e,
    Part000.batch_mask_text choose g (before ++ text :: after) mask_ratio max_words
    = inl e.
Proof.
  intros Hfail. revert g.
  induction before as [|t before IH]; intros g; simpl.
  - destruct (Hfail g) as [e ->]. now exists e.
  - destruct (Part000.mask_words choose g t mask_ratio max_words) as [e|[w g']];
      simpl; [now exists e|].
    destruct (IH g') as [e ->]. now exists e.
Qed.

Lemma batch_mask_text_stops_001 {G} (choose : G -> nat -> nat -> list nat * G)
    before text after g mask_ratio max_words :
  (forall g', exists e,
      Part001.mask_words choose g' text mask_ratio max_words = inl e) ->
  exists e,
    Part001.batch_mask_text choose g (before ++ text :: after) mask_ratio max_words
    = inl e.
Proof.
  intros Hfail. revert g.
  induction before as [|t before IH]; intros g; simpl.
  - destruct (Hfail g) as [e ->]. now exists e.
  - destruct (Part001.mask_words choose g t mask_ratio max_words) as [e|[w g']];
      simpl; [now exists e|].
    destruct (IH g') as [e ->]. now exists e.
Qed.

(** *** Requests the sampler cannot serve *)

Lemma oversized_request_000 {G} (choose : G -> nat -> nat -> list nat * G)
    g text mask_ratio max_words :
  (mask_positions (truncate max_words (Py.split text))
   < num_masks (truncate max_words (Py.split text)) mask_ratio)%Z ->
  Part000.mask_words choose g text mask_ratio max_words = inl ValueError.
Proof.
  unfold Part000.mask_words, Part000.np_random_choice, mask_positions.
  set (words := truncate max_words (Py.split text)).
  set (k := num_masks words mask_ratio). intros Hk.
  assert (H0 : (0 <? k)%Z = true) by (apply Z.ltb_lt; lia).
  rewrite H0.
  assert (H1 : ((Z.of_nat (length words) - 1 <=? 0)
                || (Z.of_nat (length words) - 1 <? k))%Z = true).
  { apply orb_true_iff.
    destruct (Z.leb_spec (Z.of_nat (length words) - 1) 0); [now left|right].
    apply Z.ltb_lt. lia. }
  now rewrite H1.
Qed.

Lemma oversized_request_001 {G} (choose : G -> nat -> nat -> list nat * G)
    g text mask_ratio max_words :
  (mask_positions (truncate max_words (Py.split text))
   < num_masks (truncate max_words (Py.split text)) mask_ratio)%Z ->
  Part001.mask_words choose g text mask_ratio max_words = inl ValueError.
Proof.
  unfold Part001.mask_words, Part001.random_sample, mask_positions.
  set (words := truncate max_words (Py.split text)).
  set (k := num_masks words mask_ratio). intros Hk.
  assert (H1 : ((k <? 0) || (Z.max (Z.of_nat (length words) - 1) 0 <? k))%Z = true).
  { apply orb_true_iff. right. now apply Z.ltb_lt. }
  now rewrite H1.
Qed.

(** C4 (amended): when the requested mask count exceeds the number of
    mask-start positions max(L-1, 0), the masker fails, and the failure is
    the [ValueError] of the sampler, which is called without any validation
    before it; the exception ends the call for the whole batch, and no input
    makes the masker report [InvalidMaskRatio]. *)
Theorem oversized_mask_request_fails_in_sampler :
  forall (G : Type) (choose : G -> nat -> nat -> list nat * G)
         (text : Py.str) (mask_ratio : Q) (max_words : nat),
    (mask_positions (truncate max_words (Py.split text))
     < num_masks (truncate max_words (Py.split text)) mask_ratio)%Z ->
    (forall g,
        Part000.mask_words choose g text mask_ratio max_words = inl ValueError
        /\ Part001.mask_words choose g text mask_ratio max_words = inl ValueError)
    /\ (forall g before after, exists e,
           Part000.batch_mask_text choose g (before ++ text :: after)
                                   mask_ratio max_words = inl e
           /\ e <> InvalidMaskRatio)
    /\ (forall g before after, exists e,
           Part001.batch_mask_text choose g (before ++ text :: after)
                                   mask_ratio max_words = inl e
           /\ e <> InvalidMaskRatio).
Proof.
  intros G choose text mask_ratio max_words Hover.
  split; [|split].
  - intros g. split.
    + now apply oversized_request_000.
    + now apply oversized_request_001.
  - intros g before after.
    destruct (@batch_mask_text_stops_000 G choose before text after g
                mask_ratio max_words) as [e He].
    { intros g'. exists ValueError. now apply oversized_request_000. }
    exists e. split; [exact He|].
    destruct (batch_mask_text_raises_000 _ _ _ _ _ He); subst; discriminate.
  - intros g before after.
    destruct (@batch_mask_text_stops_001 G choose before text after g
                mask_ratio max_words) as [e He].
    { intros g'. exists ValueError. now apply oversized_request_001. }
    exists e. split; [exact He|].
    destruct (batch_mask_text_raises_001 _ _ _ _ _ He); subst; discriminate.
Qed.

Lemma oversized_mask_request_fails_in_sampler_witness :
  Part000.mask_words lowest tt (Py.lit "hello") 1%Q 370 = inl ValueError
  /\ Part001.mask_words lowest tt (Py.lit "hello") 1%Q 370 = inl ValueError.
Proof.
  apply (proj1 (@oversized_mask_request_fails_in_sampler
                  unit lowest (Py.lit "hello") 1%Q 370 eq_refl)).
Defined.

(** C4 (as stated) fails on the one-word text "hello" with ratio 1: one mask
    is requested where no position is available, and the call ends with the
    sampler's [ValueError], not with [InvalidMaskRatio]. *)
Lemma mask_request_not_validated :
  ~ ((Z.of_nat (length (truncate 370 (Py.split (Py.lit "hello")))) - 1
      < num_masks (truncate 370 (Py.split (Py.lit "hello"))) 1%Q)%Z ->
     Part000.batch_mask_text lowest tt [Py.lit "hello"] 1%Q 370
     = inl InvalidMaskRatio)
  /\ ~ ((Z.of_nat (length (truncate 370 (Py.split (Py.lit "hello")))) - 1
         < num_masks (truncate 370 (Py.split (Py.lit "hello"))) 1%Q)%Z ->
        Part001.batch_mask_text lowest tt [Py.lit "hello"] 1%Q 370
        = inl InvalidMaskRatio).
Proof.
  split; intros H; specialize (H eq_refl); vm_compute in H; discriminate H.
Qed.

(** For the empty text the comparison [num_masks > L-1] holds (0 > -1) and
    nothing fails: no mask is requested. *)
Lemma empty_text_is_not_rejected :
  (Z.of_nat (length (truncate 370 (Py.split []))) - 1
   < num_masks (truncate 370 (Py.split [])) (1 # 2)%Q)%Z
  /\ Part000.batch_mask_text lowest tt [[]] (1 # 2)%Q 370 = inr ([[]], tt)
  /\ Part001.batch_mask_text lowest tt [[]] (1 # 2)%Q 370 = inr ([[]], tt).
Proof. repeat split. Qed.

(** *** Texts of fewer than two words *)

Lemma int_unit_interval (q : Q) : (0 <= q)%Q -> (q < 1)%Q -> Py.int q = 0%Z.
Proof.
  intros H0 H1. unfold Py.int.
  assert (Hb : Qle_bool 0 q = true) by now apply Qle_bool_iff.
  rewrite Hb. destruct q as [n d].
  unfold Qle in H0. unfold Qlt in H1. simpl in *.
  apply Z.div_small. lia.
Qed.

Lemma num_masks_short (words : list Py.str) (mask_ratio : Q) :
  (0 < mask_ratio)%Q ->
  length words = 0 \/ (length words = 1 /\ (mask_ratio < 1)%Q) ->
  num_masks words mask_ratio = 0%Z.
Proof.
  intros H0 HL. unfold num_masks.
  destruct words as [|w [|w' ws]]; simpl length in *.
  - apply int_unit_interval; simpl; rewrite Qmult_0_l; [apply Qle_refl|reflexivity].
  - destruct HL as [HL|[_ H1]]; [discriminate|].
    apply int_unit_interval; simpl; rewrite Qmult_1_l;
      [now apply Qlt_le_weak|exact H1].
  - destruct HL as [HL|[HL _]]; discriminate.
Qed.

Lemma mask_words_short_000 {G} (choose : G -> nat -> nat -> list nat * G)
    g text mask_ratio max_words :
  num_masks (truncate max_words (Py.split text)) mask_ratio = 0%Z ->
  Part000.mask_words choose g text mask_ratio max_words
  = inr (truncate max_words (Py.split text), g).
Proof. unfold Part000.mask_words. now intros ->. Qed.

Lemma mask_words_short_001 {G} (choose : G -> nat -> nat -> list nat * G)
    g text mask_ratio max_words :
  sampler_ok choose ->
  num_masks (truncate max_words (Py.split text)) mask_ratio = 0%Z ->
  exists g',
    Part001.mask_words choose g text mask_ratio max_words
    = inr (truncate max_words (Py.split text), g').
Proof.
  intros Hok Hk. unfold Part001.mask_words, Part001.random_sample.
  rewrite Hk.
  set (n := Z.max _ 0).
  assert (Hn : ((0 <? 0) || (n <? 0))%Z = false).
  { apply orb_false_iff. split; [reflexivity|]. apply Z.ltb_ge. unfold n. lia. }
  rewrite Hn. simpl.
  destruct (Hok g (Z.to_nat n) 0 (Nat.le_0_l _)) as (Hlen & _ & _).
  destruct (choose g (Z.to_nat n) 0) as [picked g'] eqn:Hc. simpl in *.
  apply length_zero_iff_nil in Hlen. subst picked. simpl.
  now exists g'.
Qed.

(** C5 (amended): for texts of fewer than two words and a ratio in (0,1],
    a one-word text at ratio 1 apart, [num_masks] is 0, nothing is masked,
    and the words come back unchanged, joined by single spaces. *)
Theorem short_text_is_not_masked :
  forall (G : Type) (choose : G -> nat -> nat -> list nat * G) (g : G)
         (texts : list Py.str) (mask_ratio : Q) (max_words : nat),
    sampler_ok choose ->
    (0 < mask_ratio)%Q -> (mask_ratio <= 1)%Q ->
    Forall (fun text =>
              let L := length (truncate max_words (Py.split text)) in
              L < 2 /\ (L = 1 -> (mask_ratio < 1)%Q))
           texts ->
    Forall (fun text =>
              num_masks (truncate max_words (Py.split text)) mask_ratio = 0%Z)
           texts
    /\ Part000.batch_mask_text choose g texts mask_ratio max_words
       = inr (map (unmasked max_words) texts, g)
    /\ exists g',
        Part001.batch_mask_text choose g texts mask_ratio max_words
        = inr (map (unmasked max_words) texts, g').
Proof.
  intros G choose g texts mask_ratio max_words Hok H0 _ Hshort.
  assert (Hk : Forall (fun text =>
              num_masks (truncate max_words (Py.split text)) mask_ratio = 0%Z)
           texts).
  { eapply Forall_impl; [|exact Hshort]. intros text [HL H1].
    apply num_masks_short; [exact H0|].
    destruct (length (truncate max_words (Py.split text))) as [|[|n]];
      [now left|right; split; [reflexivity|now apply H1]|simpl in HL; lia]. }
  split; [exact Hk|]. clear Hshort. split.
  - revert g. induction Hk as [|text texts Ht _ IH]; intros g; simpl; [reflexivity|].
    rewrite (@mask_words_short_000 G choose g text mask_ratio max_words Ht). simpl.
    now rewrite IH.
  - revert g. induction Hk as [|text texts Ht _ IH]; intros g; simpl.
    + now exists g.
    + destruct (@mask_words_short_001 G choose g text mask_ratio max_words Hok Ht) as [g1 ->]. simpl.
      destruct (IH g1) as [g2 ->]. simpl. now exists g2.
Qed.

Lemma short_text_is_not_masked_witness :
  Part000.batch_mask_text lowest tt [Py.lit "hello"; []] (15 # 100)%Q 370
  = inr ([Py.lit "hello"; []], tt).
Proof.
  refine (proj1 (proj2 (@short_text_is_not_masked
           unit lowest tt [Py.lit "hello"; []] (15 # 100)%Q 370
           lowest_ok eq_refl _ _))).
  - discriminate.
  - repeat constructor.
Defined.

(** C5 (as stated) fails at ratio 1: the one-word text "hello" gets
    [num_masks = 1], and the call raises instead of returning the word. *)
Lemma one_word_ratio_one_is_masked :
  length (truncate 370 (Py.split (Py.lit "hello"))) < 2
  /\ ~ (num_masks (truncate 370 (Py.split (Py.lit "hello"))) 1%Q = 0%Z)
  /\ Part000.batch_mask_text lowest tt [Py.lit "hello"] 1%Q 370 = inl ValueError
  /\ Part001.batch_mask_text lowest tt [Py.lit "hello"] 1%Q 370 = inl ValueError.
Proof.
  split; [vm_compute; lia|].
  split; [vm_compute; discriminate|].
  split; reflexivity.
Qed.

(** ** Infill requester *)

Lemma fold_left_max_list_max (r : list nat) (x : nat) :
  fold_left Nat.max r x = list_max (x :: r).
Proof.
  revert x. induction r as [|y r IH]; intros x; simpl.
  - lia.
  - rewrite IH. simpl. lia.
Qed.

Lemma py_max_list_max (l : list nat) :
  l <> [] -> Py.max l = inr (list_max l).
Proof.
  destruct l as [|x r]; [congruence|]. intros _.
  unfold Py.max, ret. now rewrite fold_left_max_list_max.
Qed.

Lemma list_max_zero (l : list nat) :
  Forall (fun n => n = 0) l -> list_max l = 0.
Proof. induction 1 as [|n l -> _ IH]; simpl; [reflexivity|]. now rewrite IH. Qed.

(** The sub-batches of the loop are never empty. *)
Lemma chunks_upto_nonempty {A} (fuel n : nat) (l : list A) (chunk : list A) :
  0 < n -> In chunk (Py.chunks_upto fuel n l) -> chunk <> [].
Proof.
  intros Hn. revert l. induction fuel as [|fuel IH]; intros l; simpl.
  - destruct l; contradiction.
  - destruct l as [|a l']; [contradiction|].
    intros [<-|Hin].
    + destruct n; [lia|]. discriminate.
    + eapply IH; eauto.
Qed.

(** C6 (amended): for every sub-batch formed by the loop the stop
    token is the first token of the placeholder marker whose index is the
    maximum number of [<extra_id_] occurrences per text; when no text of the
    sub-batch holds a placeholder that index is 0, so generation stops on
    [<extra_id_0>]; the end-of-sequence id is used by the first notebook for
    an empty sub-batch only, which the loop never forms, and the other
    notebook has no such case. *)
Theorem stop_token_is_marker_of_max_count :
  forall (t5_encode : Py.str -> list Z) (t5_eos_token_id : Z)
         (texts : list Py.str) (batch_size : nat) (batch_texts : list Py.str),
    0 < batch_size ->
    In batch_texts (Py.chunks batch_size texts) ->
    let counts := map (fun text => Py.count text extra_id_prefix) batch_texts in
    Part000.stop_id t5_encode t5_eos_token_id batch_texts
    = index (t5_encode (extra_id (list_max counts))) 0
    /\ Part001.stop_id t5_encode batch_texts
       = index (t5_encode (extra_id (list_max counts))) 0
    /\ (Forall (fun text => Py.count text extra_id_prefix = 0) batch_texts ->
        Part000.stop_id t5_encode t5_eos_token_id batch_texts
        = index (t5_encode (extra_id 0)) 0
        /\ Part001.stop_id t5_encode batch_texts
           = index (t5_encode (extra_id 0)) 0).
Proof.
  intros t5_encode eos texts batch_size batch_texts Hbs Hin counts.
  assert (Hne : batch_texts <> []) by (eapply chunks_upto_nonempty; eauto).
  assert (Hc : counts <> []).
  { unfold counts. destruct batch_texts; [congruence|discriminate]. }
  assert (H0 : Part000.stop_id t5_encode eos batch_texts
               = index (t5_encode (extra_id (list_max counts))) 0).
  { unfold Part000.stop_id, Part000.n_expected. fold counts.
    rewrite (py_max_list_max Hc). destruct counts; [congruence|reflexivity]. }
  assert (H1 : Part001.stop_id t5_encode batch_texts
               = index (t5_encode (extra_id (list_max counts))) 0).
  { unfold Part001.stop_id, Part001.n_expected. fold counts.
    now rewrite (py_max_list_max Hc). }
  split; [exact H0|]. split; [exact H1|].
  intros Hzero.
  assert (Hm : list_max counts = 0).
  { apply list_max_zero. unfold counts. now apply Forall_map. }
  rewrite H0, H1, Hm. now split.
Qed.

Lemma stop_token_is_marker_of_max_count_witness :
  Part000.stop_id t5_like_encode 1 [Py.lit "a <extra_id_0> b"; Py.lit "c d"]
  = index (t5_like_encode
             (extra_id (list_max
                (map (fun text => Py.count text extra_id_prefix)
                     [Py.lit "a <extra_id_0> b"; Py.lit "c d"])))) 0.
Proof.
  refine (proj1 (@stop_token_is_marker_of_max_count t5_like_encode 1%Z
           [Py.lit "a <extra_id_0> b"; Py.lit "c d"; Py.lit "e"] 2
           [Py.lit "a <extra_id_0> b"; Py.lit "c d"] _ _)).
  - repeat constructor.
  - left. reflexivity.
Defined.

(** C6 (as stated) fails on a sub-batch without any placeholder: for
    ["hello world"] the stop token is the token of [<extra_id_0>], not the
    end-of-sequence token. *)
Lemma stop_token_without_placeholders :
  Forall (fun text => Py.count text extra_id_prefix = 0) [Py.lit "hello world"]
  /\ Part000.stop_id t5_like_encode 1 [Py.lit "hello world"] = inr 32099%Z
  /\ Part000.stop_id t5_like_encode 1 [Py.lit "hello world"] <> inr 1%Z
  /\ Part001.stop_id t5_like_encode [Py.lit "hello world"] = inr 32099%Z
  /\ Part001.stop_id t5_like_encode [Py.lit "hello world"] <> inr 1%Z.
Proof.
  split; [repeat constructor|].
  repeat split; try reflexivity; vm_compute; discriminate.
Qed.

(** The two notebooks on an empty sub-batch. *)
Lemma stop_id_of_empty_batch (t5_encode : Py.str -> list Z) (eos : Z) :
  Part000.stop_id t5_encode eos [] = inr eos
  /\ Part001.stop_id t5_encode [] = inl ValueError.
Proof. now split. Qed.

(** ** Applier *)

Lemma startswith_app (p r : Py.str) : Py.startswith p (p ++ r) = true.
Proof.
  induction p as [|a p IH]; simpl; [reflexivity|].
  now rewrite Ascii.eqb_refl, IH.
Qed.

Lemma startswith_true (p s : Py.str) :
  Py.startswith p s = true -> s = p ++ skipn (length p) s.
Proof.
  revert s. induction p as [|a p IH]; intros s; simpl; [reflexivity|].
  destruct s as [|b s]; [discriminate|].
  intros H. apply andb_true_iff in H. destruct H as [Hab Hps].
  apply Ascii.eqb_eq in Hab. subst b. f_equal. now apply IH.
Qed.

Lemma startswith_occurs (p s : Py.str) :
  Py.startswith p s = true -> occurs p s.
Proof. intros H. exists [], (skipn (length p) s). now apply startswith_true. Qed.

Lemma replace_first_absent (old new s : Py.str) :
  ~ occurs old s -> Py.replace_first old new s = s.
Proof.
  induction s as [|c s IH]; intros Habs.
  - simpl. destruct (Py.startswith old []) eqn:H; [|reflexivity].
    exfalso. apply Habs. now apply startswith_occurs.
  - simpl. destruct (Py.startswith old (c :: s)) eqn:H.
    + exfalso. apply Habs. now apply startswith_occurs.
    + f_equal. apply IH. intros (a & b & ->). apply Habs.
      now exists (c :: a), b.
Qed.

Lemma replace_first_leftmost (old new a b : Py.str) :
  (forall a' b', a ++ old ++ b = a' ++ old ++ b' -> length a <= length a') ->
  Py.replace_first old new (a ++ old ++ b) = a ++ new ++ b.
Proof.
  induction a as [|c a IH]; intros Hmin.
  - simpl. destruct (old ++ b) as [|c s] eqn:Hs.
    + apply app_eq_nil in Hs. destruct Hs as [-> ->]. simpl. now rewrite app_nil_r.
    + simpl. rewrite <- Hs. rewrite startswith_app.
      replace (skipn (length old) (old ++ b)) with b; [reflexivity|].
      now rewrite skipn_app, skipn_all, Nat.sub_diag.
  - simpl. destruct (Py.startswith old (c :: a ++ old ++ b)) eqn:H.
    + apply startswith_true in H.
      specialize (Hmin [] _ H). simpl in Hmin. lia.
    + f_equal. apply IH. intros a' b' E.
      specialize (Hmin (c :: a') b'). simpl in Hmin.
      rewrite E in Hmin. specialize (Hmin eq_refl). lia.
Qed.

(** Among the occurrences of a substring one is leftmost. *)
Lemma occurs_leftmost (old s : Py.str) :
  occurs old s ->
  exists a b, s = a ++ old ++ b
              /\ forall a' b', s = a' ++ old ++ b' -> length a <= length a'.
Proof.
  induction s as [|c s IH]; intros Hocc.
  - destruct Hocc as (a & b & E). exists a, b. split; [exact E|].
    intros a' b' E'. symmetry in E. apply app_eq_nil in E. destruct E as [-> _].
    simpl. lia.
  - destruct (Py.startswith old (c :: s)) eqn:H.
    + exists [], (skipn (length old) (c :: s)). split.
      * now apply startswith_true.
      * intros; simpl; lia.
    + assert (Hs : occurs old s).
      { destruct Hocc as ([|c' a] & b & E).
        - simpl in E. rewrite E, startswith_app in H. discriminate.
        - simpl in E. inversion E; subst. now exists a, b. }
      destruct (IH Hs) as (a & b & E & Hmin). subst s.
      exists (c :: a), b. split; [reflexivity|].
      intros [|c' a'] b' E'.
      * simpl in E'. rewrite E', startswith_app in H. discriminate.
      * simpl in E'. inversion E'; subst. simpl.
        apply le_n_S. eapply Hmin; eauto.
Qed.

Lemma replace_first_spec (old new s : Py.str) :
  first_replaced old new s (Py.replace_first old new s).
Proof.
  destruct (Py.startswith old s) eqn:H0.
  - right. destruct (occurs_leftmost (startswith_occurs _ _ H0)) as (a & b & E & Hmin).
    exists a, b. split; [exact E|]. split; [exact Hmin|].
    subst s. now apply replace_first_leftmost.
  - assert (Hdec : occurs old s \/ ~ occurs old s).
    { clear H0. induction s as [|c s IH].
      - destruct (Py.startswith old []) eqn:H.
        + left. now apply startswith_occurs.
        + right. intros (a & b & E). symmetry in E.
          apply app_eq_nil in E. destruct E as [-> E].
          apply app_eq_nil in E. destruct E as [-> ->]. discriminate.
      - destruct (Py.startswith old (c :: s)) eqn:H.
        + left. now apply startswith_occurs.
        + destruct IH as [(a & b & ->)|Hno].
          * left. now exists (c :: a), b.
          * right. intros ([|c' a] & b & E).
            -- simpl in E. rewrite E, startswith_app in H. discriminate.
            -- simpl in E. inversion E; subst. apply Hno. now exists a, b. }
    destruct Hdec as [Hocc|Hno].
    + right. destruct (occurs_leftmost Hocc) as (a & b & E & Hmin).
      exists a, b. split; [exact E|]. split; [exact Hmin|].
      subst s. now apply replace_first_leftmost.
    + left. split; [exact Hno|]. now apply replace_first_absent.
Qed.

(** *** Shape of a placeholder marker *)

Lemma uint_digits (d : Decimal.uint) :
  Forall (fun c => Py.isdigit c = true) (Py.lit (NilEmpty.string_of_uint d)).
Proof. induction d; simpl; constructor; auto. Qed.

Lemma of_nat_digits (i : nat) :
  Forall (fun c => Py.isdigit c = true) (Py.of_nat i).
Proof. apply uint_digits. Qed.

Lemma of_nat_nonempty (i : nat) : Py.of_nat i <> [].
Proof.
  unfold Py.of_nat. intros H.
  assert (E : NilEmpty.string_of_uint (Nat.to_uint i) = EmptyString).
  { rewrite <- (string_of_list_ascii_of_string (NilEmpty.string_of_uint _)).
    unfold Py.lit in H. now rewrite H. }
  assert (U : NilEmpty.uint_of_string (NilEmpty.string_of_uint (Nat.to_uint i))
              = Some (Nat.to_uint i)) by apply NilEmpty.usu.
  rewrite E in U. simpl in U. inversion U as [U'].
  apply (f_equal Nat.of_uint) in U'. rewrite Unsigned.of_to in U'.
  subst i. discriminate E.
Qed.

Lemma of_nat_inj (i j : nat) : Py.of_nat i = Py.of_nat j -> i = j.
Proof.
  unfold Py.of_nat, Py.lit. intros H.
  apply (f_equal string_of_list_ascii) in H.
  rewrite !string_of_list_ascii_of_string in H.
  apply (f_equal NilEmpty.uint_of_string) in H.
  rewrite !NilEmpty.usu in H. inversion H as [H'].
  apply (f_equal Nat.of_uint) in H'. now rewrite !Unsigned.of_to in H'.
Qed.

(** A run of digits is delimited by the first character that is no digit. *)
Lemma digits_delimited (d d' x y : Py.str) (c : ascii) :
  Forall (fun a => Py.isdigit a = true) d ->
  Forall (fun a => Py.isdigit a = true) d' ->
  Py.isdigit c = false ->
  d ++ c :: x = d' ++ c :: y -> d = d'.
Proof.
  intros Hd. revert d'. induction Hd as [|a d Ha Hd IH]; intros d' Hd' Hc E.
  - destruct Hd' as [|a' d' Ha' Hd']; [reflexivity|].
    simpl in E. inversion E; subst. congruence.
  - destruct Hd' as [|a' d' Ha' Hd'].
    + simpl in E. inversion E; subst. congruence.
    + simpl in E. inversion E; subst. f_equal. now apply IH.
Qed.

Lemma extra_id_head (i : nat) : extra_id i = "<"%char :: marker_body i.
Proof. reflexivity. Qed.

Lemma marker_body_no_bracket (i : nat) : ~ In "<"%char (marker_body i).
Proof.
  unfold marker_body. intros H.
  apply in_app_or in H. destruct H as [H|H].
  - simpl in H. repeat (destruct H as [H|H]; [discriminate H|]). exact H.
  - apply in_app_or in H. destruct H as [H|H].
    + pose proof (of_nat_digits i) as Hd. rewrite Forall_forall in Hd.
      specialize (Hd _ H). discriminate Hd.
    + simpl in H. destruct H as [H|[]]. discriminate H.
Qed.

Lemma extra_id_same_start (i j : nat) (b b' : Py.str) :
  extra_id i ++ b = extra_id j ++ b' -> i = j.
Proof.
  unfold extra_id. rewrite <- !app_assoc. intros E.
  apply app_inv_head in E. simpl in E.
  apply of_nat_inj.
  eapply digits_delimited; [apply of_nat_digits|apply of_nat_digits| |exact E].
  reflexivity.
Qed.

(** Two occurrences of markers in one text are the same occurrence or do
    not overlap. *)
Lemma markers_do_not_overlap (i j : nat) (a b a' b' : Py.str) :
  i <> j ->
  a ++ extra_id i ++ b = a' ++ extra_id j ++ b' ->
  (exists r, a = a' ++ extra_id j ++ r) \/ (exists r, b = r ++ extra_id j ++ b').
Proof.
  intros Hij E.
  apply app_eq_app in E. destruct E as [l [[Ha E]|[Ha E]]].
  - (* the occurrence of [j] starts first *)
    apply app_eq_app in E. destruct E as [l2 [[Ev E]|[El E]]].
    + (* extra_id j = l ++ l2, extra_id i ++ b = l2 ++ b' *)
      destruct l as [|c l].
      * simpl in Ev. subst l2. exfalso. apply Hij.
        now apply (extra_id_same_start E).
      * destruct l2 as [|c2 l2].
        -- left. exists []. rewrite app_nil_r in Ev. now rewrite Ev, app_nil_r.
        -- exfalso. rewrite (extra_id_head i) in E. simpl in E.
           inversion E; subst c2.
           rewrite (extra_id_head j) in Ev. simpl in Ev. inversion Ev as [[Hc Hb]].
           apply (@marker_body_no_bracket j). rewrite Hb.
           apply in_or_app. right. now left.
    + left. exists l2. now rewrite Ha, El.
  - (* the occurrence of [i] starts first *)
    apply app_eq_app in E. destruct E as [l2 [[Eu E]|[El E]]].
    + destruct l as [|c l].
      * simpl in Eu. subst l2. exfalso. apply Hij. symmetry.
        now apply (extra_id_same_start E).
      * destruct l2 as [|c2 l2].
        -- right. exists []. simpl in E. now rewrite <- E.
        -- exfalso. rewrite (extra_id_head j) in E. simpl in E.
           inversion E; subst c2.
           rewrite (extra_id_head i) in Eu. simpl in Eu. inversion Eu as [[Hc Hb]].
           apply (@marker_body_no_bracket i). rewrite Hb.
           apply in_or_app. right. now left.
    + right. exists l2. exact E.
Qed.

Lemma marker_survives_replacement (i j : nat) (fill s : Py.str) :
  i <> j ->
  occurs (extra_id j) s ->
  occurs (extra_id j) (Py.replace_first (extra_id i) fill s).
Proof.
  intros Hij Hocc.
  destruct (replace_first_spec (extra_id i) fill s) as [[_ ->]|(a & b & E & _ & ->)];
    [exact Hocc|].
  destruct Hocc as (a' & b' & E'). rewrite E in E'.
  destruct (markers_do_not_overlap _ _ _ _ Hij E') as [[r ->]|[r ->]].
  - exists a', (r ++ fill ++ b). now rewrite <- !app_assoc.
  - exists (a ++ fill ++ r), b'. now rewrite <- !app_assoc.
Qed.

(** *** The substitution loop *)

Lemma replace_masks_from_fill_loop (fills : list Py.str) (i : nat) (text : Py.str) :
  Part000.replace_masks_from i text fills = Part001.fill_loop i text fills.
Proof.
  revert i text. induction fills as [|fill rest IH]; intros i text; simpl;
    [reflexivity|apply IH].
Qed.

Lemma fill_loop_keeps_marker (fills : list Py.str) (i j : nat) (text : Py.str) :
  i + length fills <= j ->
  occurs (extra_id j) text ->
  occurs (extra_id j) (Part001.fill_loop i text fills).
Proof.
  revert i text. induction fills as [|fill rest IH]; intros i text Hj Hocc; simpl.
  - exact Hocc.
  - simpl in Hj. apply IH; [lia|].
    apply marker_survives_replacement; [lia|exact Hocc].
Qed.

Lemma nth_error_map2 {A B C} (f : A -> B -> C) (l : list A) (m : list B)
    (k : nat) (a : A) (b : B) :
  nth_error l k = Some a -> nth_error m k = Some b ->
  nth_error (map2 f l m) k = Some (f a b).
Proof.
  unfold map2. revert m k.
  induction l as [|a0 l IH]; intros [|b0 m] [|k] Ha Hb; simpl in *;
    try discriminate.
  - now inversion Ha; inversion Hb.
  - now apply IH.
Qed.

Lemma map2_ext {A B C} (f g : A -> B -> C) (l : list A) (m : list B) :
  (forall a b, f a b = g a b) -> map2 f l m = map2 g l m.
Proof.
  intros H. unfold map2. apply map_ext. intros [a b]. apply H.
Qed.

(** C8: for every (masked text, fill set) pair the applier returns the
    masked text unchanged when the fill set is empty; otherwise the fills are
    taken in order and fill i replaces the first occurrence of placeholder
    marker i in the working text; a fill whose marker is absent changes
    nothing, and a marker whose index is beyond the number of fills stays in
    the output. *)
Theorem applier_fills_placeholders_in_order :
  forall (masked_texts : list Py.str) (extracted_fills : list (list Py.str)),
    Part000.batch_apply_extracted_fills masked_texts extracted_fills
    = Part001.batch_apply_extracted_fills masked_texts extracted_fills
    /\ (forall k masked_text fills,
           nth_error masked_texts k = Some masked_text ->
           nth_error extracted_fills k = Some fills ->
           exists out,
             nth_error (Part001.batch_apply_extracted_fills
                          masked_texts extracted_fills) k = Some out
             /\ (fills = [] -> out = masked_text)
             /\ out = Part001.fill_loop 0 masked_text fills
             /\ (forall j, length fills <= j ->
                           occurs (extra_id j) masked_text ->
                           occurs (extra_id j) out))
    /\ (forall i text fill rest,
           exists text',
             first_replaced (extra_id i) fill text text'
             /\ Part001.fill_loop i text (fill :: rest)
                = Part001.fill_loop (S i) text' rest
             /\ (~ occurs (extra_id i) text -> text' = text)).
Proof.
  intros masked_texts extracted_fills. split; [|split].
  - unfold Part000.batch_apply_extracted_fills,
      Part001.batch_apply_extracted_fills.
    apply map2_ext. intros masked [|fill rest]; [reflexivity|].
    apply replace_masks_from_fill_loop.
  - intros k masked_text fills Hm Hf.
    exists (Part001.fill_loop 0 masked_text fills).
    split; [|split; [|split]].
    + unfold Part001.batch_apply_extracted_fills.
      rewrite (nth_error_map2 _ _ _ _ Hm Hf). now destruct fills.
    + now intros ->.
    + reflexivity.
    + intros j Hj Hocc. now apply fill_loop_keeps_marker.
  - intros i text fill rest.
    exists (Py.replace_first (extra_id i) fill text).
    split; [apply replace_first_spec|]. split; [reflexivity|].
    apply replace_first_absent.
Qed.

Lemma applier_fills_placeholders_in_order_witness :
  exists out,
    nth_error (Part001.batch_apply_extracted_fills
                 [Py.lit "<extra_id_1> x <extra_id_0> y <extra_id_2>"]
                 [[Py.lit "A"; Py.lit "B"]]) 0 = Some out
    /\ ([Py.lit "A"; Py.lit "B"] = [] ->
        out = Py.lit "<extra_id_1> x <extra_id_0> y <extra_id_2>")
    /\ out = Part001.fill_loop 0
               (Py.lit "<extra_id_1> x <extra_id_0> y <extra_id_2>")
               [Py.lit "A"; Py.lit "B"]
    /\ (forall j, 2 <= j ->
                  occurs (extra_id j)
                         (Py.lit "<extra_id_1> x <extra_id_0> y <extra_id_2>") ->
                  occurs (extra_id j) out).
Proof.
  apply (proj1 (proj2 (applier_fills_placeholders_in_order
                         [Py.lit "<extra_id_1> x <extra_id_0> y <extra_id_2>"]
                         [[Py.lit "A"; Py.lit "B"]])) 0
               (Py.lit "<extra_id_1> x <extra_id_0> y <extra_id_2>")
               [Py.lit "A"; Py.lit "B"] eq_refl eq_refl).
Defined.

(** The applier on a masked text with three placeholders and two fills. *)
Example applier_leaves_unfilled_marker :
  Part001.batch_apply_extracted_fills
    [Py.lit "<extra_id_1> x <extra_id_0> y <extra_id_2>"]
    [[Py.lit "A"; Py.lit "B"]]
  = [Py.lit "B x A y <extra_id_2>"].
Proof. reflexivity. Qed.

(** ** Span masker: positions that are not adjacent *)

Lemma length_set_item {A} (l : list A) (i : nat) (v : A) :
  length (Py.set_item l i v) = length l.
Proof.
  revert i. induction l as [|a l IH]; intros [|i]; simpl; auto.
Qed.

Lemma set_item_at {A} (pre post : list A) (a v : A) :
  Py.set_item (pre ++ a :: post) (length pre) v = pre ++ v :: post.
Proof. induction pre as [|x pre IH]; simpl; [reflexivity|now rewrite IH]. Qed.

Lemma del_item_at {A} (pre post : list A) (a : A) :
  Py.del_item (pre ++ a :: post) (length pre) = pre ++ post.
Proof. induction pre as [|x pre IH]; simpl; [reflexivity|now rewrite IH]. Qed.

Lemma mask_step_at (pre post : list Py.str) (a b : Py.str) (i : nat) :
  Part001.mask_step (pre ++ a :: b :: post) i (length pre)
  = inr (pre ++ extra_id i :: post).
Proof.
  unfold Part001.mask_step.
  assert (H1 : (length pre <? length (pre ++ a :: b :: post)) = true).
  { apply Nat.ltb_lt. rewrite length_app. simpl. lia. }
  rewrite H1, length_set_item.
  assert (H2 : (length pre + 1 <? length (pre ++ a :: b :: post)) = true).
  { apply Nat.ltb_lt. rewrite length_app. simpl. lia. }
  rewrite H2, set_item_at.
  replace (pre ++ extra_id i :: b :: post)
    with ((pre ++ [extra_id i]) ++ b :: post) by now rewrite <- app_assoc.
  replace (length pre + 1) with (length (pre ++ [extra_id i]))
    by (rewrite length_app; reflexivity).
  now rewrite del_item_at, <- app_assoc.
Qed.

(** A list with two elements from position [idx] on. *)
Lemma split_at_pair {A} (l : list A) (idx : nat) :
  idx + 1 < length l ->
  exists a b, l = firstn idx l ++ a :: b :: skipn (idx + 2) l.
Proof.
  revert idx. induction l as [|x l IH]; intros idx H; simpl in H; [lia|].
  destruct idx as [|idx].
  - destruct l as [|y l]; simpl in H; [lia|]. now exists x, y.
  - destruct (IH idx) as (a & b & E); [lia|].
    exists a, b. simpl. now rewrite <- E.
Qed.

Lemma mask_loop_spaced (mask_indices : list nat) (pre tail : list Py.str) (i : nat) :
  spaced_below (length pre) mask_indices ->
  Part001.mask_loop (pre ++ tail) i mask_indices
  = inr (masked_at pre i mask_indices ++ tail).
Proof.
  revert pre tail i.
  induction mask_indices as [|idx rest IH]; intros pre tail i Hsp; [reflexivity|].
  destruct Hsp as [Hidx Hrest].
  destruct (split_at_pair pre idx Hidx) as (a & b & E).
  assert (Hlen : length (firstn idx pre) = idx) by (rewrite length_firstn; lia).
  cbn [Part001.mask_loop masked_at].
  remember (firstn idx pre) as p1 eqn:Hp1.
  remember (skipn (idx + 2) pre) as p2 eqn:Hp2.
  clear Hp1 Hp2 Hidx. subst pre idx.
  rewrite <- app_assoc. cbn [app].
  rewrite mask_step_at. cbn [bind].
  rewrite IH by exact Hrest.
  now rewrite <- app_assoc.
Qed.

Lemma length_masked_at (mask_indices : list nat) (words : list Py.str) (i : nat) :
  spaced_below (length words) mask_indices ->
  length (masked_at words i mask_indices) + length mask_indices = length words.
Proof.
  revert words i.
  induction mask_indices as [|idx rest IH]; intros words i Hsp; simpl; [lia|].
  destruct Hsp as [Hidx Hrest].
  rewrite length_app. simpl. rewrite length_skipn.
  specialize (IH (firstn idx words) (S i)).
  rewrite length_firstn in IH. rewrite Nat.min_l in IH by lia.
  specialize (IH Hrest). lia.
Qed.

Lemma marker_free_words_part (words : list Py.str) (idx : nat) :
  marker_free_words words ->
  marker_free_words (firstn idx words) /\ marker_free_words (skipn idx words).
Proof.
  intros H. split; intros j Hin; apply (H j).
  - rewrite <- (firstn_skipn idx words). apply in_or_app. now left.
  - rewrite <- (firstn_skipn idx words). apply in_or_app. now right.
Qed.

Lemma extra_id_inj (i j : nat) : extra_id i = extra_id j -> i = j.
Proof.
  intros E. apply (@extra_id_same_start i j [] []). now rewrite !app_nil_r.
Qed.

Lemma count_occ_masked_at (mask_indices : list nat) (words : list Py.str)
    (i j : nat) :
  marker_free_words words ->
  count_occ (list_eq_dec ascii_dec) (masked_at words i mask_indices) (extra_id j)
  = if (i <=? j) && (j <? i + length mask_indices) then 1 else 0.
Proof.
  revert words i.
  induction mask_indices as [|idx rest IH]; intros words i Hfree.
  - simpl. rewrite Nat.add_0_r.
    assert (Hb : (i <=? j) && (j <? i) = false).
    { destruct (Nat.leb_spec i j), (Nat.ltb_spec j i); try reflexivity; lia. }
    rewrite Hb. apply count_occ_not_In. apply Hfree.
  - cbn [masked_at length].
    destruct (@marker_free_words_part words idx Hfree) as [Hpre _].
    destruct (@marker_free_words_part words (idx + 2) Hfree) as [_ Hpost].
    rewrite count_occ_app, (IH _ _ Hpre). cbn [count_occ]. unfold Py.str in *.
    assert (Hnone : forall l : list Py.str,
               marker_free_words l ->
               count_occ (list_eq_dec ascii_dec) l (extra_id j) = 0).
    { intros l Hl. apply count_occ_not_In. apply Hl. }
    pose proof (Hnone _ Hpost) as Hz. clear Hnone.
    destruct (list_eq_dec ascii_dec (extra_id i) (extra_id j)) as [E|E].
    + apply extra_id_inj in E. subst j. rewrite Hz.
      assert (H1 : (S i <=? i) = false) by (apply Nat.leb_gt; lia).
      assert (H2 : (i <=? i) && (i <? i + S (length rest)) = true).
      { apply andb_true_iff. split; [apply Nat.leb_le|apply Nat.ltb_lt]; lia. }
      rewrite H1, H2. reflexivity.
    + rewrite Hz. assert (Hij : i <> j) by congruence.
      destruct (Nat.leb_spec (S i) j), (Nat.leb_spec i j),
        (Nat.ltb_spec j (S i + length rest)),
        (Nat.ltb_spec j (i + S (length rest))); simpl; lia.
Qed.

Lemma mask_loop_same (mask_indices : list nat) (words : list Py.str) (i : nat) :
  Part000.mask_loop words i mask_indices = Part001.mask_loop words i mask_indices.
Proof.
  revert words i. induction mask_indices as [|idx rest IH]; intros words i;
    [reflexivity|].
  cbn [Part000.mask_loop Part001.mask_loop].
  change (Part000.mask_step words i idx) with (Part001.mask_step words i idx).
  destruct (Part001.mask_step words i idx); simpl; [reflexivity|apply IH].
Qed.

(** The masking invariant holds when no two mask positions are adjacent:
    for marker-free words and positions below the last word, highest first
    and pairwise at least two apart, the loop leaves one word per mask less,
    and placeholder [j] occurs exactly once for every [j] below the number
    of masks and not at all for any other [j]. *)
Theorem masking_invariant_when_spaced :
  forall (words : list Py.str) (mask_indices : list nat),
    marker_free_words words ->
    spaced_below (length words) mask_indices ->
    exists masked,
      Part000.mask_loop words 0 mask_indices = inr masked
      /\ Part001.mask_loop words 0 mask_indices = inr masked
      /\ length masked + length mask_indices = length words
      /\ forall j,
          count_occ (list_eq_dec ascii_dec) masked (extra_id j)
          = if j <? length mask_indices then 1 else 0.
Proof.
  intros words mask_indices Hfree Hsp.
  exists (masked_at words 0 mask_indices).
  assert (H1 : Part001.mask_loop words 0 mask_indices
               = inr (masked_at words 0 mask_indices)).
  { rewrite <- (app_nil_r words) at 1.
    rewrite (mask_loop_spaced mask_indices words [] 0 Hsp).
    now rewrite app_nil_r. }
  split; [now rewrite mask_loop_same|]. split; [exact H1|].
  split; [now apply length_masked_at|].
  intros j. now rewrite count_occ_masked_at.
Qed.

Lemma masking_invariant_when_spaced_witness :
  exists masked,
    Part000.mask_loop (Py.split (Py.lit "a b c d e")) 0 [3; 0] = inr masked
    /\ Part001.mask_loop (Py.split (Py.lit "a b c d e")) 0 [3; 0] = inr masked
    /\ length masked + 2 = 5
    /\ forall j,
        count_occ (list_eq_dec ascii_dec) masked (extra_id j)
        = if j <? 2 then 1 else 0.
Proof.
  refine (@masking_invariant_when_spaced
            (Py.split (Py.lit "a b c d e")) [3; 0] _ _).
  - intros j Hin. simpl in Hin.
    repeat (destruct Hin as [Hin|Hin]; [discriminate Hin|]). exact Hin.
  - simpl. lia.
Defined.

(** *** From a draw to spaced positions *)

Lemma in_insert_desc (x y : nat) (l : list nat) :
  In y (Py.insert_desc x l) -> y = x \/ In y l.
Proof.
  induction l as [|z l IH]; simpl.
  - intros [<-|[]]. now left.
  - destruct (z <=? x); simpl.
    + intros [<-|H]; [now left|now right].
    + intros [<-|H]; [right; now left|].
      destruct (IH H) as [->|H']; [now left|right; now right].
Qed.

Lemma in_sorted_reverse (y : nat) (l : list nat) :
  In y (Py.sorted_reverse l) -> In y l.
Proof.
  induction l as [|x l IH]; simpl; [tauto|].
  intros H. apply in_insert_desc in H. destruct H as [->|H]; [now left|].
  right. now apply IH.
Qed.

Lemma insert_desc_spaced (x n : nat) (l : list nat) :
  x + 1 < n ->
  (forall y, In y l -> x + 2 <= y \/ y + 2 <= x) ->
  spaced_below n l ->
  spaced_below n (Py.insert_desc x l).
Proof.
  revert n. induction l as [|y l IH]; intros n Hx Hfar Hsp.
  - simpl. auto.
  - destruct Hsp as [Hy Hl]. simpl.
    destruct (Nat.leb_spec y x) as [Hle|Hgt].
    + simpl. split; [exact Hx|]. split; [|exact Hl].
      destruct (Hfar y (or_introl eq_refl)); lia.
    + simpl. split; [exact Hy|].
      apply IH; [|intros z Hz; apply Hfar; now right|exact Hl].
      destruct (Hfar y (or_introl eq_refl)); lia.
Qed.

Lemma sorted_reverse_spaced (picked : list nat) (n : nat) :
  Forall (fun i => i + 1 < n) picked ->
  NoDup picked ->
  (forall a b, In a picked -> In b picked -> a <> b ->
               a + 2 <= b \/ b + 2 <= a) ->
  spaced_below n (Py.sorted_reverse picked).
Proof.
  induction picked as [|x picked IH]; intros Hlt Hnd Hfar; [exact I|].
  inversion Hlt; inversion Hnd; subst. simpl.
  apply insert_desc_spaced; [assumption| |].
  - intros y Hy. apply in_sorted_reverse in Hy.
    apply Hfar; [now left|now right|]. intros ->. contradiction.
  - apply IH; [assumption|assumption|].
    intros a b Ha Hb. apply Hfar; now right.
Qed.

(** ** Fill extractor *)

(** *** The pieces of the pattern *)

Lemma literal_app {R} (p r : Py.str) (k : Py.str -> option R) :
  Re.literal p k (p ++ r) = k r.
Proof.
  unfold Re.literal. rewrite startswith_app.
  now rewrite skipn_app, skipn_all, Nat.sub_diag.
Qed.

Lemma literal_inv {R} (p s : Py.str) (k : Py.str -> option R) (r : R) :
  Re.literal p k s = Some r -> exists t, s = p ++ t /\ k t = Some r.
Proof.
  unfold Re.literal. destruct (Py.startswith p s) eqn:H; [|discriminate].
  intros Hk. exists (skipn (length p) s). split; [|exact Hk].
  now apply startswith_true.
Qed.

Lemma greedy_star_inv {R} (c : ascii -> bool) (k : Py.str -> option R)
    (s : Py.str) (r : R) :
  Re.greedy_star c k s = Some r ->
  exists w t, s = w ++ t /\ Forall (fun a => c a = true) w /\ k t = Some r.
Proof.
  induction s as [|a s IH]; simpl.
  - intros H. now exists [], [].
  - destruct (c a) eqn:Ha.
    + destruct (Re.greedy_star c k s) as [r'|] eqn:Hs.
      * intros [= <-]. destruct (IH eq_refl) as (w & t & -> & Hw & Hk).
        exists (a :: w), t. repeat split; auto.
      * intros H. now exists [], (a :: s).
    + intros H. now exists [], (a :: s).
Qed.

(** The longest run is tried first. *)
Lemma greedy_star_longest {R} (c : ascii -> bool) (k : Py.str -> option R)
    (w t : Py.str) (r : R) :
  Forall (fun a => c a = true) w ->
  (forall a t', t = a :: t' -> c a = false) ->
  k t = Some r ->
  Re.greedy_star c k (w ++ t) = Some r.
Proof.
  intros Hw Ht Hk. induction Hw as [|a w Ha Hw IH]; simpl.
  - destruct t as [|a t']; [exact Hk|].
    simpl. now rewrite (Ht a t' eq_refl).
  - now rewrite Ha, IH.
Qed.

(** Nothing is found when the continuation fails after every run. *)
Lemma greedy_star_none {R} (c : ascii -> bool) (k : Py.str -> option R)
    (s : Py.str) :
  (forall w t, s = w ++ t -> Forall (fun a => c a = true) w -> k t = None) ->
  Re.greedy_star c k s = None.
Proof.
  induction s as [|a s IH]; intros H; simpl.
  - now apply (H [] []).
  - destruct (c a) eqn:Ha.
    + rewrite IH.
      * now apply (H [] (a :: s)).
      * intros w t -> Hw. apply (H (a :: w) t); auto.
    + now apply (H [] (a :: s)).
Qed.

(** The shortest run that lets the continuation succeed is captured. *)
Lemma lazy_star_capture {R} (c : ascii -> bool)
    (k : Py.str -> Py.str -> option R) (f y captured : Py.str) (r : R) :
  Forall (fun a => c a = true) f ->
  (forall a b, f = a ++ b -> b <> [] -> k (captured ++ a) (b ++ y) = None) ->
  k (captured ++ f) y = Some r ->
  Re.lazy_star c k captured (f ++ y) = Some r.
Proof.
  intros Hf. revert captured.
  induction Hf as [|x f Hx Hf IH]; intros captured Hshort Hk.
  - rewrite app_nil_r in Hk. simpl.
    destruct y; simpl; now rewrite Hk.
  - simpl.
    assert (H0 : k captured (x :: f ++ y) = None).
    { specialize (Hshort [] (x :: f) eq_refl). rewrite app_nil_r in Hshort.
      apply Hshort. discriminate. }
    rewrite H0, Hx. apply IH.
    + intros a b -> Hb. rewrite <- app_assoc. simpl.
      apply (Hshort (x :: a) b); auto.
    + now rewrite <- app_assoc.
Qed.

(** *** Characters of a marker *)

Lemma digit_is_not_space (c : ascii) : Py.isdigit c = true -> Py.isspace c = false.
Proof.
  destruct c as [b0 b1 b2 b3 b4 b5 b6 b7].
  destruct b0, b1, b2, b3, b4, b5, b6, b7; intros H;
    solve [reflexivity | discriminate H].
Qed.

Lemma digit_is_not_bracket (c : ascii) :
  Py.isdigit c = true -> c <> "<"%char /\ c <> ">"%char.
Proof. intros H. split; intros ->; discriminate H. Qed.

Lemma marker_of_head (d : Py.str) :
  marker_of d = "<"%char :: Py.lit "extra_id_" ++ d ++ Py.lit ">".
Proof. reflexivity. Qed.

Lemma marker_of_tail_chars (d : Py.str) (c : ascii) :
  Forall (fun a => Py.isdigit a = true) d ->
  In c (Py.lit "extra_id_" ++ d ++ Py.lit ">") ->
  c <> "<"%char /\ Py.isspace c = false.
Proof.
  intros Hd H. apply in_app_or in H. destruct H as [H|H].
  - simpl in H.
    repeat (destruct H as [<-|H]; [split; [discriminate|reflexivity]|]).
    destruct H.
  - apply in_app_or in H. destruct H as [H|H].
    + rewrite Forall_forall in Hd. specialize (Hd _ H). split.
      * now apply digit_is_not_bracket.
      * now apply digit_is_not_space.
    + simpl in H. destruct H as [<-|[]]. split; [discriminate|reflexivity].
Qed.

Lemma literal_bracket_at_digit {R} (x : ascii) (rest : Py.str)
    (k : Py.str -> option R) :
  Py.isdigit x = true -> Re.literal [">"%char] k (x :: rest) = None.
Proof.
  intros Hx. unfold Re.literal. cbn [Py.startswith].
  destruct (Ascii.eqb_spec ">"%char x) as [<-|_]; [discriminate Hx|reflexivity].
Qed.

Lemma greedy_digits {R} (d tail : Py.str) (k : Py.str -> option R) :
  Forall (fun c => Py.isdigit c = true) d ->
  Re.greedy_star Py.isdigit (Re.literal [">"%char] k) (d ++ ">"%char :: tail)
  = k tail.
Proof.
  induction 1 as [|x d Hx Hd IH].
  - cbn [app Re.greedy_star]. change (Py.isdigit ">"%char) with false.
    apply (literal_app [">"%char]).
  - cbn [app Re.greedy_star]. rewrite Hx, IH.
    destruct (k tail); [reflexivity|].
    now apply literal_bracket_at_digit.
Qed.

Lemma marker_app {R} (d tail : Py.str) (k : Py.str -> option R) :
  digits d -> Re.marker k (marker_of d ++ tail) = k tail.
Proof.
  intros [Hne Hd]. unfold Re.marker, marker_of.
  rewrite <- app_assoc, literal_app.
  destruct d as [|a d]; [congruence|]. inversion Hd as [|? ? Ha Hd']; subst.
  rewrite <- app_assoc. cbn [app Re.greedy_plus Py.lit list_ascii_of_string].
  rewrite Ha. now apply greedy_digits.
Qed.

Lemma marker_inv {R} (s : Py.str) (k : Py.str -> option R) (r : R) :
  Re.marker k s = Some r ->
  exists d tail, digits d /\ s = marker_of d ++ tail /\ k tail = Some r.
Proof.
  unfold Re.marker. intros H.
  apply literal_inv in H. destruct H as (s1 & -> & H).
  unfold Re.greedy_plus in H. destruct s1 as [|a s1]; [discriminate|].
  destruct (Py.isdigit a) eqn:Ha; [|discriminate].
  apply greedy_star_inv in H. destruct H as (w & t & -> & Hw & H).
  apply literal_inv in H. destruct H as (tail & -> & H).
  exists (a :: w), tail. split; [|split].
  - split; [discriminate|now constructor].
  - unfold marker_of. now rewrite <- !app_assoc.
  - exact H.
Qed.

(** *** One segment *)

Lemma lookahead_follows (y : Py.str) : follows y -> Re.lookahead y = true.
Proof.
  intros [->|(d & tail & Hd & ->)]; [reflexivity|].
  unfold Re.lookahead. now rewrite marker_app.
Qed.

Lemma follows_head (y : Py.str) (c : ascii) (t : Py.str) :
  follows y -> y = c :: t -> c = "<"%char.
Proof.
  intros [->|(d & tail & _ & ->)] E; [discriminate|].
  rewrite marker_of_head in E. simpl in E. now inversion E.
Qed.

Lemma marker_free_suffix (a b : Py.str) : marker_free (a ++ b) -> marker_free b.
Proof.
  intros H m Hm (x & y & ->). apply (H m Hm).
  exists (a ++ x), y. now rewrite <- app_assoc.
Qed.

(** No marker starts inside a marker-free text, whatever follows it. *)
Lemma no_marker_inside {R} (k : Py.str -> option R) (f trail y a b : Py.str) :
  marker_free f -> whitespace trail -> follows y ->
  f = a ++ b -> b <> [] ->
  Re.marker k (b ++ trail ++ y) = None.
Proof.
  intros Hfree Htrail Hy -> Hb.
  destruct (Re.marker k (b ++ trail ++ y)) as [r|] eqn:Hm; [|reflexivity].
  exfalso. apply marker_inv in Hm. destruct Hm as (d & tail & Hd & E & _).
  assert (Him : is_marker (marker_of d)) by (now exists d).
  apply app_eq_app in E. destruct E as [l [[Eb _]|[Em Et]]].
  - apply (Hfree _ Him). exists a, l. now rewrite Eb.
  - destruct l as [|c l].
    + rewrite app_nil_r in Em. apply (Hfree _ Him).
      exists a, []. now rewrite Em, app_nil_r.
    + destruct b as [|b0 b]; [congruence|].
      rewrite marker_of_head, <- app_comm_cons in Em.
      inversion Em as [[Hb0 Hbody]].
      assert (Hc : c <> "<"%char /\ Py.isspace c = false).
      { apply (@marker_of_tail_chars d c); [apply Hd|].
        assert (Hin : In c (b ++ c :: l)) by (apply in_or_app; right; now left).
        rewrite <- Hbody in Hin. exact Hin. }
      destruct Hc as [Hlt Hsp].
      destruct trail as [|t0 trail].
      * simpl in Et. apply Hlt. eapply follows_head; eauto.
      * simpl in Et. inversion Et; subst t0.
        inversion Htrail; subst. congruence.
Qed.

Lemma lookahead_inside (f trail y a b : Py.str) :
  marker_free f -> one_line f -> whitespace trail -> follows y ->
  f = a ++ b -> b <> [] ->
  Re.lookahead (b ++ trail ++ y) = false.
Proof.
  intros Hfree Hline Htrail Hy E Hb.
  unfold Re.lookahead.
  rewrite (@no_marker_inside unit (fun _ => Some tt) f trail y a b
             Hfree Htrail Hy E Hb).
  destruct b as [|b0 b]; [congruence|].
  assert (Hb0 : Re.dot b0 = true).
  { unfold one_line in Hline. rewrite Forall_forall in Hline.
    apply Hline. rewrite E. apply in_or_app. right. now left. }
  simpl. destruct (b ++ trail ++ y); [|reflexivity].
  unfold Re.dot in Hb0. now apply negb_true_iff in Hb0.
Qed.

Lemma trimmed_suffix_not_space (f a b : Py.str) :
  trimmed f -> f = a ++ b -> b <> [] -> ~ whitespace b.
Proof.
  intros [_ Hlast] -> Hb Hw.
  destruct (exists_last Hb) as (b' & c & ->).
  specialize (Hlast (a ++ b') c). rewrite <- app_assoc in Hlast.
  specialize (Hlast eq_refl).
  unfold whitespace in Hw. rewrite Forall_forall in Hw.
  specialize (Hw c). rewrite Hw in Hlast; [discriminate|].
  apply in_or_app. right. now left.
Qed.

(** The pattern, attempted where a segment starts, captures its fill and
    stops where the segment ends. *)
Lemma match_here_segment (sg : segment) (y : Py.str) :
  segment_ok sg -> one_line (seg_fill sg) -> follows y ->
  Re.match_here (render_segment sg ++ y) = Some (seg_fill sg, y).
Proof.
  intros (Hd & Hlead & Htrail & Htrim & Hfree) Hline Hy.
  unfold Re.match_here, render_segment.
  rewrite <- !app_assoc, (marker_app _ _ Hd).
  set (look := fun (group s' : Py.str) =>
                 if Re.lookahead s' then Some (group, s') else None).
  assert (Hlook : forall group, look group y = Some (group, y)).
  { intros group. unfold look. now rewrite lookahead_follows. }
  assert (Hyhead : forall c t, y = c :: t -> Py.isspace c = false).
  { intros c t E. now rewrite (follows_head Hy E). }
  destruct (seg_fill sg) as [|f0 f] eqn:Ef.
  - (* an empty fill: both runs of whitespace are consumed at once *)
    simpl. rewrite app_assoc.
    apply greedy_star_longest; [now apply Forall_app|exact Hyhead|].
    apply (@lazy_star_capture _ Re.dot _ [] y []); [constructor| |].
    + intros a b E Hb. symmetry in E. apply app_eq_nil in E. tauto.
    + simpl. destruct y as [|c t]; [apply Hlook|].
      simpl. rewrite (Hyhead c t eq_refl). apply Hlook.
  - apply greedy_star_longest; [exact Hlead| |].
    + intros c t E. simpl in E. inversion E; subst.
      destruct Htrim as [Hfirst _]. now apply (Hfirst c f).
    + apply (@lazy_star_capture _ Re.dot _ (f0 :: f) (seg_trail sg ++ y) []);
        [exact Hline| |].
      * intros a b E Hb. simpl.
        apply greedy_star_none. intros w t Ewt Hw.
        fold (look a t). unfold look.
        apply app_eq_app in Ewt. destruct Ewt as [l [[Eb Et]|[Ew _]]].
        -- assert (Hl : l <> []).
           { intros ->. rewrite app_nil_r in Eb. subst b.
             now apply (@trimmed_suffix_not_space _ _ _ Htrim E Hb). }
           rewrite Et.
           rewrite (@lookahead_inside (f0 :: f) (seg_trail sg) y (a ++ w) l);
             auto.
           now rewrite E, Eb, app_assoc.
        -- exfalso. apply (@trimmed_suffix_not_space _ _ _ Htrim E Hb).
           rewrite Ew in Hw. apply Forall_app in Hw. tauto.
      * simpl. apply greedy_star_longest; [exact Htrail|exact Hyhead|].
        apply Hlook.
Qed.

(** *** The scan *)

Lemma findall_skip (u y : Py.str) :
  Re.findall_from (length u) (u ++ y) = Re.findall_from 0 y.
Proof.
  induction u as [|c u IH]; simpl; [|exact IH].
  destruct y; reflexivity.
Qed.

Lemma findall_segment (sg : segment) (y : Py.str) :
  segment_ok sg -> one_line (seg_fill sg) -> follows y ->
  Re.findall_from 0 (render_segment sg ++ y)
  = seg_fill sg :: Re.findall_from 0 y.
Proof.
  intros Hok Hline Hy.
  pose proof (match_here_segment Hok Hline Hy) as Hm.
  destruct (render_segment sg) as [|c u] eqn:Er.
  - unfold render_segment in Er. rewrite marker_of_head in Er. discriminate Er.
  - change ((c :: u) ++ y) with (c :: (u ++ y)) in *.
    cbn [Re.findall_from]. rewrite Hm. f_equal.
    replace (length (c :: u ++ y) - length y - 1) with (length u).
    + apply findall_skip.
    + cbn [length]. rewrite length_app. lia.
Qed.

Lemma follows_render (segs : list segment) :
  Forall segment_ok segs -> follows (render segs).
Proof.
  intros Hok. destruct Hok as [|sg segs (Hd & _) _]; [now left|].
  right. exists (seg_digits sg).
  exists (seg_lead sg ++ seg_fill sg ++ seg_trail sg ++ render segs).
  split; [exact Hd|].
  unfold render. simpl. unfold render_segment. now rewrite <- !app_assoc.
Qed.

Lemma findall_render (segs : list segment) :
  Forall segment_ok segs ->
  Forall (fun sg => one_line (seg_fill sg)) segs ->
  Re.findall_from 0 (render segs) = map seg_fill segs.
Proof.
  induction segs as [|sg segs IH]; intros Hok Hline; [reflexivity|].
  inversion Hok; inversion Hline; subst.
  change (render (sg :: segs)) with (render_segment sg ++ render segs).
  rewrite findall_segment; auto using follows_render.
  simpl. f_equal. now apply IH.
Qed.

(** Text before the first marker yields nothing. *)
Lemma findall_before_first_marker (pre y : Py.str) :
  marker_free pre -> follows y ->
  Re.findall_from 0 (pre ++ y) = Re.findall_from 0 y.
Proof.
  induction pre as [|c pre IH]; intros Hfree Hy; [reflexivity|].
  change ((c :: pre) ++ y) with (c :: (pre ++ y)).
  cbn [Re.findall_from].
  assert (Hm : Re.match_here (c :: pre ++ y) = None).
  { unfold Re.match_here.
    apply (@no_marker_inside _ _ (c :: pre) [] y [] (c :: pre) Hfree);
      [constructor|exact Hy|reflexivity|discriminate]. }
  rewrite Hm. apply IH; [|exact Hy].
  now apply (@marker_free_suffix [c] pre).
Qed.

Lemma strip_trimmed (f : Py.str) : trimmed f -> Py.strip f = f.
Proof.
  intros [Hfirst Hlast]. unfold Py.strip, Py.rstrip.
  assert (Hl : Py.lstrip f = f).
  { destruct f as [|c r]; [reflexivity|]. simpl.
    now rewrite (Hfirst c r eq_refl). }
  rewrite Hl.
  assert (Hr : Py.lstrip (rev f) = rev f).
  { destruct (rev f) as [|c r] eqn:E; [reflexivity|]. simpl.
    rewrite (Hlast (rev r) c); [reflexivity|].
    rewrite <- (rev_involutive f), E. reflexivity. }
  rewrite Hr. apply rev_involutive.
Qed.

(** C7 (amended): when the cleaned output is markers each followed by text
    without a line feed inside the trimmed fill, the extractor returns one
    fill per marker, in order of appearance; each is the whitespace-trimmed
    text between its marker and the next marker (or the end), so none holds
    a marker; both notebooks return the same fills. *)
Theorem extractor_returns_fill_per_marker :
  forall (raw pre : Py.str) (segs : list segment),
    Part001.clean raw = pre ++ render segs ->
    marker_free pre ->
    Forall segment_ok segs ->
    Forall (fun sg => one_line (seg_fill sg)) segs ->
    Part001.batch_extract_fills [raw] = [map seg_fill segs]
    /\ Part000.batch_extract_fills [raw] = [map seg_fill segs]
    /\ length (map seg_fill segs) = length segs
    /\ Forall (fun fill => Py.strip fill = fill /\ marker_free fill)
              (map seg_fill segs).
Proof.
  intros raw pre segs Hclean Hpre Hok Hline.
  assert (Hfind : Re.findall (Part001.clean raw) = map seg_fill segs).
  { unfold Re.findall. rewrite Hclean.
    rewrite findall_before_first_marker; auto using follows_render.
    now apply findall_render. }
  assert (Hfills : Forall (fun fill => Py.strip fill = fill /\ marker_free fill)
                          (map seg_fill segs)).
  { apply Forall_map. eapply Forall_impl; [|exact Hok].
    intros sg (_ & _ & _ & Htrim & Hfree). split; [|exact Hfree].
    now apply strip_trimmed. }
  repeat split.
  - unfold Part001.batch_extract_fills. simpl. rewrite Hfind. f_equal.
    rewrite <- (map_id (map seg_fill segs)) at 2.
    apply map_ext_in. intros fill Hin.
    rewrite Forall_forall in Hfills. now apply Hfills.
  - unfold Part000.batch_extract_fills. simpl.
    change (Part000.clean raw) with (Part001.clean raw). now rewrite Hfind.
  - apply length_map.
  - exact Hfills.
Qed.

(** *** Concrete outputs *)

Lemma marker_free_without_bracket (f : Py.str) :
  ~ In "<"%char f -> marker_free f.
Proof.
  intros Hno m (d & _ & ->) (a & b & ->). apply Hno.
  apply in_or_app. right. rewrite marker_of_head. now left.
Qed.

Lemma trimmed_ends (c c' : ascii) (r : Py.str) :
  Py.isspace c = false -> Py.isspace c' = false -> trimmed (c :: r ++ [c']).
Proof.
  intros Hc Hc'. split.
  - intros x t E. now inversion E; subst.
  - intros t x E. rewrite app_comm_cons in E.
    apply app_inj_tail in E. destruct E as [_ <-]. exact Hc'.
Qed.

Lemma digits_of_nat (i : nat) : digits (Py.of_nat i).
Proof. split; [apply of_nat_nonempty|apply of_nat_digits]. Qed.

Lemma sample_segments_ok : Forall segment_ok sample_segments.
Proof.
  constructor; [|constructor; [|constructor]].
  - split; [apply digits_of_nat|].
    split; [repeat constructor|]. split; [repeat constructor|]. split.
    + apply (@trimmed_ends "f" "r" (Py.lit "oo ba")); reflexivity.
    + apply marker_free_without_bracket. simpl. intuition discriminate.
  - split; [apply digits_of_nat|].
    split; [repeat constructor|]. split; [constructor|]. split.
    + apply (@trimmed_ends "b" "z" (Py.lit "a")); reflexivity.
    + apply marker_free_without_bracket. simpl. intuition discriminate.
Qed.

Lemma extractor_returns_fill_per_marker_witness :
  Part001.batch_extract_fills [sample_output] = [[Py.lit "foo bar"; Py.lit "baz"]].
Proof.
  refine (proj1 (@extractor_returns_fill_per_marker
                   sample_output [] sample_segments eq_refl _
                   sample_segments_ok _)).
  - apply marker_free_without_bracket. intros [].
  - repeat constructor.
Defined.

(** C7 (as stated) fails when a fill spans a line feed: the output holds one
    marker followed by non-empty, marker-free text, and no fill is
    returned. *)
Lemma extractor_drops_fill_with_line_feed :
  Part001.clean two_line_output = render two_line_segments
  /\ Forall segment_ok two_line_segments
  /\ Forall (fun sg => seg_fill sg <> []) two_line_segments
  /\ length two_line_segments = 1
  /\ Part000.batch_extract_fills [two_line_output] = [[]]
  /\ Part001.batch_extract_fills [two_line_output] = [[]]
  /\ Part001.batch_extract_fills [two_line_output]
     <> [map seg_fill two_line_segments].
Proof.
  split; [reflexivity|]. split.
  { constructor; [|constructor].
    split; [apply digits_of_nat|].
    split; [repeat constructor|]. split; [constructor|]. split.
    - apply (@trimmed_ends "a" "b" [Py.newline]); reflexivity.
    - apply marker_free_without_bracket. simpl. intuition discriminate. }
  split; [repeat constructor; discriminate|].
  split; [reflexivity|].
  split; [reflexivity|]. split; [reflexivity|].
  vm_compute. discriminate.
Qed.

(** ** Log-probability scorer *)

(** *** Zeros in a sum *)

Lemma same_value_refl (x : spec_float) : same_value x x.
Proof. now left. Qed.


Lemma add_same_value (prec emax : Z) (x x' t : spec_float) :
  same_value x x' ->
  same_value (Fl.add prec emax x t) (Fl.add prec emax x' t).
Proof.
  intros [->|[[s ->] [s' ->]]]; [apply same_value_refl|].
  destruct t as [st|st| |st m e]; try (left; reflexivity).
  right. destruct s, s', st; split; eexists; reflexivity.
Qed.


Lemma div_same_value (prec emax : Z) (x x' c : spec_float) :
  same_value x x' ->
  same_value (Fl.div prec emax x c) (Fl.div prec emax x' c).
Proof.
  intros [->|[[s ->] [s' ->]]]; [apply same_value_refl|].
  destruct c as [sc|sc| |sc m e]; try (left; reflexivity);
    right; split; eexists; reflexivity.
Qed.





(** *** Rows of a batch *)

Lemma nth_error_drop_first {A} (t : list (list A)) (j : nat) (row : list A) :
  nth_error t j = Some row -> nth_error (drop_first t) j = Some (tl row).
Proof. intros H. unfold drop_first. now apply map_nth_error. Qed.

Lemma length_map2 {A B C} (f : A -> B -> C) (l : list A) (m : list B) :
  length (map2 f l m) = Nat.min (length l) (length m).
Proof. unfold map2. now rewrite length_map, length_combine. Qed.

Lemma length_drop_first {A} (t : list (list A)) :
  length (drop_first t) = length t.
Proof. apply length_map. Qed.

Lemma int_sum_from (row : list Z) (acc : Z) :
  Forall (fun m => m = 0%Z \/ m = 1%Z) row ->
  fold_left Z.add row acc
  = (acc + Z.of_nat (length (filter (fun b => b)
                                    (map (fun m => negb (m =? 0)%Z) row))))%Z.
Proof.
  intros H. revert acc. induction H as [|m row [->| ->] _ IH]; intros acc; simpl.
  - lia.
  - rewrite IH. lia.
  - rewrite IH. simpl length. lia.
Qed.

Lemma int_sum_valid_count (mask : list Z) :
  Forall (fun m => m = 0%Z \/ m = 1%Z) mask ->
  int_sum (tl mask) = Z.of_nat (valid_count mask).
Proof.
  intros H. unfold int_sum, valid_count, valid_flags.
  rewrite int_sum_from; [lia|].
  destruct mask; [constructor|]. now inversion H.
Qed.


Lemma mapM_pointwise {A B} (f : A -> result B) (g : A -> B) (l : list A) :
  (forall a, In a l -> f a = inr (g a)) -> mapM f l = inr (map g l).
Proof.
  induction l as [|a l IH]; intros H; simpl; [reflexivity|].
  rewrite (H a (or_introl eq_refl)). simpl.
  rewrite IH; [reflexivity|]. intros a' Ha'. apply H. now right.
Qed.

Section Rows.
Variables prec emax : Z.
Variable computation_tokenizer : list Py.str -> encoding.
Variable pad_token_id : Z.
Variable token_nll : encoding -> list (list spec_float).

Lemma loss_row (nll : list (list spec_float)) (ids_t : list (list Z))
    (j : nat) (ids : list Z) (nll_row : list spec_float) :
  nth_error ids_t j = Some ids ->
  nth_error nll j = Some nll_row ->
  nth_error (cross_entropy_loss pad_token_id nll (drop_first ids_t)) j
  = Some (row_losses pad_token_id nll_row ids).
Proof.
  intros Hi Hn. unfold cross_entropy_loss.
  apply (nth_error_map2 _ _ _ _ Hn (nth_error_drop_first _ _ Hi)).
Qed.

Lemma score_batch_row_000 (batch_texts : list Py.str) (j : nat)
    (ids mask : list Z) (nll_row : list spec_float) :
  let inputs := computation_tokenizer batch_texts in
  nth_error (input_ids inputs) j = Some ids ->
  nth_error (attention_mask inputs) j = Some mask ->
  nth_error (token_nll inputs) j = Some nll_row ->
  nth_error (Part000.score_batch prec emax computation_tokenizer pad_token_id
               token_nll batch_texts) j
  = Some (row_log_prob_000 prec emax pad_token_id ids mask nll_row).
Proof.
  intros inputs Hi Hm Hn. unfold Part000.score_batch. fold inputs.
  pose proof (nth_error_drop_first _ _ Hm) as Hsm.
  pose proof (loss_row _ _ _ Hi Hn) as Hl.
  assert (Hc : nth_error (map int_sum (drop_first (attention_mask inputs))) j
               = Some (int_sum (tl mask))) by now apply map_nth_error.
  assert (Hs : nth_error
                 (row_sums prec emax
                    (mul_mask prec emax
                       (cross_entropy_loss pad_token_id (token_nll inputs)
                          (drop_first (input_ids inputs)))
                       (drop_first (attention_mask inputs)))) j
               = Some (Fl.round prec emax
                         (accumulate prec emax
                            (masked_row_losses prec emax
                               (row_losses pad_token_id nll_row ids) mask)))).
  { unfold row_sums.
    apply (map_nth_error (fun row => Fl.round prec emax (accumulate prec emax row))).
    unfold mul_mask. apply (nth_error_map2 _ _ _ _ Hl Hsm). }
  rewrite (nth_error_map2 _ _ _ _
             (map_nth_error Fl.neg _ _ (nth_error_map2 _ _ _ _ Hs Hc)) Hc).
  unfold row_log_prob_000. reflexivity.
Qed.

Lemma sample_loss_at_row (loss_per_token : list (list spec_float))
    (shift_mask : list (list Z)) (j : nat) (ids mask : list Z)
    (nll_row : list spec_float) :
  nth_error shift_mask j = Some (tl mask) ->
  nth_error loss_per_token j = Some (row_losses pad_token_id nll_row ids) ->
  Part001.sample_loss_at prec emax loss_per_token shift_mask j
  = inr (row_log_prob_001 prec emax pad_token_id ids mask nll_row).
Proof.
  intros Hm Hl. unfold Part001.sample_loss_at, index, row_log_prob_001.
  rewrite Hm. simpl. fold (valid_flags mask). fold (valid_count mask).
  destruct (0 <? valid_count mask); [|reflexivity].
  now rewrite Hl.
Qed.

End Rows.

(** *** One value per row *)

Lemma nth_error_tl {A} (l : list A) (p : nat) :
  nth_error (tl l) p = nth_error l (S p).
Proof. destruct l; [now destruct p|reflexivity]. Qed.

Lemma nth_error_row {A} (t : list (list A)) (j : nat) :
  j < length t -> nth_error t j = Some (nth j t []).
Proof. intros H. now apply nth_error_nth'. Qed.

Lemma padding_term_is_zero (prec emax pad : Z) (ids mask : list Z)
    (nll_row : list spec_float) (p : nat) :
  length mask = length ids ->
  length nll_row = length (tl ids) ->
  (forall q, nth_error mask q = Some 0%Z -> nth_error ids q = Some pad) ->
  nth_error (valid_flags mask) p = Some false ->
  nth_error (masked_row_losses prec emax (row_losses pad nll_row ids) mask) p
  = Some Fl.zero.
Proof.
  intros Hlen Hnll Hpad Hflag.
  unfold valid_flags in Hflag.
  destruct (nth_error (tl mask) p) as [m|] eqn:Hm.
  2:{ rewrite nth_error_map, Hm in Hflag. discriminate. }
  rewrite nth_error_map, Hm in Hflag. simpl in Hflag.
  assert (m = 0%Z).
  { inversion Hflag as [H0]. apply negb_false_iff in H0. now apply Z.eqb_eq. }
  subst m.
  assert (Hid : nth_error (tl ids) p = Some pad).
  { rewrite nth_error_tl. apply Hpad. now rewrite <- nth_error_tl. }
  assert (Hp : p < length nll_row).
  { rewrite Hnll. apply nth_error_Some. congruence. }
  destruct (nth_error nll_row p) as [v|] eqn:Hv;
    [|apply nth_error_None in Hv; lia].
  unfold masked_row_losses, row_losses.
  rewrite (nth_error_map2 _ _ _ _ (nth_error_map2 _ _ _ _ Hv Hid) Hm).
  now rewrite Z.eqb_refl.
Qed.

Section Batch.
Variables prec emax : Z.
Variable computation_tokenizer : list Py.str -> encoding.
Variable pad_token_id : Z.
Variable token_nll : encoding -> list (list spec_float).
Variable batch_texts : list Py.str.

Let inputs := computation_tokenizer batch_texts.
Let nll := token_nll inputs.

Hypothesis Hmask_rows :
  length (attention_mask inputs) = length (input_ids inputs).
Hypothesis Hnll_rows : length nll = length (input_ids inputs).

Lemma score_batch_length_000 :
  length (Part000.score_batch prec emax computation_tokenizer pad_token_id
            token_nll batch_texts)
  = length (input_ids inputs).
Proof.
  unfold Part000.score_batch. fold inputs. fold nll.
  unfold row_sums, mul_mask, cross_entropy_loss.
  repeat rewrite ?length_map2, ?length_map, ?length_drop_first.
  rewrite Hmask_rows, Hnll_rows. lia.
Qed.

Lemma score_batch_rows_001 :
  Part001.score_batch prec emax computation_tokenizer pad_token_id
    token_nll batch_texts
  = inr (map (fun j => row_log_prob_001 prec emax pad_token_id
                         (nth j (input_ids inputs) [])
                         (nth j (attention_mask inputs) [])
                         (nth j nll []))
             (seq 0 (length (input_ids inputs)))).
Proof.
  unfold Part001.score_batch. fold inputs. fold nll.
  assert (Hl : length (cross_entropy_loss pad_token_id nll
                         (drop_first (input_ids inputs)))
               = length (input_ids inputs)).
  { unfold cross_entropy_loss. rewrite length_map2, length_drop_first. lia. }
  rewrite Hl. apply mapM_pointwise. intros j Hj. apply in_seq in Hj.
  apply sample_loss_at_row.
  - apply nth_error_drop_first. apply nth_error_row. lia.
  - apply loss_row; apply nth_error_row; lia.
Qed.

End Batch.


Lemma tiny_batch_well_formed :
  well_formed 0
    (tiny_tokenizer tiny_batch)
    (tiny_nll BF16.prec BF16.emax (tiny_tokenizer tiny_batch)).
Proof.
  constructor.
  - reflexivity.
  - reflexivity.
  - intros j ids mask nll_row Hi Hm Hn.
    destruct j as [|[|[|j]]]; simpl in Hi, Hm, Hn;
      try (destruct j; discriminate Hi);
      inversion Hi; inversion Hm; inversion Hn; subst; split; reflexivity.
  - vm_compute. repeat (apply Forall_cons || apply Forall_nil); auto.
  - intros j ids mask p Hi Hm Hp.
    destruct j as [|[|[|j]]]; simpl in Hi, Hm;
      try (destruct j; discriminate Hi);
      inversion Hi; inversion Hm; subst;
      destruct p as [|[|[|p]]]; simpl in Hp;
      try (destruct p; discriminate Hp);
      try discriminate Hp; reflexivity.
Qed.


(** The tiny capability on "abc", "de" and the empty text: -(98 + 99) / 2,
    -101 (the padded position left out), and negative infinity. *)
Example tiny_batch_scores :
  Part000.score_batch BF16.prec BF16.emax tiny_tokenizer 0
    (tiny_nll BF16.prec BF16.emax) tiny_batch
  = [Fl.neg (Fl.div BF16.prec BF16.emax (Fl.of_Z BF16.prec BF16.emax 197)
                    (Fl.of_Z BF16.prec BF16.emax 2));
     Fl.of_Z BF16.prec BF16.emax (-101);
     Fl.neg_inf]
  /\ Part001.score_batch BF16.prec BF16.emax tiny_tokenizer 0
       (tiny_nll BF16.prec BF16.emax) tiny_batch
     = inr [Fl.neg (Fl.div BF16.prec BF16.emax (Fl.of_Z BF16.prec BF16.emax 197)
                           (Fl.of_Z BF16.prec BF16.emax 2));
            Fl.of_Z BF16.prec BF16.emax (-101);
            Fl.neg_inf].
Proof. split; vm_compute; reflexivity. Qed.

(** The two notebooks round at different places.  On "abcd" the losses are
    98, 99 and 100, and their sum 297 is no bfloat16 number: the first
    notebook stores the sum as 296 and divides, which gives -98.5; the
    other divides 297 by 3 before it rounds, which gives -99.0. *)
Example notebooks_round_at_different_places :
  Part000.score_batch BF16.prec BF16.emax tiny_tokenizer 0
    (tiny_nll BF16.prec BF16.emax) [Py.lit "abcd"]
  = [Fl.neg (Fl.div BF16.prec BF16.emax (Fl.of_Z BF16.prec BF16.emax 197)
                    (Fl.of_Z BF16.prec BF16.emax 2))]
  /\ Part001.score_batch BF16.prec BF16.emax tiny_tokenizer 0
       (tiny_nll BF16.prec BF16.emax) [Py.lit "abcd"]
     = inr [Fl.of_Z BF16.prec BF16.emax (-99)].
Proof. split; vm_compute; reflexivity. Qed.
(** ** Sub-batches *)

Lemma concat_chunks_upto {A} (fuel n : nat) (l : list A) :
  0 < n -> length l <= fuel -> concat (Py.chunks_upto fuel n l) = l.
Proof.
  intros Hn. revert l. induction fuel as [|fuel IH]; intros l Hl.
  - destruct l; [reflexivity|simpl in Hl; lia].
  - destruct l as [|a l']; [reflexivity|].
    cbn [Py.chunks_upto concat]. rewrite IH.
    + apply firstn_skipn.
    + rewrite length_skipn. cbn [length] in *. lia.
Qed.

(** The sub-batches are consecutive slices of the input, in order. *)
Lemma concat_chunks {A} (n : nat) (l : list A) :
  0 < n -> concat (Py.chunks n l) = l.
Proof. intros Hn. now apply concat_chunks_upto. Qed.

Lemma length_concat_map {A B} (g : list A -> list B) (batches : list (list A)) :
  (forall batch, length (g batch) = length batch) ->
  length (concat (map g batches)) = length (concat batches).
Proof.
  intros Hg. induction batches as [|b batches IH]; [reflexivity|].
  simpl. now rewrite !length_app, Hg, IH.
Qed.

Lemma concat_map_pointwise {A B} (f : A -> B) (g : list A -> list B)
    (batches : list (list A)) :
  (forall batch, In batch batches -> g batch = map f batch) ->
  concat (map g batches) = map f (concat batches).
Proof.
  intros Hg. induction batches as [|b batches IH]; [reflexivity|].
  simpl. rewrite map_app, Hg, IH; auto.
  - intros batch Hin. apply Hg. now right.
  - now left.
Qed.

(** Result [i] comes from sub-batch [i / n], at position [i mod n]. *)
Lemma nth_error_concat_chunks {A B} (g : list A -> list B) (n : nat) :
  0 < n ->
  (forall batch, length (g batch) = length batch) ->
  forall (fuel : nat) (l : list A) (i : nat),
    length l <= fuel -> i < length l ->
    nth_error (concat (map g (Py.chunks_upto fuel n l))) i
    = nth_error (g (firstn n (skipn (n * (i / n)) l))) (i mod n).
Proof.
  intros Hn Hg. induction fuel as [|fuel IH]; intros l i Hl Hi.
  - lia.
  - destruct l as [|a l'] eqn:El; [simpl in Hi; lia|]. rewrite <- El in *.
    assert (Hc : Py.chunks_upto (S fuel) n l
                 = firstn n l :: Py.chunks_upto fuel n (skipn n l))
      by now rewrite El.
    rewrite Hc. cbn [map concat].
    destruct (Nat.lt_ge_cases i n) as [Hlt|Hge].
    + rewrite Nat.div_small, Nat.mod_small by exact Hlt.
      rewrite Nat.mul_0_r. cbn [skipn].
      apply nth_error_app1. rewrite Hg, length_firstn. lia.
    + assert (Hfull : length (g (firstn n l)) = n).
      { rewrite Hg, length_firstn. lia. }
      rewrite nth_error_app2 by lia. rewrite Hfull.
      rewrite IH.
      * replace i with ((i - n) + 1 * n) at 3 4 by lia.
        rewrite Nat.div_add, Nat.Div0.mod_add by lia.
        rewrite skipn_skipn, Nat.mul_add_distr_l, Nat.mul_1_r. reflexivity.
      * rewrite length_skipn. subst l. cbn [length] in *. lia.
      * rewrite length_skipn. lia.
Qed.

Section Batches.
Variables prec emax : Z.
Variable computation_tokenizer : list Py.str -> encoding.
Variable pad_token_id : Z.
Variable token_nll : encoding -> list (list spec_float).

Hypothesis Hrows : row_per_text computation_tokenizer token_nll.

Lemma score_batch_001 (batch_texts : list Py.str) :
  Part001.score_batch prec emax computation_tokenizer pad_token_id token_nll
    batch_texts
  = inr (scores_001 prec emax computation_tokenizer pad_token_id token_nll batch_texts).
Proof.
  destruct (Hrows batch_texts) as (Hi & Hm & Hn).
  apply score_batch_rows_001; congruence.
Qed.

Lemma length_scores_000 (batch_texts : list Py.str) :
  length (Part000.score_batch prec emax computation_tokenizer pad_token_id
            token_nll batch_texts)
  = length batch_texts.
Proof.
  destruct (Hrows batch_texts) as (Hi & Hm & Hn).
  rewrite score_batch_length_000; congruence.
Qed.

Lemma length_scores_001 (batch_texts : list Py.str) :
  length (scores_001 prec emax computation_tokenizer pad_token_id token_nll
            batch_texts) = length batch_texts.
Proof.
  destruct (Hrows batch_texts) as (Hi & _).
  unfold scores_001. now rewrite length_map, length_seq.
Qed.

Lemma score_batches_001 (batches : list (list Py.str)) :
  Part001.score_batches prec emax computation_tokenizer pad_token_id token_nll
    batches
  = inr (concat (map (scores_001 prec emax computation_tokenizer pad_token_id
                         token_nll) batches)).
Proof.
  induction batches as [|b batches IH]; [reflexivity|].
  cbn [Part001.score_batches]. rewrite score_batch_001, IH. reflexivity.
Qed.

End Batches.

Lemma tiny_row_per_text (prec emax : Z) :
  row_per_text tiny_tokenizer (tiny_nll prec emax).
Proof.
  intros batch_texts. unfold tiny_nll, tiny_tokenizer. simpl.
  now rewrite !length_map.
Qed.

(** C9: K >= 2 texts scored with a sub-batch size below K give K results in
    the order of the input: the sub-batches are the consecutive slices of
    the input, they are scored one after the other, their results are
    concatenated, so result i is the result of text i within its sub-batch,
    and a capability that scores each text on its own yields the list of
    the texts' scores. *)
Theorem scorer_preserves_batch_order :
  forall (prec emax : Z) (computation_tokenizer : list Py.str -> encoding)
         (pad_token_id : Z) (token_nll : encoding -> list (list spec_float))
         (texts : list Py.str) (batch_size K : nat),
    row_per_text computation_tokenizer token_nll ->
    length texts = K -> 2 <= K -> 0 < batch_size -> batch_size < K ->
    let score_000 :=
      Part000.score_batch prec emax computation_tokenizer pad_token_id token_nll in
    let score_001 :=
      Part001.score_batch prec emax computation_tokenizer pad_token_id token_nll in
    exists all_000 all_001,
      Part000.batch_average_log_prob prec emax computation_tokenizer
        pad_token_id token_nll texts batch_size = inr all_000
      /\ Part001.batch_average_log_prob prec emax computation_tokenizer
           pad_token_id token_nll texts batch_size = inr all_001
      /\ length all_000 = K
      /\ length all_001 = K
      /\ concat (Py.chunks batch_size texts) = texts
      /\ all_000 = concat (map score_000 (Py.chunks batch_size texts))
      /\ (forall i, i < K ->
            let batch_texts :=
              firstn batch_size (skipn (batch_size * (i / batch_size)) texts) in
            nth_error all_000 i
            = nth_error (score_000 batch_texts) (i mod batch_size)
            /\ exists sample_losses,
                score_001 batch_texts = inr sample_losses
                /\ nth_error all_001 i
                   = nth_error sample_losses (i mod batch_size))
      /\ (forall f,
            (forall batch_texts, In batch_texts (Py.chunks batch_size texts) ->
                                 score_000 batch_texts = map f batch_texts) ->
            all_000 = map f texts)
      /\ (forall f,
            (forall batch_texts, In batch_texts (Py.chunks batch_size texts) ->
                                 score_001 batch_texts = inr (map f batch_texts)) ->
            all_001 = map f texts).
Proof.
  intros prec emax tok pad token_nll texts batch_size K Hrows HK H2 Hbs HbK
         score_000 score_001.
  set (rows_001 := scores_001 prec emax tok pad token_nll).
  exists (concat (map score_000 (Py.chunks batch_size texts))).
  exists (concat (map rows_001 (Py.chunks batch_size texts))).
  pose proof (concat_chunks texts Hbs) as Hcat.
  assert (H0 : forall b, length (score_000 b) = length b)
    by (intros b; now apply length_scores_000).
  assert (H1 : forall b, length (rows_001 b) = length b)
    by (intros b; now apply length_scores_001).
  split; [|split; [|split; [|split; [|split; [|split; [|split; [|split]]]]]]].
  - unfold Part000.batch_average_log_prob. destruct batch_size; [lia|reflexivity].
  - unfold Part001.batch_average_log_prob. destruct batch_size; [lia|].
    now apply score_batches_001.
  - now rewrite length_concat_map, Hcat.
  - now rewrite length_concat_map, Hcat.
  - exact Hcat.
  - reflexivity.
  - intros i Hi batch_texts. split.
    + apply nth_error_concat_chunks; auto; lia.
    + exists (rows_001 batch_texts). split.
      * now apply score_batch_001.
      * apply nth_error_concat_chunks; auto; lia.
  - intros f Hf. rewrite <- Hcat at 2. now apply concat_map_pointwise.
  - intros f Hf. rewrite <- Hcat at 2. apply concat_map_pointwise.
    intros b Hb. specialize (Hf b Hb). unfold score_001 in Hf.
    rewrite (score_batch_001 prec emax pad Hrows) in Hf. now inversion Hf.
Qed.

Lemma scorer_preserves_batch_order_witness :
  exists all_000 all_001,
    Part000.batch_average_log_prob BF16.prec BF16.emax tiny_tokenizer 0
      (tiny_nll BF16.prec BF16.emax)
      [Py.lit "abc"; Py.lit "de"; []; Py.lit "fgh"] 2 = inr all_000
    /\ Part001.batch_average_log_prob BF16.prec BF16.emax tiny_tokenizer 0
         (tiny_nll BF16.prec BF16.emax)
         [Py.lit "abc"; Py.lit "de"; []; Py.lit "fgh"] 2 = inr all_001
    /\ length all_000 = 4
    /\ length all_001 = 4.
Proof.
  destruct (@scorer_preserves_batch_order BF16.prec BF16.emax tiny_tokenizer
              0%Z (tiny_nll BF16.prec BF16.emax)
              [Py.lit "abc"; Py.lit "de"; []; Py.lit "fgh"] 2 4
              (tiny_row_per_text BF16.prec BF16.emax) eq_refl
              (le_S _ _ (le_S _ _ (le_n 2))) (le_S _ _ (le_n 1))
              (le_S _ _ (le_n 3)))
    as (all_000 & all_001 & H0 & H1 & L0 & L1 & _).
  exists all_000, all_001. repeat split; assumption.
Defined.

(** Four texts in sub-batches of two: the results are, in order, the scores
    of "abc", "de", the empty text and "fgh". *)
Example tiny_batches_in_order :
  Part000.batch_average_log_prob BF16.prec BF16.emax tiny_tokenizer 0
    (tiny_nll BF16.prec BF16.emax)
    [Py.lit "abc"; Py.lit "de"; []; Py.lit "fgh"] 2
  = inr [Fl.neg (Fl.div BF16.prec BF16.emax (Fl.of_Z BF16.prec BF16.emax 197)
                        (Fl.of_Z BF16.prec BF16.emax 2));
         Fl.of_Z BF16.prec BF16.emax (-101);
         Fl.neg_inf;
         Fl.neg (Fl.div BF16.prec BF16.emax (Fl.of_Z BF16.prec BF16.emax 207)
                        (Fl.of_Z BF16.prec BF16.emax 2))].
Proof. vm_compute. reflexivity. Qed.

(** ** Sums of numpy *)

Lemma add_neg_zero_l (x : spec_float) : B64.add (S754_zero true) x = x.
Proof. destruct x as [[|]|s| |s m e]; reflexivity. Qed.

Lemma add_nan_r (x : spec_float) : B64.add x S754_nan = S754_nan.
Proof. now destruct x. Qed.

(** Below 8 elements numpy adds from left to right. *)
Lemma np_sum_short (a : list spec_float) :
  length a < 8 -> Np.sum a = left_to_right a.
Proof.
  intros Hlen. destruct a as [|x r]; [reflexivity|].
  unfold Np.sum. rewrite add_neg_zero_l.
  destruct (length (x :: r)) as [|fuel] eqn:E; [discriminate E|].
  cbn [Np.pairwise_sum]. rewrite E.
  destruct (Nat.ltb_spec (S fuel) 8) as [_|H]; [|lia].
  unfold B64.sum_from, Fl.sum_from. cbn [fold_left left_to_right].
  change (Fl.add B64.prec B64.emax (S754_zero true) x)
    with (B64.add (S754_zero true) x).
  now rewrite add_neg_zero_l.
Qed.

(** *** Every element enters the sum once *)

Lemma float_sum_snoc (l : list spec_float) (s x : spec_float) :
  float_sum l s -> float_sum (l ++ [x]) (B64.add s x).
Proof. intros H. apply float_sum_add; [exact H|constructor]. Qed.

Lemma float_sum_fold (rest l : list spec_float) (s : spec_float) :
  float_sum l s -> float_sum (l ++ rest) (fold_left B64.add rest s).
Proof.
  revert l s. induction rest as [|x rest IH]; intros l s H.
  - now rewrite app_nil_r.
  - cbn [fold_left].
    replace (l ++ x :: rest) with ((l ++ [x]) ++ rest)
      by (rewrite <- app_assoc; reflexivity).
    apply IH. now apply float_sum_snoc.
Qed.

Lemma lanes_step (lanes : list (list spec_float)) (r : list spec_float) :
  Forall2 float_sum lanes r ->
  forall block,
    Forall2 float_sum (snoc_lanes lanes block) (map2 B64.add r block).
Proof.
  unfold snoc_lanes, map2.
  induction 1 as [|lane s lanes r Hs _ IH]; intros block; [constructor|].
  destruct block as [|x block]; [constructor|].
  cbn [combine map]. constructor; [now apply float_sum_snoc|apply IH].
Qed.

Lemma concat_snoc_lanes (lanes : list (list spec_float)) :
  forall block,
    length block = length lanes ->
    Permutation (concat (snoc_lanes lanes block)) (concat lanes ++ block).
Proof.
  unfold snoc_lanes, map2.
  induction lanes as [|lane lanes IH]; intros [|x block] Hlen;
    try discriminate Hlen; [constructor|].
  cbn [combine map concat]. rewrite <- !app_assoc.
  apply Permutation_app_head. cbn [app].
  eapply Permutation_trans;
    [apply Permutation_cons; [reflexivity|apply IH; simpl in Hlen; lia]|].
  apply Permutation_middle.
Qed.

Lemma length_snoc_lanes (lanes : list (list spec_float))
    (block : list spec_float) :
  length block = length lanes ->
  length (snoc_lanes lanes block) = length lanes.
Proof.
  intros H. unfold snoc_lanes. rewrite length_map2. lia.
Qed.

Lemma unrolled_lanes (n : nat) :
  forall (a r : list spec_float) (lanes : list (list spec_float))
         (taken : list spec_float),
    length a <= n ->
    Forall2 float_sum lanes r ->
    length lanes = 8 ->
    Permutation (concat lanes) taken ->
    exists lanes' taken',
      Forall2 float_sum lanes' (fst (Np.unrolled r a))
      /\ length lanes' = 8
      /\ Permutation (concat lanes') taken'
      /\ taken' ++ snd (Np.unrolled r a) = taken ++ a.
Proof.
  induction n as [n IH] using lt_wf_ind.
  intros a r lanes taken Hn Hl H8 Hp.
  destruct a as [|a0 [|a1 [|a2 [|a3 [|a4 [|a5 [|a6 [|a7 rest]]]]]]]];
    try solve [exists lanes, taken; cbn [Np.unrolled fst snd];
               repeat split; auto].
  cbn [Np.unrolled].
  set (block := [a0; a1; a2; a3; a4; a5; a6; a7]).
  assert (Hb : length block = length lanes) by (rewrite H8; reflexivity).
  assert (Hlt : length rest < n) by (simpl in Hn; lia).
  assert (Hl' : Forall2 float_sum (snoc_lanes lanes block)
                  (map2 B64.add r block)) by now apply lanes_step.
  assert (H8' : length (snoc_lanes lanes block) = 8)
    by (rewrite length_snoc_lanes; auto).
  assert (Hp' : Permutation (concat (snoc_lanes lanes block))
                  (taken ++ block)).
  { eapply Permutation_trans; [now apply concat_snoc_lanes|].
    now apply Permutation_app_tail. }
  destruct (IH (length rest) Hlt rest (map2 B64.add r block)
              (snoc_lanes lanes block) (taken ++ block) (le_n _) Hl' H8' Hp')
    as (lanes' & taken' & H1 & H2 & H3 & H4).
  exists lanes', taken'. repeat split; auto.
  rewrite H4, <- app_assoc. reflexivity.
Qed.

Lemma tree8_lanes (lanes : list (list spec_float)) (r : list spec_float) :
  Forall2 float_sum lanes r ->
  length lanes = 8 ->
  float_sum (concat lanes) (Np.tree8 r).
Proof.
  intros H H8.
  destruct lanes as [|l0 [|l1 [|l2 [|l3 [|l4 [|l5 [|l6 [|l7 [|]]]]]]]]];
    try discriminate H8.
  inversion H as [|? r0 ? ? F0 H0]; subst.
  inversion H0 as [|? r1 ? ? F1 H1]; subst.
  inversion H1 as [|? r2 ? ? F2 H2]; subst.
  inversion H2 as [|? r3 ? ? F3 H3]; subst.
  inversion H3 as [|? r4 ? ? F4 H4]; subst.
  inversion H4 as [|? r5 ? ? F5 H5]; subst.
  inversion H5 as [|? r6 ? ? F6 H6]; subst.
  inversion H6 as [|? r7 ? ? F7 H7]; subst.
  inversion H7; subst.
  cbn [concat Np.tree8]. rewrite app_nil_r.
  replace (l0 ++ l1 ++ l2 ++ l3 ++ l4 ++ l5 ++ l6 ++ l7)
    with (((l0 ++ l1) ++ (l2 ++ l3)) ++ ((l4 ++ l5) ++ (l6 ++ l7)))
    by (rewrite <- !app_assoc; reflexivity).
  repeat apply float_sum_add; assumption.
Qed.

Lemma singleton_lanes (l : list spec_float) :
  Forall2 float_sum (map (fun x => [x]) l) l
  /\ concat (map (fun x => [x]) l) = l.
Proof.
  induction l as [|x l [IH1 IH2]]; [split; [constructor|reflexivity]|].
  split; [constructor; [constructor|exact IH1]|].
  cbn [map concat app]. now rewrite IH2.
Qed.

Lemma block_sum_float_sum (a : list spec_float) :
  8 <= length a -> float_sum a (Np.block_sum a).
Proof.
  intros Hlen. unfold Np.block_sum.
  destruct (singleton_lanes (firstn 8 a)) as [Hl Hc].
  destruct (@unrolled_lanes (length (skipn 8 a)) (skipn 8 a) (firstn 8 a)
              (map (fun x => [x]) (firstn 8 a)) (firstn 8 a))
    as (lanes' & taken' & H1 & H2 & H3 & H4).
  - lia.
  - exact Hl.
  - rewrite length_map, length_firstn. lia.
  - now rewrite Hc.
  - destruct (Np.unrolled (firstn 8 a) (skipn 8 a)) as [r rest].
    cbn [fst snd] in *. rewrite firstn_skipn in H4. rewrite <- H4.
    apply float_sum_fold.
    apply (float_sum_perm H3). now apply tree8_lanes.
Qed.

Lemma pairwise_float_sum (fuel : nat) :
  forall a : list spec_float,
    a <> [] -> float_sum a (Np.pairwise_sum fuel a).
Proof.
  induction fuel as [|fuel IH]; intros a Ha.
  - cbn [Np.pairwise_sum].
    destruct (Nat.ltb_spec (length a) 8) as [H|H].
    + destruct a as [|x r]; [congruence|].
      unfold B64.sum_from, Fl.sum_from. cbn [fold_left].
      change (Fl.add B64.prec B64.emax (S754_zero true) x)
        with (B64.add (S754_zero true) x).
      rewrite add_neg_zero_l. apply (@float_sum_fold r [x] x). constructor.
    + destruct (length a <=? 128); now apply block_sum_float_sum.
  - cbn [Np.pairwise_sum].
    destruct (Nat.ltb_spec (length a) 8) as [H|H].
    + destruct a as [|x r]; [congruence|].
      unfold B64.sum_from, Fl.sum_from. cbn [fold_left].
      change (Fl.add B64.prec B64.emax (S754_zero true) x)
        with (B64.add (S754_zero true) x).
      rewrite add_neg_zero_l. apply (@float_sum_fold r [x] x). constructor.
    + destruct (Nat.leb_spec (length a) 128) as [H'|H'];
        [now apply block_sum_float_sum|].
      set (n2 := length a / 2 - (length a / 2) mod 8).
      assert (Hn2 : 0 < n2 < length a).
      { unfold n2.
        pose proof (Nat.div_mod_eq (length a) 2) as E1.
        pose proof (Nat.mod_upper_bound (length a) 2) as E2.
        pose proof (Nat.mod_upper_bound (length a / 2) 8) as E3.
        lia. }
      rewrite <- (firstn_skipn n2 a) at 1.
      apply float_sum_add; apply IH.
      * intros E. apply (f_equal (@length _)) in E.
        rewrite length_firstn in E. simpl in E. lia.
      * intros E. apply (f_equal (@length _)) in E.
        rewrite length_skipn in E. simpl in E. lia.
Qed.

(** The sum of numpy is a sum of the elements, whatever their number. *)
Lemma np_sum_float_sum (a : list spec_float) :
  a <> [] -> float_sum a (Np.sum a).
Proof.
  intros Ha. destruct a as [|x r]; [congruence|].
  unfold Np.sum. rewrite add_neg_zero_l. now apply pairwise_float_sum.
Qed.

(** The fuel of [Np.sum] is enough: more of it changes nothing. *)
Lemma pairwise_sum_fuel (fuel : nat) :
  forall (fuel' : nat) (a : list spec_float),
    length a <= fuel -> length a <= fuel' ->
    Np.pairwise_sum fuel a = Np.pairwise_sum fuel' a.
Proof.
  induction fuel as [|fuel IH]; intros fuel' a H H'.
  - destruct a; [|simpl in H; lia]. now destruct fuel'.
  - destruct fuel' as [|fuel'].
    + destruct a; [reflexivity|simpl in H'; lia].
    + cbn [Np.pairwise_sum].
      destruct (length a <? 8); [reflexivity|].
      destruct (Nat.leb_spec (length a) 128) as [_|Hbig]; [reflexivity|].
      set (n2 := length a / 2 - (length a / 2) mod 8).
      assert (Hn2 : 0 < n2 < length a).
      { unfold n2.
        pose proof (Nat.div_mod_eq (length a) 2) as E1.
        pose proof (Nat.mod_upper_bound (length a) 2) as E2.
        pose proof (Nat.mod_upper_bound (length a / 2) 8) as E3.
        lia. }
      f_equal; apply IH; rewrite ?length_firstn, ?length_skipn; lia.
Qed.

(** *** NaN in a sum *)

Lemma float_sum_nan (l : list spec_float) (s : spec_float) :
  float_sum l s -> In S754_nan l -> s = S754_nan.
Proof.
  induction 1 as [x|l1 l2 s1 s2 _ IH1 _ IH2|l l' s Hp _ IH]; intros Hin.
  - destruct Hin as [->|[]]. reflexivity.
  - apply in_app_or in Hin. destruct Hin as [Hin|Hin].
    + now rewrite (IH1 Hin).
    + rewrite (IH2 Hin). apply add_nan_r.
  - apply IH. apply (Permutation_in _ (Permutation_sym Hp) Hin).
Qed.

Lemma np_sum_with_nan (l : list spec_float) :
  In S754_nan l -> Np.sum l = S754_nan.
Proof.
  intros Hin. apply (@float_sum_nan l); [|exact Hin].
  apply np_sum_float_sum. intros ->. destruct Hin.
Qed.

(** The order of the additions on 17 elements: the second block of eight
    is added to the running sums lane by lane, the running sums are added
    up as a tree, and the element left comes last. *)
Example numpy_sum_of_seventeen :
  forall a0 a1 a2 a3 a4 a5 a6 a7 b0 b1 b2 b3 b4 b5 b6 b7 c : spec_float,
    Np.sum [a0; a1; a2; a3; a4; a5; a6; a7; b0; b1; b2; b3; b4; b5; b6; b7; c]
    = B64.add
        (B64.add
           (B64.add (B64.add (B64.add a0 b0) (B64.add a1 b1))
                    (B64.add (B64.add a2 b2) (B64.add a3 b3)))
           (B64.add (B64.add (B64.add a4 b4) (B64.add a5 b5))
                    (B64.add (B64.add a6 b6) (B64.add a7 b7))))
        c.
Proof.
  intros. unfold Np.sum. rewrite add_neg_zero_l. reflexivity.
Qed.

(** ** Discrepancy aggregator *)

Lemma sigma_zero_not_positive (s : bool) : Fl.ltb Fl.zero (S754_zero s) = false.
Proof. reflexivity. Qed.

Lemma discrepancy_length base transformed normalization :
  length (Part000.compute_detectgpt_discrepancy base transformed normalization)
  = Nat.min (length base) (length transformed).
Proof.
  unfold Part000.compute_detectgpt_discrepancy.
  now rewrite length_map, length_combine.
Qed.

Lemma discrepancy_nth base transformed normalization i b t :
  nth_error base i = Some b ->
  nth_error transformed i = Some t ->
  nth_error (Part000.compute_detectgpt_discrepancy base transformed normalization) i
  = Some (Part000.discrepancy_score normalization b t).
Proof.
  unfold Part000.compute_detectgpt_discrepancy.
  revert transformed i.
  induction base as [|b0 base IH]; intros [|t0 transformed] [|i] Hb Ht;
    simpl in *; try discriminate.
  - now inversion Hb; inversion Ht.
  - now apply IH.
Qed.

Lemma std_ddof1_formula (t : list spec_float) :
  t <> [] ->
  Np.std_ddof1 t
  = B64.sqrt (B64.div (Np.sum (map (squared_deviation (Np.mean t)) t))
                      (B64.of_nat (length t - 1))).
Proof.
  intros Ht. unfold Np.std_ddof1. rewrite map_map.
  unfold B64.of_nat, Fl.of_nat.
  replace (Z.max (Z.of_nat (length t) - 1) 0) with (Z.of_nat (length t - 1)).
  - reflexivity.
  - destruct t as [|x r]; [congruence|]. simpl length. lia.
Qed.

(** C2: for N base values and N non-empty perturbed lists the aggregator
    returns N scores; score i is base[i] - mean(transformed[i]), the mean
    being a binary64 sum of all the perturbed values divided by their
    number; when normalisation is requested it is that difference divided
    by the sample standard deviation (the square root of the sum of the
    squared deviations from the mean over n - 1) when the deviation is
    strictly positive and exactly 0 when the deviation is 0.  Below 8
    values the sums run from left to right; 8 values are added as four
    pairs, then two pairs of pairs.  Base -2.0 with [-3.0, -3.0, -3.0]
    gives 1.0, [-5.0, -5.0, -5.0] normalised gives exactly 0, and base -2.0
    with [-2.0, -4.0, -6.0] (deviation 2.0) gives 2.0, normalised 1.0. *)
Theorem discrepancy_aggregator_scores :
  forall (N : nat) (base : list spec_float) (transformed : list (list spec_float)),
    length base = N ->
    length transformed = N ->
    Forall (fun perturbed_log_probs => perturbed_log_probs <> []) transformed ->
    (forall normalization,
        length (Part000.compute_detectgpt_discrepancy base transformed normalization) = N)
    /\ (forall i b t,
           nth_error base i = Some b -> nth_error transformed i = Some t ->
           let n := length t in
           exists total mu squares sigma,
             float_sum t total
             /\ mu = B64.div total (B64.of_nat n)
             /\ float_sum (map (squared_deviation mu) t) squares
             /\ sigma = B64.sqrt (B64.div squares (B64.of_nat (n - 1)))
             /\ (n < 8 ->
                 total = left_to_right t
                 /\ squares = left_to_right (map (squared_deviation mu) t))
             /\ nth_error (Part000.compute_detectgpt_discrepancy base transformed false) i
                = Some (B64.sub b mu)
             /\ (Fl.ltb Fl.zero sigma = true ->
                 nth_error (Part000.compute_detectgpt_discrepancy base transformed true) i
                 = Some (B64.div (B64.sub b mu) sigma))
             /\ (is_zero sigma ->
                 nth_error (Part000.compute_detectgpt_discrepancy base transformed true) i
                 = Some Fl.zero))
    /\ (forall b a0 a1 a2 a3 a4 a5 a6 a7,
           Part000.compute_detectgpt_discrepancy
             [b] [[a0; a1; a2; a3; a4; a5; a6; a7]] false
           = [B64.sub b
                (B64.div
                   (B64.add (B64.add (B64.add a0 a1) (B64.add a2 a3))
                            (B64.add (B64.add a4 a5) (B64.add a6 a7)))
                   (B64.of_Z 8))])
    /\ Part000.compute_detectgpt_discrepancy
         [B64.of_Z (-2)] [[B64.of_Z (-3); B64.of_Z (-3); B64.of_Z (-3)]] false
       = [B64.of_Z 1]
    /\ (forall b,
           Part000.compute_detectgpt_discrepancy
             [b] [[B64.of_Z (-5); B64.of_Z (-5); B64.of_Z (-5)]] true
           = [Fl.zero])
    /\ Part000.compute_detectgpt_discrepancy
         [B64.of_Z (-2)] [[B64.of_Z (-2); B64.of_Z (-4); B64.of_Z (-6)]] false
       = [B64.of_Z 2]
    /\ Part000.compute_detectgpt_discrepancy
         [B64.of_Z (-2)] [[B64.of_Z (-2); B64.of_Z (-4); B64.of_Z (-6)]] true
       = [B64.of_Z 1].
Proof.
  intros N base transformed Hb Ht Hne.
  split; [|split; [|split; [|split; [|split; [|split]]]]].
  - intros normalization. rewrite discrepancy_length, Hb, Ht. apply Nat.min_id.
  - intros i b t Hib Hit n.
    assert (Hnonempty : t <> []).
    { rewrite Forall_forall in Hne. apply Hne.
      eapply nth_error_In; eauto. }
    assert (Hsq : map (squared_deviation (Np.mean t)) t <> []).
    { destruct t; [congruence|discriminate]. }
    exists (Np.sum t), (Np.mean t),
      (Np.sum (map (squared_deviation (Np.mean t)) t)), (Np.std_ddof1 t).
    split; [now apply np_sum_float_sum|].
    split; [reflexivity|].
    split; [now apply np_sum_float_sum|].
    split; [now apply std_ddof1_formula|].
    split.
    { intros Hshort. split; apply np_sum_short; [exact Hshort|].
      now rewrite length_map. }
    split; [now rewrite (discrepancy_nth _ _ _ _ Hib Hit)|].
    split.
    + intros Hpos. rewrite (discrepancy_nth _ _ _ _ Hib Hit).
      unfold Part000.discrepancy_score. now rewrite Hpos.
    + intros [s Hs]. rewrite (discrepancy_nth _ _ _ _ Hib Hit).
      unfold Part000.discrepancy_score. now rewrite Hs, sigma_zero_not_positive.
  - intros b a0 a1 a2 a3 a4 a5 a6 a7.
    unfold Part000.compute_detectgpt_discrepancy, Part000.discrepancy_score,
      Np.mean, Np.sum.
    cbn [combine map length]. rewrite add_neg_zero_l. reflexivity.
  - vm_compute. reflexivity.
  - intros b. vm_compute. reflexivity.
  - vm_compute. reflexivity.
  - vm_compute. reflexivity.
Qed.

Lemma discrepancy_aggregator_scores_witness :
  length (Part000.compute_detectgpt_discrepancy
            [B64.of_Z (-2); B64.of_Z (-4)]
            [[B64.of_Z (-2); B64.of_Z (-4); B64.of_Z (-6)];
             [B64.of_Z (-5); B64.of_Z (-5)]]
            true) = 2%nat
  /\ nth_error (Part000.compute_detectgpt_discrepancy
                  [B64.of_Z (-2); B64.of_Z (-4)]
                  [[B64.of_Z (-2); B64.of_Z (-4); B64.of_Z (-6)];
                   [B64.of_Z (-5); B64.of_Z (-5)]]
                  true) 0
     = Some (B64.of_Z 1)
  /\ nth_error (Part000.compute_detectgpt_discrepancy
                  [B64.of_Z (-2); B64.of_Z (-4)]
                  [[B64.of_Z (-2); B64.of_Z (-4); B64.of_Z (-6)];
                   [B64.of_Z (-5); B64.of_Z (-5)]]
                  true) 1
     = Some Fl.zero.
Proof.
  destruct (@discrepancy_aggregator_scores 2
              [B64.of_Z (-2); B64.of_Z (-4)]
              [[B64.of_Z (-2); B64.of_Z (-4); B64.of_Z (-6)];
               [B64.of_Z (-5); B64.of_Z (-5)]]
              eq_refl eq_refl)
    as (Hlen & Hitems & _).
  - repeat constructor; discriminate.
  - split; [apply Hlen|]. split.
    + destruct (Hitems 0 _ _ eq_refl eq_refl)
        as (total & mu & squares & sigma & _ & Hmu & _ & Hsigma & Hshort
            & _ & Hpos & _).
      destruct Hshort as [Htotal Hsquares]; [simpl; lia|].
      rewrite Hpos; rewrite Hsigma, Hsquares, Hmu, Htotal;
        vm_compute; reflexivity.
    + destruct (Hitems 1 _ _ eq_refl eq_refl)
        as (total & mu & squares & sigma & _ & Hmu & _ & Hsigma & Hshort
            & _ & _ & Hzero).
      destruct Hshort as [Htotal Hsquares]; [simpl; lia|].
      apply Hzero. rewrite Hsigma, Hsquares, Hmu, Htotal.
      exists false. vm_compute. reflexivity.
Defined.


(** The first exception of a loop is the exception of one of its iterations. *)
Lemma mapM_raises {A B} (f : A -> result B) (l : list A) (e : exn) :
  mapM f l = inl e -> exists a, In a l /\ f a = inl e.
Proof.
  induction l as [|a l IH]; simpl; [discriminate|].
  destruct (f a) as [e'|b] eqn:Hfa; simpl.
  - intros [= ->]. exists a. auto.
  - destruct (mapM f l) as [e'|bs]; simpl; [|discriminate].
    intros [= ->]. destruct (IH eq_refl) as (a' & Hin & Ha').
    exists a'. auto.
Qed.

Lemma mapM_length {A B} (f : A -> result B) (l : list A) (bs : list B) :
  mapM f l = inr bs -> length bs = length l.
Proof.
  revert bs. induction l as [|a l IH]; simpl; intros bs.
  - now intros [= <-].
  - destruct (f a) as [e|b]; simpl; [discriminate|].
    destruct (mapM f l) as [e|bs']; simpl; [discriminate|].
    intros [= <-]. simpl. f_equal. now apply IH.
Qed.

Lemma index_in {A} (l : list A) (i : nat) (a : A) :
  index l i = inr a -> In a l.
Proof.
  unfold index. destruct (nth_error l i) eqn:H; [|discriminate].
  intros [= <-]. eapply nth_error_In; eauto.
Qed.

Lemma index_raises {A} (l : list A) (i : nat) (e : exn) :
  index l i = inl e -> e = IndexError.
Proof.
  unfold index, raise, ret. destruct (nth_error l i); intros H; now inversion H.
Qed.

Lemma py_truediv_raises x n e :
  Part001.py_truediv x n = inl e -> n = 0%nat /\ e = ZeroDivisionError.
Proof.
  unfold Part001.py_truediv, raise, ret.
  destruct n; intros H; [now inversion H|discriminate H].
Qed.

(** C10: the plain-Python aggregator divides by the length of each perturbed
    list without a guard: with every perturbed list non-empty the
    division-by-zero exception cannot occur, and on an input with an empty
    perturbed list the call raises it instead of returning. *)
Theorem unnormalized_discrepancy_division_by_zero :
  (forall base transformed,
      Forall (fun perturbed => perturbed <> []) transformed ->
      Part001.compute_detectgpt_discrepancy base transformed <> inl ZeroDivisionError)
  /\ Part001.compute_detectgpt_discrepancy [B64.of_Z (-2)] [[]]
     = inl ZeroDivisionError.
Proof.
  split; [|reflexivity].
  intros base transformed Hne Hraise.
  apply mapM_raises in Hraise. destruct Hraise as (i & _ & Hi).
  unfold Part001.discrepancy_at in Hi.
  destruct (index base i) as [e|b] eqn:Hb; simpl in Hi;
    [apply index_raises in Hb; congruence|].
  destruct (index transformed i) as [e|p] eqn:Hp; simpl in Hi;
    [apply index_raises in Hp; congruence|].
  destruct (Part001.py_truediv (Part001.py_sum p) (length p)) as [e|mu] eqn:Hdiv;
    simpl in Hi; [|discriminate].
  apply py_truediv_raises in Hdiv. destruct Hdiv as [Hlen _].
  apply index_in in Hp. rewrite Forall_forall in Hne.
  apply (Hne p Hp). now apply length_zero_iff_nil.
Qed.

Lemma unnormalized_discrepancy_division_by_zero_witness :
  Part001.compute_detectgpt_discrepancy
    [B64.of_Z (-2)] [[B64.of_Z (-3); B64.of_Z (-3); B64.of_Z (-3)]]
  <> inl ZeroDivisionError.
Proof.
  apply (proj1 unnormalized_discrepancy_division_by_zero).
  repeat constructor. discriminate.
Defined.
(** ** Words of a text *)

Lemma split_from_word (w s word : Py.str) :
  Forall (fun c => Py.isspace c = false) w ->
  Py.split_from word (w ++ s) = Py.split_from (word ++ w) s.
Proof.
  intros Hw. revert word. induction Hw as [|c w Hc Hw IH]; intros word.
  - now rewrite app_nil_r.
  - cbn [app Py.split_from]. rewrite Hc, IH. now rewrite <- app_assoc.
Qed.

Lemma split_from_words (s word : Py.str) :
  Forall (fun c => Py.isspace c = false) word ->
  Forall is_word (Py.split_from word s).
Proof.
  revert word. induction s as [|c s IH]; intros word Hword.
  - simpl. destruct word as [|a word]; [constructor|].
    constructor; [|constructor]. split; [discriminate|exact Hword].
  - cbn [Py.split_from]. destruct (Py.isspace c) eqn:Hc.
    + destruct word as [|a word]; [apply IH; constructor|].
      constructor; [split; [discriminate|exact Hword]|].
      apply IH. constructor.
    + apply IH. apply Forall_app. split; [exact Hword|].
      constructor; [exact Hc|constructor].
Qed.

Lemma split_words (s : Py.str) : Forall is_word (Py.split s).
Proof. apply split_from_words. constructor. Qed.

(** Splitting a single-space join of words gives the words back. *)
Lemma split_join (words : list Py.str) :
  Forall is_word words -> Py.split (Py.join (Py.lit " ") words) = words.
Proof.
  unfold Py.split. induction 1 as [|w rest [Hne Hw] Hrest IH]; [reflexivity|].
  destruct rest as [|w' rest'].
  - cbn [Py.join]. rewrite <- (app_nil_r w) at 1.
    rewrite split_from_word by exact Hw. cbn [app Py.split_from].
    destruct w; [congruence|reflexivity].
  - change (Py.join (Py.lit " ") (w :: w' :: rest'))
      with (w ++ " "%char :: Py.join (Py.lit " ") (w' :: rest')).
    rewrite split_from_word by exact Hw. cbn [app Py.split_from].
    change (Py.isspace " "%char) with true. cbv iota.
    rewrite IH. destruct w; [congruence|reflexivity].
Qed.

Lemma firstn_words (n : nat) (words : list Py.str) :
  Forall is_word words -> Forall is_word (firstn n words).
Proof.
  intros H. rewrite Forall_forall in *. intros w Hw. apply H.
  rewrite <- (firstn_skipn n words). apply in_or_app. now left.
Qed.

(** ** Span masker: every draw of an honest sampler *)

Lemma insert_desc_descending (x n : nat) (l : list nat) :
  x < n -> ~ In x l -> descending_below n l ->
  descending_below n (Py.insert_desc x l).
Proof.
  revert n. induction l as [|y l IH]; intros n Hx Hnot Hd.
  - simpl. auto.
  - destruct Hd as [Hy Hl]. simpl.
    assert (Hxy : x <> y) by (intros ->; apply Hnot; now left).
    destruct (Nat.leb_spec y x) as [Hle|Hgt]; simpl.
    + repeat split; try assumption. lia.
    + split; [exact Hy|]. apply IH; [lia| |exact Hl].
      intros Hin. apply Hnot. now right.
Qed.

Lemma sorted_reverse_descending (picked : list nat) (n : nat) :
  Forall (fun i => i < n) picked -> NoDup picked ->
  descending_below n (Py.sorted_reverse picked).
Proof.
  induction picked as [|x picked IH]; intros Hlt Hnd; [exact I|].
  inversion Hlt; inversion Hnd; subst. simpl.
  apply insert_desc_descending; [assumption| |now apply IH].
  intros Hin. apply in_sorted_reverse in Hin. contradiction.
Qed.

Lemma length_insert_desc (x : nat) (l : list nat) :
  length (Py.insert_desc x l) = S (length l).
Proof.
  induction l as [|y l IH]; [reflexivity|].
  simpl. destruct (y <=? x); simpl; [reflexivity|now rewrite IH].
Qed.

Lemma length_sorted_reverse (l : list nat) :
  length (Py.sorted_reverse l) = length l.
Proof.
  induction l as [|x l IH]; [reflexivity|].
  simpl. now rewrite length_insert_desc, IH.
Qed.

(** [np.sort] followed by [[::-1]] is [sorted(..., reverse=True)]. *)
Lemma insert_desc_snoc (x y : nat) (l : list nat) :
  y <= x -> Py.insert_desc x (l ++ [y]) = Py.insert_desc x l ++ [y].
Proof.
  intros Hyx. induction l as [|z l IH]; simpl.
  - destruct (Nat.leb_spec y x); [reflexivity|lia].
  - destruct (z <=? x); simpl; [reflexivity|now rewrite IH].
Qed.

Lemma insert_desc_above (x : nat) (l1 l2 : list nat) :
  (forall z, In z l1 -> x < z) ->
  Py.insert_desc x (l1 ++ l2) = l1 ++ Py.insert_desc x l2.
Proof.
  induction l1 as [|z l1 IH]; intros H; [reflexivity|].
  simpl. destruct (Nat.leb_spec z x) as [Hle|Hgt].
  - specialize (H z (or_introl eq_refl)). lia.
  - rewrite IH; [reflexivity|]. intros w Hw. apply H. now right.
Qed.

Lemma ascending_from_in (m : nat) (l : list nat) :
  ascending_from m l -> forall z, In z l -> m <= z.
Proof.
  revert m. induction l as [|x l IH]; intros m H z Hz; [destruct Hz|].
  destruct H as [Hx Hl]. destruct Hz as [<-|Hz]; [exact Hx|].
  specialize (IH (S x) Hl z Hz). lia.
Qed.

Lemma in_insert_asc (x y : nat) (l : list nat) :
  In y (Part000.insert_asc x l) -> y = x \/ In y l.
Proof.
  induction l as [|z l IH]; simpl.
  - intros [<-|[]]. now left.
  - destruct (x <=? z); simpl.
    + intros [<-|H]; [now left|now right].
    + intros [<-|H]; [right; now left|].
      destruct (IH H) as [->|H']; [now left|right; now right].
Qed.

Lemma in_np_sort (y : nat) (l : list nat) :
  In y (Part000.np_sort l) -> In y l.
Proof.
  induction l as [|x l IH]; simpl; [tauto|].
  intros H. apply in_insert_asc in H. destruct H as [->|H]; [now left|].
  right. now apply IH.
Qed.

Lemma insert_asc_ascending (x m : nat) (l : list nat) :
  m <= x -> ~ In x l -> ascending_from m l ->
  ascending_from m (Part000.insert_asc x l).
Proof.
  revert m. induction l as [|y l IH]; intros m Hm Hnot Hl.
  - simpl. auto.
  - destruct Hl as [Hy Hl]. simpl.
    assert (Hxy : x <> y) by (intros ->; apply Hnot; now left).
    destruct (Nat.leb_spec x y) as [Hle|Hgt]; simpl.
    + repeat split; try assumption. lia.
    + split; [exact Hy|]. apply IH; [lia| |exact Hl].
      intros Hin. apply Hnot. now right.
Qed.

Lemma np_sort_ascending (l : list nat) :
  NoDup l -> ascending_from 0 (Part000.np_sort l).
Proof.
  induction l as [|x l IH]; intros Hnd; [exact I|].
  inversion Hnd; subst. simpl.
  apply insert_asc_ascending; [lia| |now apply IH].
  intros Hin. apply in_np_sort in Hin. contradiction.
Qed.

Lemma rev_insert_asc (x m : nat) (l : list nat) :
  ~ In x l -> ascending_from m l ->
  rev (Part000.insert_asc x l) = Py.insert_desc x (rev l).
Proof.
  revert m. induction l as [|y l IH]; intros m Hnot Hl; [reflexivity|].
  destruct Hl as [Hy Hl].
  assert (Hxy : x <> y) by (intros ->; apply Hnot; now left).
  assert (Hnot' : ~ In x l) by (intros Hin; apply Hnot; now right).
  simpl. destruct (Nat.leb_spec x y) as [Hle|Hgt].
  - simpl.
    rewrite <- (app_nil_r (rev l ++ [y])) at 2.
    rewrite insert_desc_above; [reflexivity|].
    intros z Hz. apply in_app_or in Hz. destruct Hz as [Hz|[<-|[]]]; [|lia].
    apply in_rev in Hz. pose proof (@ascending_from_in _ _ Hl _ Hz). lia.
  - simpl. rewrite (IH (S y) Hnot' Hl). now rewrite insert_desc_snoc by lia.
Qed.

Lemma rev_np_sort (l : list nat) :
  NoDup l -> rev (Part000.np_sort l) = Py.sorted_reverse l.
Proof.
  induction l as [|x l IH]; intros Hnd; [reflexivity|].
  inversion Hnd; subst. simpl.
  rewrite (@rev_insert_asc x 0 (Part000.np_sort l)).
  - now rewrite IH.
  - intros Hin. apply in_np_sort in Hin. contradiction.
  - now apply np_sort_ascending.
Qed.

Lemma length_del_item {A} (l : list A) (i : nat) :
  i < length l -> S (length (Py.del_item l i)) = length l.
Proof.
  revert i. induction l as [|a l IH]; intros [|i] H; simpl in *; try lia.
  rewrite IH; lia.
Qed.

(** The loop never indexes out of range when the positions come highest
    first, each one once, below the number of words; every mask removes at
    most one word. *)
Lemma mask_loop_descending (mask_indices : list nat) (words : list Py.str)
    (i n : nat) :
  descending_below n mask_indices -> n <= length words ->
  exists masked,
    Part001.mask_loop words i mask_indices = inr masked
    /\ length masked <= length words
    /\ length words <= length masked + length mask_indices.
Proof.
  revert words i n.
  induction mask_indices as [|idx rest IH]; intros words i n Hd Hn.
  - exists words. simpl. repeat split; lia.
  - destruct Hd as [Hidx Hrest].
    cbn [Part001.mask_loop]. unfold Part001.mask_step.
    assert (H1 : (idx <? length words) = true) by (apply Nat.ltb_lt; lia).
    rewrite H1, length_set_item.
    destruct (Nat.ltb_spec (idx + 1) (length words)) as [H2|H2]; cbn [bind ret].
    + pose proof (@length_del_item _ (Py.set_item words idx (extra_id i))
                    (idx + 1)) as Hdel.
      rewrite length_set_item in Hdel. specialize (Hdel H2).
      destruct (IH (Py.del_item (Py.set_item words idx (extra_id i)) (idx + 1))
                  (S i) idx Hrest) as (masked & E & Hle & Hge); [lia|].
      exists masked. rewrite E. cbn [length]. repeat split; lia.
    + destruct (IH (Py.set_item words idx (extra_id i)) (S i) idx Hrest)
        as (masked & E & Hle & Hge); [rewrite length_set_item; lia|].
      rewrite length_set_item in Hle, Hge.
      exists masked. rewrite E. cbn [length]. repeat split; lia.
Qed.

(** A ratio between 0 and 1/2 never asks for more masks than there are
    positions. *)
Lemma num_masks_bounds (words : list Py.str) (mask_ratio : Q) :
  (0 <= mask_ratio)%Q -> (mask_ratio <= 1 # 2)%Q ->
  (0 <= num_masks words mask_ratio <= mask_positions words)%Z.
Proof.
  intros H0 H1. unfold num_masks, mask_positions, Py.int.
  set (L := Z.of_nat (length words)).
  assert (HL : (0 <= L)%Z) by (unfold L; lia).
  destruct mask_ratio as [n d]. unfold Qle in H0, H1. simpl in H0, H1.
  assert (Hq : Qle_bool 0 (inject_Z L * (n # d)) = true).
  { apply Qle_bool_iff. unfold Qle. simpl. nia. }
  rewrite Hq. unfold Qfloor. simpl.
  assert (Hk : (0 <= L * n / Z.pos d)%Z) by (apply Z.div_pos; nia).
  split; [exact Hk|].
  assert (Hm : (Z.pos d * (L * n / Z.pos d) <= L * n)%Z)
    by (apply Z.mul_div_le; lia).
  nia.
Qed.

Lemma mask_words_same {G} (choose : G -> nat -> nat -> list nat * G)
    (g : G) (text : Py.str) (mask_ratio : Q) (max_words : nat) :
  sampler_ok choose ->
  (0 <= num_masks (truncate max_words (Py.split text)) mask_ratio)%Z ->
  masked_words (Part000.mask_words choose g text mask_ratio max_words)
  = masked_words (Part001.mask_words choose g text mask_ratio max_words).
Proof.
  intros Hok Hk.
  unfold Part000.mask_words, Part001.mask_words,
    Part000.np_random_choice, Part001.random_sample.
  set (words := truncate max_words (Py.split text)) in *.
  set (k := num_masks words mask_ratio) in *.
  set (a := (Z.of_nat (length words) - 1)%Z).
  assert (Hk0 : (k <? 0)%Z = false) by (apply Z.ltb_ge; exact Hk).
  rewrite Hk0. cbn [orb].
  destruct (Z.ltb_spec 0 k) as [Hpos|Hzero].
  - destruct (Z.leb_spec a 0) as [Ha|Ha]; cbn [orb].
    + assert (Hn : (Z.max a 0 <? k)%Z = true) by (apply Z.ltb_lt; lia).
      rewrite Hn. reflexivity.
    + replace (Z.max a 0) with a by lia.
      destruct (Z.ltb_spec a k) as [Hak|Hak]; [reflexivity|].
      cbn [bind ret].
      pose proof (Hok g (Z.to_nat a) (Z.to_nat k)) as Hdraw.
      destruct (choose g (Z.to_nat a) (Z.to_nat k)) as [picked g'].
      cbn [fst] in Hdraw.
      destruct Hdraw as (_ & Hnd & _); [lia|].
      rewrite (rev_np_sort Hnd), mask_loop_same.
      destruct (Part001.mask_loop words 0 (Py.sorted_reverse picked));
        reflexivity.
  - assert (Hk' : k = 0%Z) by lia. rewrite Hk'.
    assert (Hn : (Z.max a 0 <? 0)%Z = false) by (apply Z.ltb_ge; lia).
    rewrite Hn. cbn [bind ret].
    pose proof (Hok g (Z.to_nat (Z.max a 0)) (Z.to_nat 0)) as Hdraw.
    destruct (choose g (Z.to_nat (Z.max a 0)) (Z.to_nat 0)) as [picked g'].
    cbn [fst] in Hdraw.
    destruct Hdraw as (Hlen & _ & _); [simpl; lia|].
    simpl in Hlen. apply length_zero_iff_nil in Hlen. subst picked.
    reflexivity.
Qed.

(** *** The words of a masked text *)

Lemma in_set_item {A} (l : list A) (i : nat) (v w : A) :
  In w (Py.set_item l i v) -> w = v \/ In w l.
Proof.
  revert i. induction l as [|a l IH]; intros [|i] H; simpl in *; auto.
  - destruct H as [<-|H]; auto.
  - destruct H as [<-|H]; auto. destruct (IH i H); auto.
Qed.

Lemma in_del_item {A} (l : list A) (i : nat) (w : A) :
  In w (Py.del_item l i) -> In w l.
Proof.
  revert i. induction l as [|a l IH]; intros [|i] H; simpl in *; auto.
  destruct H as [<-|H]; auto. right. now apply (IH i).
Qed.

(** Every word the loop leaves is a word it was given or a placeholder. *)
Lemma mask_loop_words (mask_indices : list nat) :
  forall (words masked : list Py.str) (i : nat),
    Part001.mask_loop words i mask_indices = inr masked ->
    Forall (fun w => In w words \/ exists j, w = extra_id j) masked.
Proof.
  induction mask_indices as [|idx rest IH]; intros words masked i H.
  - injection H as <-. apply Forall_forall. auto.
  - cbn [Part001.mask_loop] in H.
    destruct (Part001.mask_step words i idx) as [e|words1] eqn:Hstep;
      [discriminate H|].
    cbn [bind] in H. pose proof (IH _ _ _ H) as Hrest.
    assert (Hstep_words : forall w, In w words1 ->
                                    In w words \/ exists j, w = extra_id j).
    { intros w Hw. unfold Part001.mask_step in Hstep.
      destruct (idx <? length words); [|discriminate Hstep].
      destruct (idx + 1 <? length (Py.set_item words idx (extra_id i)));
        injection Hstep as <-.
      - apply in_del_item, in_set_item in Hw.
        destruct Hw as [->|Hw]; eauto.
      - apply in_set_item in Hw. destruct Hw as [->|Hw]; eauto. }
    rewrite Forall_forall in *. intros w Hw.
    destruct (Hrest w Hw) as [Hin|Hj]; auto.
Qed.

Lemma extra_id_is_word (j : nat) : is_word (extra_id j).
Proof.
  split; [discriminate|].
  unfold extra_id. apply Forall_app. split.
  - repeat constructor.
  - apply Forall_app. split; [|repeat constructor].
    pose proof (of_nat_digits j) as Hd. rewrite Forall_forall in *.
    intros c Hc. apply digit_is_not_space. now apply Hd.
Qed.

Lemma truncate_words (max_words : nat) (words : list Py.str) :
  Forall is_word words -> Forall is_word (truncate max_words words).
Proof.
  intros H. unfold truncate.
  destruct (max_words <? length words); [now apply firstn_words|exact H].
Qed.

(** What the loop leaves, joined by single spaces, is a masked version of
    the text. *)
Lemma masked_from_join (max_words : nat) (text : Py.str)
    (masked : list Py.str) :
  length masked <= length (truncate max_words (Py.split text)) ->
  Forall (fun w => In w (truncate max_words (Py.split text))
                   \/ exists j, w = extra_id j) masked ->
  masked_from max_words text (Py.join (Py.lit " ") masked).
Proof.
  intros Hle Hwords. unfold masked_from.
  assert (Hw : Forall is_word masked).
  { pose proof (truncate_words max_words (split_words text)) as Ht.
    rewrite Forall_forall in *. intros w Hin.
    destruct (Hwords w Hin) as [H|[j ->]];
      [now apply Ht|apply extra_id_is_word]. }
  rewrite (split_join Hw). auto.
Qed.

Lemma mask_words_total_001 {G} (choose : G -> nat -> nat -> list nat * G)
    (g : G) (text : Py.str) (mask_ratio : Q) (max_words : nat) :
  sampler_ok choose ->
  (0 <= mask_ratio)%Q -> (mask_ratio <= 1 # 2)%Q ->
  exists masked g',
    Part001.mask_words choose g text mask_ratio max_words = inr (masked, g')
    /\ masked_from max_words text (Py.join (Py.lit " ") masked).
Proof.
  intros Hok H0 H1.
  unfold Part001.mask_words, Part001.random_sample.
  set (words := truncate max_words (Py.split text)).
  pose proof (num_masks_bounds words H0 H1) as Hk.
  unfold mask_positions in Hk.
  set (k := num_masks words mask_ratio) in *.
  set (n := Z.max (Z.of_nat (length words) - 1) 0) in *.
  assert (Hchk : ((k <? 0) || (n <? k))%Z = false).
  { apply orb_false_iff. split; apply Z.ltb_ge; lia. }
  rewrite Hchk. cbn [bind ret].
  pose proof (Hok g (Z.to_nat n) (Z.to_nat k)) as Hdraw.
  destruct (choose g (Z.to_nat n) (Z.to_nat k)) as [picked g'].
  cbn [fst] in Hdraw.
  destruct Hdraw as (_ & Hnd & Hlt); [lia|].
  destruct (@mask_loop_descending (Py.sorted_reverse picked) words 0
              (Z.to_nat n)) as (masked & E & Hle & _).
  - now apply sorted_reverse_descending.
  - unfold n. lia.
  - exists masked, g'. rewrite E. cbn [bind ret].
    split; [reflexivity|].
    apply masked_from_join; [exact Hle|].
    exact (mask_loop_words _ _ _ E).
Qed.

Lemma mask_words_total_000 {G} (choose : G -> nat -> nat -> list nat * G)
    (g : G) (text : Py.str) (mask_ratio : Q) (max_words : nat) :
  sampler_ok choose ->
  (0 <= mask_ratio)%Q -> (mask_ratio <= 1 # 2)%Q ->
  exists masked g',
    Part000.mask_words choose g text mask_ratio max_words = inr (masked, g')
    /\ masked_from max_words text (Py.join (Py.lit " ") masked).
Proof.
  intros Hok H0 H1.
  destruct (@mask_words_total_001 _ choose g text mask_ratio max_words
              Hok H0 H1) as (masked & g' & E & Hle).
  pose proof (@mask_words_same _ choose g text mask_ratio max_words Hok) as Hs.
  rewrite E in Hs. cbn [masked_words] in Hs.
  destruct (Part000.mask_words choose g text mask_ratio max_words)
    as [e|[masked0 g0]].
  - cbn [masked_words] in Hs.
    exfalso. assert (Hk := num_masks_bounds (truncate max_words (Py.split text)) H0 H1).
    specialize (Hs (proj1 Hk)). discriminate Hs.
  - cbn [masked_words] in Hs.
    assert (Hk := num_masks_bounds (truncate max_words (Py.split text)) H0 H1).
    specialize (Hs (proj1 Hk)). injection Hs as ->.
    now exists masked, g0.
Qed.

Lemma batch_mask_text_total_000 {G} (choose : G -> nat -> nat -> list nat * G)
    (texts : list Py.str) (g : G) (mask_ratio : Q) (max_words : nat) :
  sampler_ok choose ->
  (0 <= mask_ratio)%Q -> (mask_ratio <= 1 # 2)%Q ->
  exists masked_texts g',
    Part000.batch_mask_text choose g texts mask_ratio max_words
    = inr (masked_texts, g')
    /\ Forall2 (masked_from max_words) texts masked_texts.
Proof.
  intros Hok H0 H1. revert g.
  induction texts as [|text texts IH]; intros g.
  - exists [], g. split; [reflexivity|constructor].
  - destruct (@mask_words_total_000 _ choose g text mask_ratio max_words
                Hok H0 H1) as (words & g1 & E1 & Hfrom).
    destruct (IH g1) as (masked_texts & g2 & E2 & HF).
    exists (Py.join (Py.lit " ") words :: masked_texts), g2.
    cbn [Part000.batch_mask_text]. rewrite E1. cbn [bind]. rewrite E2.
    split; [reflexivity|]. constructor; [exact Hfrom|exact HF].
Qed.

Lemma batch_mask_text_total_001 {G} (choose : G -> nat -> nat -> list nat * G)
    (texts : list Py.str) (g : G) (mask_ratio : Q) (max_words : nat) :
  sampler_ok choose ->
  (0 <= mask_ratio)%Q -> (mask_ratio <= 1 # 2)%Q ->
  exists masked_texts g',
    Part001.batch_mask_text choose g texts mask_ratio max_words
    = inr (masked_texts, g')
    /\ Forall2 (masked_from max_words) texts masked_texts.
Proof.
  intros Hok H0 H1. revert g.
  induction texts as [|text texts IH]; intros g.
  - exists [], g. split; [reflexivity|constructor].
  - destruct (@mask_words_total_001 _ choose g text mask_ratio max_words
                Hok H0 H1) as (words & g1 & E1 & Hfrom).
    destruct (IH g1) as (masked_texts & g2 & E2 & HF).
    exists (Py.join (Py.lit " ") words :: masked_texts), g2.
    cbn [Part001.batch_mask_text]. rewrite E1. cbn [bind]. rewrite E2.
    split; [reflexivity|]. constructor; [exact Hfrom|exact HF].
Qed.

(** X1 ([batch_mask_text], both notebooks): for a mask ratio between 0 and
    1/2 (the default 0.15 included) and a sampler that returns distinct
    positions below its bound, masking never raises, whatever positions are
    drawn: it returns one masked text per input text, in order; every
    masked text is its own words joined by single spaces, has no more
    words than the (truncated) text had, and each of its words is a word
    of the truncated text or a placeholder. *)
Theorem span_masker_succeeds_up_to_half :
  forall (G : Type) (choose : G -> nat -> nat -> list nat * G) (g : G)
         (texts : list Py.str) (mask_ratio : Q) (max_words : nat),
    sampler_ok choose ->
    (0 <= mask_ratio)%Q -> (mask_ratio <= 1 # 2)%Q ->
    (exists masked_texts g',
        Part000.batch_mask_text choose g texts mask_ratio max_words
        = inr (masked_texts, g')
        /\ length masked_texts = length texts
        /\ Forall2
             (fun text masked_text =>
                let words := truncate max_words (Py.split text) in
                let masked := Py.split masked_text in
                masked_text = Py.join (Py.lit " ") masked
                /\ length masked <= length words
                /\ Forall (fun w => In w words \/ exists j, w = extra_id j)
                     masked)
             texts masked_texts)
    /\ (exists masked_texts g',
           Part001.batch_mask_text choose g texts mask_ratio max_words
           = inr (masked_texts, g')
           /\ length masked_texts = length texts
           /\ Forall2
                (fun text masked_text =>
                   let words := truncate max_words (Py.split text) in
                   let masked := Py.split masked_text in
                   masked_text = Py.join (Py.lit " ") masked
                   /\ length masked <= length words
                   /\ Forall (fun w => In w words \/ exists j, w = extra_id j)
                        masked)
                texts masked_texts).
Proof.
  intros G choose g texts mask_ratio max_words Hok H0 H1. split.
  - destruct (@batch_mask_text_total_000 _ choose texts g mask_ratio max_words
                Hok H0 H1) as (m & g' & E & HF).
    exists m, g'. repeat split; try assumption.
    symmetry. exact (Forall2_length HF).
  - destruct (@batch_mask_text_total_001 _ choose texts g mask_ratio max_words
                Hok H0 H1) as (m & g' & E & HF).
    exists m, g'. repeat split; try assumption.
    symmetry. exact (Forall2_length HF).
Qed.

Lemma span_masker_succeeds_up_to_half_witness :
  (exists masked_texts g',
      Part000.batch_mask_text lowest tt [Py.lit "a b c d"; Py.lit "e"]
        (1 # 2)%Q 370 = inr (masked_texts, g')
      /\ length masked_texts = 2
      /\ Forall2
           (fun text masked_text =>
              let words := truncate 370 (Py.split text) in
              let masked := Py.split masked_text in
              masked_text = Py.join (Py.lit " ") masked
              /\ length masked <= length words
              /\ Forall (fun w => In w words \/ exists j, w = extra_id j)
                   masked)
           [Py.lit "a b c d"; Py.lit "e"] masked_texts)
  /\ (exists masked_texts g',
         Part001.batch_mask_text lowest tt [Py.lit "a b c d"; Py.lit "e"]
           (1 # 2)%Q 370 = inr (masked_texts, g')
         /\ length masked_texts = 2
         /\ Forall2
              (fun text masked_text =>
                 let words := truncate 370 (Py.split text) in
                 let masked := Py.split masked_text in
                 masked_text = Py.join (Py.lit " ") masked
                 /\ length masked <= length words
                 /\ Forall (fun w => In w words \/ exists j, w = extra_id j)
                      masked)
              [Py.lit "a b c d"; Py.lit "e"] masked_texts).
Proof.
  apply (@span_masker_succeeds_up_to_half unit lowest tt
           [Py.lit "a b c d"; Py.lit "e"] (1 # 2)%Q 370 lowest_ok).
  - unfold Qle. simpl. lia.
  - unfold Qle. simpl. lia.
Defined.

(** X2 ([batch_mask_text], the body of its loop in both notebooks): with a
    sampler that returns distinct positions, the two maskers leave the same
    words, or raise the same exception, for every text and every ratio that
    gives a non-negative mask count: [np.sort] reversed and
    [sorted(..., reverse=True)] order a draw alike, and the guard
    [if num_masks > 0] only skips a draw of no position. *)
Theorem maskers_agree_on_nonnegative_counts :
  forall (G : Type) (choose : G -> nat -> nat -> list nat * G) (g : G)
         (text : Py.str) (mask_ratio : Q) (max_words : nat),
    sampler_ok choose ->
    (0 <= num_masks (truncate max_words (Py.split text)) mask_ratio)%Z ->
    masked_words (Part000.mask_words choose g text mask_ratio max_words)
    = masked_words (Part001.mask_words choose g text mask_ratio max_words).
Proof.
  intros G choose g text mask_ratio max_words Hok Hk.
  now apply mask_words_same.
Qed.

Lemma maskers_agree_on_nonnegative_counts_witness :
  masked_words (Part000.mask_words lowest tt (Py.lit "a b c d e f")
                  (1 # 2)%Q 370)
  = masked_words (Part001.mask_words lowest tt (Py.lit "a b c d e f")
                    (1 # 2)%Q 370).
Proof.
  apply (@maskers_agree_on_nonnegative_counts unit lowest tt
           (Py.lit "a b c d e f") (1 # 2)%Q 370 lowest_ok).
  vm_compute. discriminate.
Defined.

(** X3 ([batch_mask_text], the body of its loop in both notebooks): a
    negative mask count (a negative ratio on a text long enough) parts the
    two notebooks: the numpy one skips masking and returns the words
    unmasked, with the generator untouched; the other one calls the sampler
    and fails with its [ValueError]. *)
Theorem maskers_part_on_negative_counts :
  forall (G : Type) (choose : G -> nat -> nat -> list nat * G) (g : G)
         (text : Py.str) (mask_ratio : Q) (max_words : nat),
    (num_masks (truncate max_words (Py.split text)) mask_ratio < 0)%Z ->
    Part000.mask_words choose g text mask_ratio max_words
    = inr (truncate max_words (Py.split text), g)
    /\ Part001.mask_words choose g text mask_ratio max_words = inl ValueError.
Proof.
  intros G choose g text mask_ratio max_words Hk.
  unfold Part000.mask_words, Part001.mask_words, Part001.random_sample.
  set (words := truncate max_words (Py.split text)) in *.
  assert (H1 : (0 <? num_masks words mask_ratio)%Z = false)
    by (apply Z.ltb_ge; lia).
  assert (H2 : (num_masks words mask_ratio <? 0)%Z = true)
    by (apply Z.ltb_lt; lia).
  rewrite H1, H2. split; reflexivity.
Qed.

Lemma maskers_part_on_negative_counts_witness :
  Part000.mask_words lowest tt (Py.lit "a b c d") (-1 # 2)%Q 370
  = inr (truncate 370 (Py.split (Py.lit "a b c d")), tt)
  /\ Part001.mask_words lowest tt (Py.lit "a b c d") (-1 # 2)%Q 370
     = inl ValueError.
Proof.
  apply (@maskers_part_on_negative_counts unit lowest tt
           (Py.lit "a b c d") (-1 # 2)%Q 370).
  vm_compute. reflexivity.
Defined.
(** ** Fill extractor: every input *)

Lemma greedy_star_none_inv {R} (c : ascii -> bool) (k : Py.str -> option R)
    (s : Py.str) :
  Re.greedy_star c k s = None ->
  forall w t, s = w ++ t -> Forall (fun a => c a = true) w -> k t = None.
Proof.
  induction s as [|a s IH]; simpl; intros H w t E Hw.
  - symmetry in E. apply app_eq_nil in E. destruct E as [-> ->]. exact H.
  - destruct w as [|a' w].
    + simpl in E. subst t.
      destruct (c a); [|exact H].
      destruct (Re.greedy_star c k s); [discriminate|exact H].
    + simpl in E. inversion E; subst a' s. inversion Hw as [|? ? Ha Hw']; subst.
      rewrite Ha in H.
      destruct (Re.greedy_star c k (w ++ t)) eqn:Hs; [discriminate|].
      now apply (IH eq_refl w t).
Qed.

(** The run a greedy repetition settles on is the longest one after which
    the rest of the pattern matches. *)
Lemma greedy_star_first {R} (c : ascii -> bool) (k : Py.str -> option R)
    (s : Py.str) (r : R) :
  Re.greedy_star c k s = Some r ->
  exists w t,
    s = w ++ t /\ Forall (fun a => c a = true) w /\ k t = Some r
    /\ (forall u t', t = u ++ t' -> u <> [] ->
                     Forall (fun a => c a = true) u -> k t' = None).
Proof.
  induction s as [|a s IH]; simpl.
  - intros H. exists [], []. repeat split; auto.
    intros u t' E Hu. symmetry in E. apply app_eq_nil in E. tauto.
  - destruct (c a) eqn:Ha.
    + destruct (Re.greedy_star c k s) as [r'|] eqn:Hs.
      * intros [= <-].
        destruct (IH eq_refl) as (w & t & -> & Hw & Hk & Hmax).
        exists (a :: w), t. repeat split; auto.
      * intros H. exists [], (a :: s). repeat split; auto.
        intros u t' E Hu HFu. destruct u as [|a' u]; [congruence|].
        simpl in E. inversion E; subst a' s. inversion HFu; subst.
        now apply (@greedy_star_none_inv _ _ _ _ Hs u t').
    + intros H. exists [], (a :: s). repeat split; auto.
      intros u t' E Hu HFu. destruct u as [|a' u]; [congruence|].
      simpl in E. inversion E; subst a'. inversion HFu; subst. congruence.
Qed.

Lemma greedy_star_complete {R} (c : ascii -> bool) (k : Py.str -> option R)
    (w t : Py.str) (r : R) :
  Forall (fun a => c a = true) w -> k t = Some r ->
  exists r', Re.greedy_star c k (w ++ t) = Some r'.
Proof.
  intros Hw Hk. induction Hw as [|a w Ha Hw IH]; simpl.
  - destruct t as [|a t']; [now exists r|]. simpl.
    destruct (c a); [|now exists r].
    destruct (Re.greedy_star c k t') as [r'|]; [now exists r'|now exists r].
  - rewrite Ha. destruct IH as (r' & ->). now exists r'.
Qed.

Lemma lazy_star_unfold {R} (c : ascii -> bool)
    (k : Py.str -> Py.str -> option R) (captured s : Py.str) :
  Re.lazy_star c k captured s
  = match k captured s with
    | Some r => Some r
    | None =>
        match s with
        | a :: s' =>
            if c a then Re.lazy_star c k (captured ++ [a]) s' else None
        | [] => None
        end
    end.
Proof. destruct s; reflexivity. Qed.

(** The run a lazy repetition captures is the shortest one after which the
    rest of the pattern matches. *)
Lemma lazy_star_inv {R} (c : ascii -> bool) (k : Py.str -> Py.str -> option R)
    (s captured : Py.str) (r : R) :
  Re.lazy_star c k captured s = Some r ->
  exists f y,
    s = f ++ y /\ Forall (fun a => c a = true) f
    /\ k (captured ++ f) y = Some r
    /\ (forall a b, f = a ++ b -> b <> [] ->
                    k (captured ++ a) (b ++ y) = None).
Proof.
  revert captured. induction s as [|x s IH]; intros captured;
    rewrite lazy_star_unfold.
  - destruct (k captured []) as [r0|] eqn:Hk; [|discriminate].
    intros [= <-]. exists [], []. rewrite !app_nil_r.
    split; [reflexivity|]. split; [constructor|]. split; [exact Hk|].
    intros a b E Hb. symmetry in E. apply app_eq_nil in E. tauto.
  - destruct (k captured (x :: s)) as [r0|] eqn:Hk.
    + intros [= <-]. exists [], (x :: s). rewrite !app_nil_r.
      split; [reflexivity|]. split; [constructor|]. split; [exact Hk|].
      intros a b E Hb. symmetry in E. apply app_eq_nil in E. tauto.
    + destruct (c x) eqn:Hx; [|discriminate].
      intros H. destruct (IH _ H) as (f & y & -> & Hf & Hkf & Hmin).
      exists (x :: f), y. rewrite <- app_assoc in Hkf.
      split; [reflexivity|]. split; [now constructor|]. split; [exact Hkf|].
      intros a b E Hb. destruct a as [|a0 a].
      * simpl in E. subst b. now rewrite app_nil_r.
      * simpl in E. inversion E; subst a0 f.
        specialize (Hmin a b eq_refl Hb). rewrite <- app_assoc in Hmin.
        exact Hmin.
Qed.

Lemma lazy_star_complete {R} (c : ascii -> bool)
    (k : Py.str -> Py.str -> option R) (f y captured : Py.str) (r : R) :
  Forall (fun a => c a = true) f -> k (captured ++ f) y = Some r ->
  exists r', Re.lazy_star c k captured (f ++ y) = Some r'.
Proof.
  intros Hf. revert captured.
  induction Hf as [|x f Hx Hf IH]; intros captured Hk;
    rewrite lazy_star_unfold.
  - rewrite app_nil_r in Hk. simpl. rewrite Hk. now exists r.
  - simpl. destruct (k captured (x :: f ++ y)) as [r0|]; [now exists r0|].
    rewrite Hx. apply IH. now rewrite <- app_assoc.
Qed.

(** One match of the pattern, wherever it is attempted: the captured group
    is a clean fill. *)
Lemma match_here_clean (s group rest : Py.str) :
  Re.match_here s = Some (group, rest) -> clean_fill group.
Proof.
  unfold Re.match_here. intros H.
  apply marker_inv in H. destruct H as (d & tail & Hd & -> & H).
  set (look := fun (group s' : Py.str) =>
                 if Re.lookahead s' then Some (group, s') else None) in *.
  set (K2 := fun (group rest : Py.str) =>
               Re.greedy_star Py.isspace (look group) rest) in *.
  apply greedy_star_first in H.
  destruct H as (w & t & -> & Hw & H & Hmax).
  apply lazy_star_inv in H.
  destruct H as (f & y & -> & Hf & H & Hmin).
  cbn [app] in H, Hmin.
  unfold K2 in H. apply greedy_star_inv in H.
  destruct H as (w2 & t2 & -> & Hw2 & H).
  unfold look in H. destruct (Re.lookahead t2) eqn:Hla; [|discriminate].
  injection H as <- <-.
  assert (Hlook : forall g, look g t2 = Some (g, t2)).
  { intros g. unfold look. now rewrite Hla. }
  split; [exact Hf|]. split; [split|].
  - (* no whitespace at the start: the first run had taken it *)
    intros c r -> .
    destruct (Py.isspace c) eqn:Hc; [|reflexivity]. exfalso.
    assert (Hnone : Re.lazy_star Re.dot K2 [] (r ++ w2 ++ t2) = None).
    { apply (Hmax [c] (r ++ w2 ++ t2)); [reflexivity|discriminate|].
      now constructor. }
    inversion Hf as [|? ? _ Hr]; subst.
    destruct (@greedy_star_complete _ Py.isspace (look r) w2 t2 _ Hw2 (Hlook r))
      as (r1 & Hr1).
    destruct (@lazy_star_complete _ Re.dot K2 r (w2 ++ t2) [] r1 Hr Hr1)
      as (r2 & Hr2).
    congruence.
  - (* no whitespace at the end: the group stops as early as it can *)
    intros r c -> .
    destruct (Py.isspace c) eqn:Hc; [|reflexivity]. exfalso.
    specialize (Hmin r [c] eq_refl). cbn [app] in Hmin.
    assert (Hnone : K2 r (c :: w2 ++ t2) = None) by (apply Hmin; discriminate).
    destruct (@greedy_star_complete _ Py.isspace (look r) (c :: w2) t2 _
                (Forall_cons _ Hc Hw2) (Hlook r)) as (r1 & Hr1).
    unfold K2 in Hnone. cbn [app] in Hr1. congruence.
  - (* no marker inside: the lookahead would have stopped the group *)
    intros m (d' & Hd' & ->) (a & b & ->).
    assert (Hb : marker_of d' ++ b <> []).
    { rewrite marker_of_head. discriminate. }
    specialize (Hmin a (marker_of d' ++ b) eq_refl Hb).
    assert (Hk : look a ((marker_of d' ++ b) ++ w2 ++ t2)
                 = Some (a, (marker_of d' ++ b) ++ w2 ++ t2)).
    { unfold look. rewrite lookahead_follows; [reflexivity|].
      right. exists d', (b ++ w2 ++ t2). split; [exact Hd'|].
      now rewrite <- app_assoc. }
    destruct (@greedy_star_complete _ Py.isspace (look a) []
                ((marker_of d' ++ b) ++ w2 ++ t2) _ (Forall_nil _) Hk)
      as (r1 & Hr1).
    unfold K2 in Hmin. change ([] ++ ?x) with x in Hr1.
    unfold look in Hr1. congruence.
Qed.

Lemma findall_from_clean (s : Py.str) (skip : nat) :
  Forall clean_fill (Re.findall_from skip s).
Proof.
  revert skip. induction s as [|c s IH]; intros skip; [constructor|].
  cbn [Re.findall_from]. destruct skip as [|n]; [|apply IH].
  destruct (Re.match_here (c :: s)) as [[group rest]|] eqn:Hm; [|apply IH].
  constructor; [|apply IH]. now apply (@match_here_clean _ _ _ Hm).
Qed.

Lemma map_strip_clean (fills : list Py.str) :
  Forall clean_fill fills -> map Py.strip fills = fills.
Proof.
  induction 1 as [|f fills (_ & Htrim & _) _ IH]; [reflexivity|].
  simpl. now rewrite (strip_trimmed Htrim), IH.
Qed.

(** X4 ([batch_extract_fills], both notebooks): whatever the infill model
    returned, every extracted fill is on one line, has no whitespace at
    either end and contains no placeholder marker; the second notebook's
    extra [fill.strip()] therefore changes nothing, and both notebooks
    extract the same fills from every list of outputs. *)
Theorem extracted_fills_are_clean :
  forall texts : list Py.str,
    Forall (Forall clean_fill) (Part000.batch_extract_fills texts)
    /\ Part001.batch_extract_fills texts = Part000.batch_extract_fills texts.
Proof.
  intros texts. unfold Part000.batch_extract_fills, Part001.batch_extract_fills.
  split.
  - apply Forall_map, Forall_forall. intros text _. apply findall_from_clean.
  - apply map_ext. intros text.
    change (Part001.clean text) with (Part000.clean text).
    apply map_strip_clean, findall_from_clean.
Qed.
(** ** Infill requester and perturbation orchestrator *)

Lemma index_first {A} (l : list A) : l <> [] -> exists a, index l 0 = inr a.
Proof. destruct l as [|a l]; [congruence|]. intros _. now exists a. Qed.

Lemma stop_id_total_000 (t5_encode : Py.str -> list Z) (eos : Z)
    (batch_texts : list Py.str) :
  encodes_markers t5_encode ->
  exists stop, Part000.stop_id t5_encode eos batch_texts = inr stop.
Proof.
  intros Henc. unfold Part000.stop_id.
  destruct (Part000.n_expected batch_texts) as [|n ns] eqn:E; [now exists eos|].
  cbn [Py.max bind ret]. apply index_first, Henc.
Qed.

Lemma stop_id_total_001 (t5_encode : Py.str -> list Z)
    (batch_texts : list Py.str) :
  encodes_markers t5_encode -> batch_texts <> [] ->
  exists stop, Part001.stop_id t5_encode batch_texts = inr stop.
Proof.
  intros Henc Hne. unfold Part001.stop_id, Part001.n_expected.
  destruct batch_texts as [|text rest]; [congruence|].
  cbn [map Py.max bind ret]. apply index_first, Henc.
Qed.

Lemma replace_batches_total_000 {G} (t5_encode : Py.str -> list Z) (eos : Z)
    (t5_generate : G -> list Py.str -> Z -> list Py.str * G)
    (batches : list (list Py.str)) (g : G) :
  encodes_markers t5_encode -> output_per_input t5_generate ->
  exists all_outputs g',
    Part000.replace_batches t5_encode eos t5_generate g batches
    = inr (all_outputs, g')
    /\ length all_outputs = length (concat batches).
Proof.
  intros Henc Hgen. revert g.
  induction batches as [|batch_texts rest IH]; intros g.
  - now exists [], g.
  - cbn [Part000.replace_batches].
    destruct (@stop_id_total_000 t5_encode eos batch_texts Henc) as (stop & ->).
    cbn [bind]. pose proof (Hgen g batch_texts stop) as Hlen.
    destruct (t5_generate g batch_texts stop) as [batch_decoded g1].
    cbn [fst] in Hlen.
    destruct (IH g1) as (all_outputs & g2 & -> & Hall).
    exists (batch_decoded ++ all_outputs), g2. cbn [bind ret concat].
    split; [reflexivity|]. rewrite !length_app. lia.
Qed.

Lemma replace_batches_total_001 {G} (t5_encode : Py.str -> list Z)
    (t5_generate : G -> list Py.str -> Z -> list Py.str * G)
    (batches : list (list Py.str)) (g : G) :
  encodes_markers t5_encode -> output_per_input t5_generate ->
  (forall batch_texts, In batch_texts batches -> batch_texts <> []) ->
  exists all_outputs g',
    Part001.replace_batches t5_encode t5_generate g batches
    = inr (all_outputs, g')
    /\ length all_outputs = length (concat batches).
Proof.
  intros Henc Hgen. revert g.
  induction batches as [|batch_texts rest IH]; intros g Hne.
  - now exists [], g.
  - cbn [Part001.replace_batches].
    destruct (@stop_id_total_001 t5_encode batch_texts Henc) as (stop & ->);
      [apply Hne; now left|].
    cbn [bind]. pose proof (Hgen g batch_texts stop) as Hlen.
    destruct (t5_generate g batch_texts stop) as [batch_decoded g1].
    cbn [fst] in Hlen.
    destruct (IH g1) as (all_outputs & g2 & -> & Hall);
      [intros b Hb; apply Hne; now right|].
    exists (batch_decoded ++ all_outputs), g2. cbn [bind ret concat].
    split; [reflexivity|]. rewrite !length_app. lia.
Qed.

Lemma batch_replace_masks_total_000 {G} (t5_encode : Py.str -> list Z) (eos : Z)
    (t5_generate : G -> list Py.str -> Z -> list Py.str * G)
    (texts : list Py.str) (g : G) (batch_size : nat) :
  encodes_markers t5_encode -> output_per_input t5_generate ->
  0 < batch_size ->
  exists all_outputs g',
    Part000.batch_replace_masks t5_encode eos t5_generate g texts batch_size
    = inr (all_outputs, g')
    /\ length all_outputs = length texts.
Proof.
  intros Henc Hgen Hbs. unfold Part000.batch_replace_masks.
  destruct batch_size as [|n]; [lia|].
  destruct (@replace_batches_total_000 _ t5_encode eos t5_generate
              (Py.chunks (S n) texts) g Henc Hgen) as (o & g' & E & Hl).
  exists o, g'. split; [exact E|]. now rewrite Hl, concat_chunks by lia.
Qed.

Lemma batch_replace_masks_total_001 {G} (t5_encode : Py.str -> list Z)
    (t5_generate : G -> list Py.str -> Z -> list Py.str * G)
    (texts : list Py.str) (g : G) (batch_size : nat) :
  encodes_markers t5_encode -> output_per_input t5_generate ->
  0 < batch_size ->
  exists all_outputs g',
    Part001.batch_replace_masks t5_encode t5_generate g texts batch_size
    = inr (all_outputs, g')
    /\ length all_outputs = length texts.
Proof.
  intros Henc Hgen Hbs. unfold Part001.batch_replace_masks.
  destruct batch_size as [|n]; [lia|].
  destruct (@replace_batches_total_001 _ t5_encode t5_generate
              (Py.chunks (S n) texts) g Henc Hgen) as (o & g' & E & Hl).
  - intros b Hb. eapply chunks_upto_nonempty; [|exact Hb]. lia.
  - exists o, g'. split; [exact E|]. now rewrite Hl, concat_chunks by lia.
Qed.

Lemma default_ratio_bounds : (0 <= 15 # 100)%Q /\ (15 # 100 <= 1 # 2)%Q.
Proof. split; unfold Qle; simpl; lia. Qed.

Lemma length_batch_extract_fills_000 (texts : list Py.str) :
  length (Part000.batch_extract_fills texts) = length texts.
Proof. apply length_map. Qed.

Lemma length_batch_extract_fills_001 (texts : list Py.str) :
  length (Part001.batch_extract_fills texts) = length texts.
Proof. apply length_map. Qed.

Lemma t5_perturbation_total_000 {G} (choose : G -> nat -> nat -> list nat * G)
    (t5_encode : Py.str -> list Z) (eos : Z)
    (t5_generate : G -> list Py.str -> Z -> list Py.str * G)
    (g : G) (texts : list Py.str) (batch_size : nat) :
  sampler_ok choose -> encodes_markers t5_encode ->
  output_per_input t5_generate -> 0 < batch_size ->
  exists perturbed g',
    Part000.t5_perturbation choose t5_encode eos t5_generate g texts batch_size
    = inr (perturbed, g')
    /\ length perturbed = length texts.
Proof.
  intros Hok Henc Hgen Hbs. unfold Part000.t5_perturbation.
  destruct default_ratio_bounds as [H0 H1].
  destruct (@batch_mask_text_total_000 _ choose texts g _ 370 Hok H0 H1)
    as (masked & g1 & -> & HF).
  cbn [bind].
  destruct (@batch_replace_masks_total_000 _ t5_encode eos t5_generate
              masked g1 batch_size Henc Hgen Hbs) as (raw & g2 & -> & Hraw).
  cbn [bind ret]. exists
    (Part000.batch_apply_extracted_fills masked
       (Part000.batch_extract_fills raw)), g2.
  split; [reflexivity|].
  unfold Part000.batch_apply_extracted_fills.
  rewrite length_map2, length_batch_extract_fills_000, Hraw, Nat.min_id.
  symmetry. exact (Forall2_length HF).
Qed.

Lemma t5_perturbation_total_001 {G} (choose : G -> nat -> nat -> list nat * G)
    (t5_encode : Py.str -> list Z)
    (t5_generate : G -> list Py.str -> Z -> list Py.str * G)
    (g : G) (texts : list Py.str) (batch_size : nat) :
  sampler_ok choose -> encodes_markers t5_encode ->
  output_per_input t5_generate -> 0 < batch_size ->
  exists perturbed g',
    Part001.t5_perturbation choose t5_encode t5_generate g texts batch_size
    = inr (perturbed, g')
    /\ length perturbed = length texts.
Proof.
  intros Hok Henc Hgen Hbs. unfold Part001.t5_perturbation.
  destruct default_ratio_bounds as [H0 H1].
  destruct (@batch_mask_text_total_001 _ choose texts g _ 370 Hok H0 H1)
    as (masked & g1 & -> & HF).
  cbn [bind].
  destruct (@batch_replace_masks_total_001 _ t5_encode t5_generate
              masked g1 batch_size Henc Hgen Hbs) as (raw & g2 & -> & Hraw).
  cbn [bind ret]. exists
    (Part001.batch_apply_extracted_fills masked
       (Part001.batch_extract_fills raw)), g2.
  split; [reflexivity|].
  unfold Part001.batch_apply_extracted_fills.
  rewrite length_map2, length_batch_extract_fills_001, Hraw, Nat.min_id.
  symmetry. exact (Forall2_length HF).
Qed.

Lemma t5_like_encode_markers : encodes_markers t5_like_encode.
Proof.
  intros m. unfold t5_like_encode.
  destruct (Py.eqb (extra_id m) (extra_id 0)); discriminate.
Qed.

Lemma constant_generate_per_input : output_per_input constant_generate.
Proof. intros g batch_texts stop. apply length_map. Qed.

(** X5 ([t5_perturbation], with [batch_mask_text], [batch_replace_masks],
    [batch_extract_fills] and [batch_apply_extracted_fills] behind it, both
    notebooks): with a sampler that returns distinct positions, a tokenizer
    that gives every placeholder marker a token, a model that returns one
    output per masked text and a positive batch size, a perturbation round
    never raises and returns exactly one perturbed text per input text. *)
Theorem perturbation_returns_text_per_input :
  forall (G : Type) (choose : G -> nat -> nat -> list nat * G)
         (t5_encode : Py.str -> list Z) (t5_eos_token_id : Z)
         (t5_generate : G -> list Py.str -> Z -> list Py.str * G)
         (g : G) (texts : list Py.str) (batch_size : nat),
    sampler_ok choose -> encodes_markers t5_encode ->
    output_per_input t5_generate -> 0 < batch_size ->
    (exists perturbed g',
        Part000.t5_perturbation choose t5_encode t5_eos_token_id t5_generate
          g texts batch_size = inr (perturbed, g')
        /\ length perturbed = length texts)
    /\ (exists perturbed g',
           Part001.t5_perturbation choose t5_encode t5_generate
             g texts batch_size = inr (perturbed, g')
           /\ length perturbed = length texts).
Proof.
  intros G choose t5_encode eos t5_generate g texts batch_size
         Hok Henc Hgen Hbs.
  split.
  - now apply t5_perturbation_total_000.
  - now apply t5_perturbation_total_001.
Qed.

Lemma perturbation_returns_text_per_input_witness :
  (exists perturbed g',
      Part000.t5_perturbation lowest t5_like_encode 1 constant_generate
        tt [Py.lit "the quick brown fox jumps over the lazy dog"; Py.lit "hi"]
        2 = inr (perturbed, g')
      /\ length perturbed = 2)
  /\ (exists perturbed g',
         Part001.t5_perturbation lowest t5_like_encode constant_generate
           tt [Py.lit "the quick brown fox jumps over the lazy dog";
               Py.lit "hi"]
           2 = inr (perturbed, g')
         /\ length perturbed = 2).
Proof.
  apply (@perturbation_returns_text_per_input unit lowest t5_like_encode 1
           constant_generate tt
           [Py.lit "the quick brown fox jumps over the lazy dog"; Py.lit "hi"]
           2 lowest_ok t5_like_encode_markers constant_generate_per_input).
  lia.
Defined.

(** X6 ([t5_perturbation], [batch_replace_masks], [batch_average_log_prob],
    both notebooks): a batch size of 0 makes [range(0, len(texts), 0)]
    raise [ValueError] in every batched stage, also for an empty list of
    texts; in a perturbation round the exception comes after the masking,
    which has then used the sampler for nothing. *)
Theorem zero_batch_size_raises :
  forall (G : Type) (choose : G -> nat -> nat -> list nat * G)
         (t5_encode : Py.str -> list Z) (t5_eos_token_id : Z)
         (t5_generate : G -> list Py.str -> Z -> list Py.str * G)
         (prec emax : Z) (computation_tokenizer : list Py.str -> encoding)
         (pad_token_id : Z) (token_nll : encoding -> list (list spec_float))
         (g : G) (texts : list Py.str),
    sampler_ok choose ->
    Part000.t5_perturbation choose t5_encode t5_eos_token_id t5_generate
      g texts 0 = inl ValueError
    /\ Part001.t5_perturbation choose t5_encode t5_generate g texts 0
       = inl ValueError
    /\ Part000.batch_replace_masks t5_encode t5_eos_token_id t5_generate
         g texts 0 = inl ValueError
    /\ Part001.batch_replace_masks t5_encode t5_generate g texts 0
       = inl ValueError
    /\ Part000.batch_average_log_prob prec emax computation_tokenizer
         pad_token_id token_nll texts 0 = inl ValueError
    /\ Part001.batch_average_log_prob prec emax computation_tokenizer
         pad_token_id token_nll texts 0 = inl ValueError.
Proof.
  intros G choose t5_encode eos t5_generate prec emax tok pad nll g texts Hok.
  destruct default_ratio_bounds as [H0 H1].
  split; [|split; [|repeat split]].
  - unfold Part000.t5_perturbation.
    destruct (@batch_mask_text_total_000 _ choose texts g _ 370 Hok H0 H1)
      as (masked & g1 & -> & _).
    reflexivity.
  - unfold Part001.t5_perturbation.
    destruct (@batch_mask_text_total_001 _ choose texts g _ 370 Hok H0 H1)
      as (masked & g1 & -> & _).
    reflexivity.
Qed.

Lemma zero_batch_size_raises_witness :
  Part000.t5_perturbation lowest t5_like_encode 1 constant_generate
    tt [Py.lit "a b c d e f g h"] 0 = inl ValueError
  /\ Part001.t5_perturbation lowest t5_like_encode constant_generate
       tt [Py.lit "a b c d e f g h"] 0 = inl ValueError
  /\ Part000.batch_replace_masks t5_like_encode 1 constant_generate
       tt [Py.lit "a b c d e f g h"] 0 = inl ValueError
  /\ Part001.batch_replace_masks t5_like_encode constant_generate
       tt [Py.lit "a b c d e f g h"] 0 = inl ValueError
  /\ Part000.batch_average_log_prob BF16.prec BF16.emax tiny_tokenizer 0
       (tiny_nll BF16.prec BF16.emax) [Py.lit "a b c d e f g h"] 0
     = inl ValueError
  /\ Part001.batch_average_log_prob BF16.prec BF16.emax tiny_tokenizer 0
       (tiny_nll BF16.prec BF16.emax) [Py.lit "a b c d e f g h"] 0
     = inl ValueError.
Proof.
  exact (@zero_batch_size_raises unit lowest t5_like_encode 1
           constant_generate BF16.prec BF16.emax tiny_tokenizer 0
           (tiny_nll BF16.prec BF16.emax) tt [Py.lit "a b c d e f g h"]
           lowest_ok).
Defined.
(** ** Texts too short to be masked *)

Lemma num_masks_default_short (words : list Py.str) :
  length words <= 6 -> num_masks words (15 # 100)%Q = 0%Z.
Proof.
  intros HL. unfold num_masks. apply int_unit_interval.
  - unfold Qle. simpl. lia.
  - unfold Qlt. simpl. lia.
Qed.

Lemma truncate_short (max_words : nat) (words : list Py.str) :
  length words <= max_words -> truncate max_words words = words.
Proof.
  intros H. unfold truncate.
  destruct (Nat.ltb_spec max_words (length words)); [lia|reflexivity].
Qed.

Lemma batch_mask_text_short_000 {G} (choose : G -> nat -> nat -> list nat * G)
    (texts : list Py.str) (g : G) (mask_ratio : Q) (max_words : nat) :
  Forall (fun text =>
            num_masks (truncate max_words (Py.split text)) mask_ratio = 0%Z)
         texts ->
  Part000.batch_mask_text choose g texts mask_ratio max_words
  = inr (map (unmasked max_words) texts, g).
Proof.
  induction 1 as [|text texts Hk _ IH]; [reflexivity|].
  cbn [Part000.batch_mask_text map].
  rewrite (@mask_words_short_000 _ choose g text mask_ratio max_words Hk).
  cbn [bind]. rewrite IH. reflexivity.
Qed.

Lemma batch_mask_text_short_001 {G} (choose : G -> nat -> nat -> list nat * G)
    (texts : list Py.str) (g : G) (mask_ratio : Q) (max_words : nat) :
  sampler_ok choose ->
  Forall (fun text =>
            num_masks (truncate max_words (Py.split text)) mask_ratio = 0%Z)
         texts ->
  exists g',
    Part001.batch_mask_text choose g texts mask_ratio max_words
    = inr (map (unmasked max_words) texts, g').
Proof.
  intros Hok HF. revert g.
  induction HF as [|text texts Hk _ IH]; intros g; [now exists g|].
  cbn [Part001.batch_mask_text map].
  destruct (@mask_words_short_001 _ choose g text mask_ratio max_words Hok Hk)
    as (g1 & ->).
  cbn [bind]. destruct (IH g1) as (g2 & ->). now exists g2.
Qed.

(** *** Characters of a normalised text *)

Lemma in_join (c : ascii) (sep : Py.str) (words : list Py.str) :
  In c (Py.join sep words) ->
  In c sep \/ exists w, In w words /\ In c w.
Proof.
  induction words as [|w rest IH]; [intros []|].
  destruct rest as [|w' rest'].
  - simpl. intros H. right. exists w. auto.
  - change (Py.join sep (w :: w' :: rest'))
      with (w ++ sep ++ Py.join sep (w' :: rest')).
    intros H. apply in_app_or in H. destruct H as [H|H].
    + right. exists w. split; [now left|exact H].
    + apply in_app_or in H. destruct H as [H|H]; [now left|].
      destruct (IH H) as [Hs|(x & Hx & Hc)]; [now left|].
      right. exists x. split; [now right|exact Hc].
Qed.

Lemma in_split_from (s word w : Py.str) (c : ascii) :
  In w (Py.split_from word s) -> In c w -> In c word \/ In c s.
Proof.
  revert word. induction s as [|a s IH]; intros word Hw Hc.
  - simpl in Hw. destruct word; [destruct Hw|].
    destruct Hw as [<-|[]]. now left.
  - cbn [Py.split_from] in Hw. destruct (Py.isspace a).
    + destruct word as [|b word].
      * destruct (IH [] Hw Hc) as [[]|H]. right. now right.
      * destruct Hw as [<-|Hw]; [now left|].
        destruct (IH [] Hw Hc) as [[]|H]. right. now right.
    + destruct (IH _ Hw Hc) as [H|H]; [|right; now right].
      apply in_app_or in H. destruct H as [H|[<-|[]]]; [now left|].
      right. now left.
Qed.

Lemma in_truncate (max_words : nat) (words : list Py.str) (w : Py.str) :
  In w (truncate max_words words) -> In w words.
Proof.
  unfold truncate. destruct (max_words <? length words); [|auto].
  intros H. rewrite <- (firstn_skipn max_words words).
  apply in_or_app. now left.
Qed.

Lemma unmasked_without_bracket (max_words : nat) (text : Py.str) :
  ~ In "<"%char text -> ~ In "<"%char (unmasked max_words text).
Proof.
  intros Hno H. unfold unmasked in H. apply in_join in H.
  destruct H as [H|(w & Hw & Hc)].
  - simpl in H. destruct H as [H|[]]. discriminate H.
  - apply in_truncate in Hw. unfold Py.split in Hw.
    destruct (@in_split_from _ _ _ _ Hw Hc) as [[]|H]. contradiction.
Qed.

(** *** Fills for a text without placeholders *)

Lemma extra_id_absent (text : Py.str) (j : nat) :
  ~ In "<"%char text -> ~ occurs (extra_id j) text.
Proof.
  intros Hno (a & b & ->). apply Hno. apply in_or_app. right.
  rewrite extra_id_head. now left.
Qed.

Lemma fill_loop_absent (fills : list Py.str) (i : nat) (text : Py.str) :
  ~ In "<"%char text -> Part001.fill_loop i text fills = text.
Proof.
  intros Hno. revert i. induction fills as [|fill rest IH]; intros i;
    [reflexivity|].
  cbn [Part001.fill_loop].
  rewrite replace_first_absent by now apply extra_id_absent.
  apply IH.
Qed.

Lemma map2_left {A B} (f : A -> B -> A) (l : list A) (m : list B) :
  length l <= length m ->
  (forall a b, In a l -> f a b = a) ->
  map2 f l m = l.
Proof.
  unfold map2. revert m. induction l as [|a l IH]; intros [|b m] Hlen Hf;
    simpl in *; try reflexivity; try lia.
  rewrite (Hf a b) by now left.
  f_equal. apply IH; [lia|]. intros a' b' Ha'. apply Hf. now right.
Qed.

Lemma short_plain_unmasked (texts : list Py.str) :
  Forall short_plain texts ->
  map (unmasked 370) texts = map normalized texts
  /\ Forall (fun text =>
               num_masks (truncate 370 (Py.split text)) (15 # 100)%Q = 0%Z)
            texts
  /\ Forall (fun masked_text => ~ In "<"%char masked_text)
            (map (unmasked 370) texts).
Proof.
  induction 1 as [|text texts [Hlen Hno] _ (IH1 & IH2 & IH3)].
  - repeat split; constructor.
  - assert (Ht : truncate 370 (Py.split text) = Py.split text)
      by (apply truncate_short; lia).
    split; [|split].
    + cbn [map]. rewrite IH1. unfold unmasked, normalized. now rewrite Ht.
    + constructor; [|exact IH2]. rewrite Ht. now apply num_masks_default_short.
    + cbn [map]. constructor; [|exact IH3]. now apply unmasked_without_bracket.
Qed.

Lemma apply_fills_plain_000 (masked_texts : list Py.str)
    (extracted_fills : list (list Py.str)) :
  length masked_texts <= length extracted_fills ->
  Forall (fun masked_text => ~ In "<"%char masked_text) masked_texts ->
  Part000.batch_apply_extracted_fills masked_texts extracted_fills
  = masked_texts.
Proof.
  intros Hlen Hplain. unfold Part000.batch_apply_extracted_fills.
  apply map2_left; [exact Hlen|].
  intros masked_text fills Hin. destruct fills as [|fill rest]; [reflexivity|].
  unfold Part000.replace_masks. rewrite replace_masks_from_fill_loop.
  apply fill_loop_absent. rewrite Forall_forall in Hplain. now apply Hplain.
Qed.

Lemma apply_fills_plain_001 (masked_texts : list Py.str)
    (extracted_fills : list (list Py.str)) :
  length masked_texts <= length extracted_fills ->
  Forall (fun masked_text => ~ In "<"%char masked_text) masked_texts ->
  Part001.batch_apply_extracted_fills masked_texts extracted_fills
  = masked_texts.
Proof.
  intros Hlen Hplain. unfold Part001.batch_apply_extracted_fills.
  apply map2_left; [exact Hlen|].
  intros masked_text fills Hin. destruct fills as [|fill rest]; [reflexivity|].
  apply fill_loop_absent. rewrite Forall_forall in Hplain. now apply Hplain.
Qed.

Lemma t5_perturbation_short_000 {G} (choose : G -> nat -> nat -> list nat * G)
    (t5_encode : Py.str -> list Z) (eos : Z)
    (t5_generate : G -> list Py.str -> Z -> list Py.str * G)
    (g : G) (texts : list Py.str) (batch_size : nat) :
  encodes_markers t5_encode -> output_per_input t5_generate ->
  0 < batch_size -> Forall short_plain texts ->
  exists g',
    Part000.t5_perturbation choose t5_encode eos t5_generate g texts batch_size
    = inr (map normalized texts, g').
Proof.
  intros Henc Hgen Hbs Hshort.
  destruct (short_plain_unmasked Hshort) as (Hnorm & Hk & Hplain).
  unfold Part000.t5_perturbation.
  rewrite (@batch_mask_text_short_000 _ choose texts g _ 370 Hk). cbn [bind].
  destruct (@batch_replace_masks_total_000 _ t5_encode eos t5_generate
              (map (unmasked 370) texts) g batch_size Henc Hgen Hbs)
    as (raw & g2 & -> & Hraw).
  cbn [bind ret]. exists g2.
  rewrite apply_fills_plain_000; [now rewrite Hnorm| |exact Hplain].
  rewrite length_batch_extract_fills_000. lia.
Qed.

Lemma t5_perturbation_short_001 {G} (choose : G -> nat -> nat -> list nat * G)
    (t5_encode : Py.str -> list Z)
    (t5_generate : G -> list Py.str -> Z -> list Py.str * G)
    (g : G) (texts : list Py.str) (batch_size : nat) :
  sampler_ok choose ->
  encodes_markers t5_encode -> output_per_input t5_generate ->
  0 < batch_size -> Forall short_plain texts ->
  exists g',
    Part001.t5_perturbation choose t5_encode t5_generate g texts batch_size
    = inr (map normalized texts, g').
Proof.
  intros Hok Henc Hgen Hbs Hshort.
  destruct (short_plain_unmasked Hshort) as (Hnorm & Hk & Hplain).
  unfold Part001.t5_perturbation.
  destruct (@batch_mask_text_short_001 _ choose texts g _ 370 Hok Hk)
    as (g1 & ->).
  cbn [bind].
  destruct (@batch_replace_masks_total_001 _ t5_encode t5_generate
              (map (unmasked 370) texts) g1 batch_size Henc Hgen Hbs)
    as (raw & g2 & -> & Hraw).
  cbn [bind ret]. exists g2.
  rewrite apply_fills_plain_001; [now rewrite Hnorm| |exact Hplain].
  rewrite length_batch_extract_fills_001. lia.
Qed.

(** X7 ([t5_perturbation] over [batch_mask_text] and
    [batch_apply_extracted_fills], both notebooks): a text of at most six
    words gets [int(L * 0.15) = 0] masks, so when it holds no ["<"] the
    perturbation round returns it with its whitespace normalised and
    nothing else changed, whatever the infill model generates for it; such
    a text is never perturbed. *)
Theorem short_texts_are_never_perturbed :
  forall (G : Type) (choose : G -> nat -> nat -> list nat * G)
         (t5_encode : Py.str -> list Z) (t5_eos_token_id : Z)
         (t5_generate : G -> list Py.str -> Z -> list Py.str * G)
         (g : G) (texts : list Py.str) (batch_size : nat),
    sampler_ok choose -> encodes_markers t5_encode ->
    output_per_input t5_generate -> 0 < batch_size ->
    Forall short_plain texts ->
    (exists g',
        Part000.t5_perturbation choose t5_encode t5_eos_token_id t5_generate
          g texts batch_size = inr (map normalized texts, g'))
    /\ (exists g',
           Part001.t5_perturbation choose t5_encode t5_generate
             g texts batch_size = inr (map normalized texts, g')).
Proof.
  intros G choose t5_encode eos t5_generate g texts batch_size
         Hok Henc Hgen Hbs Hshort.
  split.
  - now apply t5_perturbation_short_000.
  - now apply t5_perturbation_short_001.
Qed.

Lemma short_texts_are_never_perturbed_witness :
  (exists g',
      Part000.t5_perturbation lowest t5_like_encode 1 constant_generate
        tt [Py.lit "a  short   text"; Py.lit " six words are not enough here"]
        8
      = inr (map normalized
               [Py.lit "a  short   text";
                Py.lit " six words are not enough here"], g'))
  /\ (exists g',
         Part001.t5_perturbation lowest t5_like_encode constant_generate
           tt [Py.lit "a  short   text";
               Py.lit " six words are not enough here"]
           8
         = inr (map normalized
                  [Py.lit "a  short   text";
                   Py.lit " six words are not enough here"], g')).
Proof.
  apply (@short_texts_are_never_perturbed unit lowest t5_like_encode 1
           constant_generate tt
           [Py.lit "a  short   text"; Py.lit " six words are not enough here"]
           8 lowest_ok t5_like_encode_markers constant_generate_per_input).
  - lia.
  - repeat (apply Forall_cons || apply Forall_nil);
      (split; [vm_compute; lia|]);
      intros Hin; simpl in Hin;
      repeat (destruct Hin as [Hin|Hin]; [discriminate Hin|]); exact Hin.
Defined.
(** ** Driver: the scores organised by text *)

Lemma index_nth {A} (l : list A) (j : nat) (d : A) :
  j < length l -> index l j = inr (nth j l d).
Proof.
  intros H. unfold index.
  now rewrite (nth_error_nth' l d H).
Qed.

Lemma organize_same (js : list nat) (perturbation_idx : nat)
    (all_log_probs : list spec_float) (acc : list (list spec_float)) :
  Part001.organize perturbation_idx all_log_probs acc js
  = Part000.organize perturbation_idx all_log_probs acc js.
Proof.
  revert acc. induction js as [|j js IH]; intros acc; [reflexivity|].
  cbn [Part000.organize Part001.organize].
  destruct (index (if perturbation_idx =? 0 then acc ++ [[]] else acc) j)
    as [e|row]; [reflexivity|].
  cbn [bind]. destruct (index all_log_probs j) as [e|v]; [reflexivity|].
  cbn [bind]. apply IH.
Qed.

(** The first round opens one list per text. *)
Lemma organize_first (all_log_probs : list spec_float) (m k : nat)
    (acc : list (list spec_float)) :
  length acc = k -> k + m <= length all_log_probs ->
  Part000.organize 0 all_log_probs acc (seq k m)
  = inr (acc ++ map (fun j => [nth j all_log_probs Fl.zero]) (seq k m)).
Proof.
  revert k acc. induction m as [|m IH]; intros k acc Hk Hlen.
  - simpl. now rewrite app_nil_r.
  - cbn [seq Part000.organize Nat.eqb].
    assert (Hrow : index (acc ++ [[]]) k = inr (@nil spec_float)).
    { unfold index. rewrite nth_error_app2 by lia.
      now rewrite Hk, Nat.sub_diag. }
    rewrite Hrow. cbn [bind].
    rewrite (index_nth all_log_probs Fl.zero) by lia. cbn [bind app].
    rewrite <- Hk, set_item_at.
    rewrite IH.
    + now rewrite <- app_assoc.
    + rewrite length_app. simpl. lia.
    + lia.
Qed.

(** A later round appends one score to every list. *)
Lemma organize_later (all_log_probs : list spec_float) (p : nat)
    (rows pre post : list (list spec_float)) (k : nat) :
  length pre = k -> k + length rows <= length all_log_probs ->
  Part000.organize (S p) all_log_probs (pre ++ rows ++ post)
    (seq k (length rows))
  = inr (pre
         ++ map (fun '(row, j) => row ++ [nth j all_log_probs Fl.zero])
                (combine rows (seq k (length rows)))
         ++ post).
Proof.
  revert pre k. induction rows as [|row rows IH]; intros pre k Hk Hlen.
  - reflexivity.
  - cbn [length seq Part000.organize Nat.eqb combine map].
    assert (Hrow : index (pre ++ (row :: rows) ++ post) k = inr row).
    { unfold index. rewrite nth_error_app2 by lia.
      now rewrite Hk, Nat.sub_diag. }
    rewrite Hrow. cbn [bind].
    cbn [length] in Hlen.
    rewrite (index_nth all_log_probs Fl.zero) by lia. cbn [bind].
    rewrite <- Hk. cbn [app]. rewrite set_item_at.
    replace (pre ++ (row ++ [nth (length pre) all_log_probs Fl.zero])
                 :: rows ++ post)
      with ((pre ++ [row ++ [nth (length pre) all_log_probs Fl.zero]])
            ++ rows ++ post) by now rewrite <- app_assoc.
    rewrite (IH _ (S (length pre))).
    + now rewrite <- app_assoc.
    + rewrite length_app. simpl. lia.
    + lia.
Qed.

Lemma combine_map_seq {A B} (f : nat -> A) (g : A * nat -> B) (l : list nat) :
  map g (combine (map f l) l) = map (fun j => g (f j, j)) l.
Proof. induction l as [|j l IH]; simpl; [reflexivity|now rewrite IH]. Qed.

Lemma organize_first_round (all_log_probs : list spec_float) (n_samples : nat) :
  length all_log_probs = n_samples ->
  Part000.organize 0 all_log_probs [] (seq 0 n_samples)
  = inr (per_text n_samples [all_log_probs]).
Proof.
  intros Hlen. rewrite organize_first by (simpl; lia). reflexivity.
Qed.

Lemma organize_next_round (all_log_probs first : list spec_float)
    (done : list (list spec_float)) (p n_samples : nat) :
  length all_log_probs = n_samples ->
  Part000.organize (S p) all_log_probs (per_text n_samples (first :: done))
    (seq 0 n_samples)
  = inr (per_text n_samples ((first :: done) ++ [all_log_probs])).
Proof.
  intros Hlen.
  set (rows := per_text n_samples (first :: done)).
  assert (Hrows : length rows = n_samples).
  { unfold rows, per_text. now rewrite length_map, length_seq. }
  pose proof (@organize_later all_log_probs p rows [] [] 0 eq_refl) as H.
  rewrite Hrows, app_nil_r in H. cbn [app] in H. rewrite H by lia.
  rewrite app_nil_r. f_equal.
  unfold rows, per_text. cbn [app].
  rewrite (combine_map_seq
             (fun j => map (fun all_log_probs0 => nth j all_log_probs0 Fl.zero)
                           (first :: done))
             (fun '(row, j) => row ++ [nth j all_log_probs Fl.zero])).
  apply map_ext. intros j.
  change (first :: done ++ [all_log_probs])
    with ((first :: done) ++ [all_log_probs]).
  now rewrite map_app.
Qed.

Section Rounds.
Variable G : Type.
Variable round : G -> result (list spec_float * G).
Variable n_samples : nat.
Hypothesis Hround :
  forall g, exists all_log_probs g',
    round g = inr (all_log_probs, g') /\ length all_log_probs = n_samples.

Lemma round_loop_later (rounds_left : nat) :
  forall (p : nat) (first : list spec_float) (done : list (list spec_float))
         (g : G),
  exists rounds g',
    round_scores round g rounds_left = inr (rounds, g')
    /\ length rounds = rounds_left
    /\ Forall (fun all_log_probs => length all_log_probs = n_samples) rounds
    /\ round_loop round n_samples g (per_text n_samples (first :: done))
         (seq (S p) rounds_left)
       = inr (per_text n_samples ((first :: done) ++ rounds), g').
Proof.
  induction rounds_left as [|rounds_left IH]; intros p first done g.
  - exists [], g. rewrite app_nil_r. repeat split. constructor.
  - destruct (Hround g) as (all_log_probs & g1 & Hr & Hlen).
    destruct (IH (S p) first (done ++ [all_log_probs]) g1)
      as (rounds & g2 & Hrs & Hl & HF & Hloop).
    exists (all_log_probs :: rounds), g2.
    cbn [round_scores seq round_loop]. rewrite Hr. cbn [bind]. rewrite Hrs.
    cbn [bind ret length].
    rewrite (@organize_next_round all_log_probs first done p n_samples Hlen). cbn [bind].
    change ((first :: done) ++ [all_log_probs])
      with (first :: (done ++ [all_log_probs])).
    rewrite Hloop.
    repeat split; [now rewrite Hl|now constructor|].
    cbn [app]. now rewrite <- app_assoc.
Qed.

Lemma round_loop_all (rounds_all : nat) (g : G) :
  exists rounds g',
    round_scores round g rounds_all = inr (rounds, g')
    /\ length rounds = rounds_all
    /\ Forall (fun all_log_probs => length all_log_probs = n_samples) rounds
    /\ round_loop round n_samples g [] (seq 0 rounds_all)
       = inr (per_text n_samples rounds, g').
Proof.
  destruct rounds_all as [|rounds_left].
  - exists [], g. repeat split. constructor.
  - destruct (Hround g) as (all_log_probs & g1 & Hr & Hlen).
    destruct (round_loop_later rounds_left 0 all_log_probs [] g1)
      as (rounds & g2 & Hrs & Hl & HF & Hloop).
    exists (all_log_probs :: rounds), g2.
    cbn [round_scores seq round_loop]. rewrite Hr. cbn [bind]. rewrite Hrs.
    cbn [bind ret length].
    rewrite (@organize_first_round all_log_probs n_samples Hlen). cbn [bind].
    rewrite Hloop.
    repeat split; [now rewrite Hl|now constructor].
Qed.
End Rounds.

Lemma perturbation_loop_000 {G} (choose : G -> nat -> nat -> list nat * G)
    (t5_encode : Py.str -> list Z) (eos : Z)
    (t5_generate : G -> list Py.str -> Z -> list Py.str * G)
    (prec emax : Z) (tok : list Py.str -> encoding)
    (pad : Z) (nll : encoding -> list (list spec_float))
    (texts : list Py.str) (n_samples batch_size : nat)
    (idxs : list nat) (g : G) (acc : list (list spec_float)) :
  Part000.perturbation_loop choose t5_encode eos t5_generate prec emax tok
    pad nll g texts n_samples batch_size acc idxs
  = round_loop
      (round_000 choose t5_encode eos t5_generate prec emax tok pad nll
         texts batch_size)
      n_samples g acc idxs.
Proof.
  revert g acc. induction idxs as [|idx rest IH]; intros g acc; [reflexivity|].
  cbn [Part000.perturbation_loop round_loop]. unfold round_000 at 1.
  destruct (Part000.t5_perturbation choose t5_encode eos t5_generate g texts
              batch_size) as [e|[perturbed g1]]; [reflexivity|].
  cbn [bind].
  destruct (Part000.batch_average_log_prob prec emax tok pad nll perturbed
              batch_size) as [e|scores]; [reflexivity|].
  cbn [bind ret].
  destruct (Part000.organize idx scores acc (seq 0 n_samples)) as [e|acc'];
    [reflexivity|].
  cbn [bind]. apply IH.
Qed.

Lemma perturbation_loop_001 {G} (choose : G -> nat -> nat -> list nat * G)
    (t5_encode : Py.str -> list Z)
    (t5_generate : G -> list Py.str -> Z -> list Py.str * G)
    (prec emax : Z) (tok : list Py.str -> encoding)
    (pad : Z) (nll : encoding -> list (list spec_float))
    (texts : list Py.str) (n_samples batch_size : nat)
    (idxs : list nat) (g : G) (acc : list (list spec_float)) :
  Part001.perturbation_loop choose t5_encode t5_generate prec emax tok
    pad nll g texts n_samples batch_size acc idxs
  = round_loop
      (round_001 choose t5_encode t5_generate prec emax tok pad nll
         texts batch_size)
      n_samples g acc idxs.
Proof.
  revert g acc. induction idxs as [|idx rest IH]; intros g acc; [reflexivity|].
  cbn [Part001.perturbation_loop round_loop]. unfold round_001 at 1.
  destruct (Part001.t5_perturbation choose t5_encode t5_generate g texts
              batch_size) as [e|[perturbed g1]]; [reflexivity|].
  cbn [bind].
  destruct (Part001.batch_average_log_prob prec emax tok pad nll perturbed
              batch_size) as [e|scores]; [reflexivity|].
  cbn [bind ret]. rewrite organize_same.
  destruct (Part000.organize idx scores acc (seq 0 n_samples)) as [e|acc'];
    [reflexivity|].
  cbn [bind]. apply IH.
Qed.

(** *** Loops over [range(n)] that index a list *)

Lemma mapM_map {A B C} (f : B -> result C) (h : A -> B) (l : list A) :
  mapM f (map h l) = mapM (fun a => f (h a)) l.
Proof.
  induction l as [|a l IH]; [reflexivity|].
  simpl. destruct (f (h a)); [reflexivity|]. simpl. now rewrite IH.
Qed.

Lemma mapM_seq_shift {B} (f : nat -> result B) (k n : nat) :
  mapM f (seq (S k) n) = mapM (fun j => f (S j)) (seq k n).
Proof. now rewrite <- seq_shift, mapM_map. Qed.

Lemma mapM_index_prefix {A B} (f : A -> B) (data : list A) (n : nat) :
  n <= length data ->
  mapM (fun j => entry <- index data j ;; ret (f entry)) (seq 0 n)
  = inr (map f (firstn n data)).
Proof.
  revert n. induction data as [|a data IH]; intros [|n] Hn;
    try reflexivity; simpl in Hn; [lia|].
  cbn [seq mapM]. rewrite mapM_seq_shift.
  change (index (a :: data) 0) with (@inr exn A a). cbn [bind ret].
  change (mapM (fun j => entry <- index (a :: data) (S j) ;; inr (f entry))
               (seq 0 n))
    with (mapM (fun j => entry <- index data j ;; ret (f entry)) (seq 0 n)).
  rewrite IH by lia. reflexivity.
Qed.

Lemma mapM_index_beyond {A B} (f : A -> B) (data : list A) (n : nat) :
  length data < n ->
  mapM (fun j => entry <- index data j ;; ret (f entry)) (seq 0 n)
  = inl IndexError.
Proof.
  revert n. induction data as [|a data IH]; intros [|n] Hn;
    simpl in Hn; try lia; [reflexivity|].
  cbn [seq mapM]. rewrite mapM_seq_shift.
  change (index (a :: data) 0) with (@inr exn A a). cbn [bind ret].
  change (mapM (fun j => entry <- index (a :: data) (S j) ;; inr (f entry))
               (seq 0 n))
    with (mapM (fun j => entry <- index data j ;; ret (f entry)) (seq 0 n)).
  rewrite IH by lia. reflexivity.
Qed.

Lemma original_texts_000 (data : list record) (n_samples max_length : nat) :
  n_samples <= length data ->
  Part000.original_texts data n_samples max_length
  = inr (map (original_text max_length) (firstn n_samples data)).
Proof. intros H. now apply (mapM_index_prefix (original_text max_length)). Qed.

Lemma original_texts_same (data : list record) (n_samples max_length : nat) :
  Part001.original_texts data n_samples max_length
  = Part000.original_texts data n_samples max_length.
Proof. reflexivity. Qed.

Lemma original_texts_beyond (data : list record) (n_samples max_length : nat) :
  length data < n_samples ->
  Part000.original_texts data n_samples max_length = inl IndexError.
Proof. intros H. now apply (mapM_index_beyond (original_text max_length)). Qed.

(** *** The scorer returns one score per text *)

Section Scores.
Variables prec emax : Z.
Variable computation_tokenizer : list Py.str -> encoding.
Variable pad_token_id : Z.
Variable token_nll : encoding -> list (list spec_float).
Hypothesis Hrows : row_per_text computation_tokenizer token_nll.

Lemma scorer_total_000 (texts : list Py.str) (batch_size : nat) :
  0 < batch_size ->
  exists scores,
    Part000.batch_average_log_prob prec emax computation_tokenizer
      pad_token_id token_nll texts batch_size = inr scores
    /\ length scores = length texts.
Proof.
  intros Hbs. destruct batch_size as [|n]; [lia|].
  eexists. split; [reflexivity|].
  rewrite length_concat_map.
  - now rewrite concat_chunks by lia.
  - intros batch. now apply length_scores_000.
Qed.

Lemma scorer_total_001 (texts : list Py.str) (batch_size : nat) :
  0 < batch_size ->
  exists scores,
    Part001.batch_average_log_prob prec emax computation_tokenizer
      pad_token_id token_nll texts batch_size = inr scores
    /\ length scores = length texts.
Proof.
  intros Hbs. destruct batch_size as [|n]; [lia|].
  cbn [Part001.batch_average_log_prob].
  rewrite (score_batches_001 prec emax pad_token_id Hrows).
  eexists. split; [reflexivity|].
  rewrite length_concat_map.
  - now rewrite concat_chunks by lia.
  - intros batch. now apply length_scores_001.
Qed.
End Scores.

(** *** The driver as a whole *)

Section Driver.
Variable G : Type.
Variable choose : G -> nat -> nat -> list nat * G.
Variable t5_encode : Py.str -> list Z.
Variable t5_eos_token_id : Z.
Variable t5_generate : G -> list Py.str -> Z -> list Py.str * G.
Variables prec emax : Z.
Variable computation_tokenizer : list Py.str -> encoding.
Variable pad_token_id : Z.
Variable token_nll : encoding -> list (list spec_float).
Hypothesis Hok : sampler_ok choose.
Hypothesis Henc : encodes_markers t5_encode.
Hypothesis Hgen : output_per_input t5_generate.
Hypothesis Hrows : row_per_text computation_tokenizer token_nll.

Lemma round_total_000 (texts : list Py.str) (batch_size : nat) (g : G) :
  0 < batch_size ->
  exists all_log_probs g',
    round_000 choose t5_encode t5_eos_token_id t5_generate prec emax
      computation_tokenizer pad_token_id token_nll texts batch_size g
    = inr (all_log_probs, g')
    /\ length all_log_probs = length texts.
Proof.
  intros Hbs. unfold round_000.
  destruct (@t5_perturbation_total_000 _ choose t5_encode t5_eos_token_id
              t5_generate g texts batch_size Hok Henc Hgen Hbs)
    as (perturbed & g1 & -> & Hp).
  cbn [bind].
  destruct (@scorer_total_000 prec emax computation_tokenizer pad_token_id
              token_nll Hrows perturbed batch_size Hbs) as (scores & -> & Hs).
  exists scores, g1. split; [reflexivity|congruence].
Qed.

Lemma round_total_001 (texts : list Py.str) (batch_size : nat) (g : G) :
  0 < batch_size ->
  exists all_log_probs g',
    round_001 choose t5_encode t5_generate prec emax
      computation_tokenizer pad_token_id token_nll texts batch_size g
    = inr (all_log_probs, g')
    /\ length all_log_probs = length texts.
Proof.
  intros Hbs. unfold round_001.
  destruct (@t5_perturbation_total_001 _ choose t5_encode
              t5_generate g texts batch_size Hok Henc Hgen Hbs)
    as (perturbed & g1 & -> & Hp).
  cbn [bind].
  destruct (@scorer_total_001 prec emax computation_tokenizer pad_token_id
              token_nll Hrows perturbed batch_size Hbs) as (scores & -> & Hs).
  exists scores, g1. split; [reflexivity|congruence].
Qed.

Lemma optimized_processing_ok_000 (g : G) (data : list record)
    (n_samples max_length n_perturbations batch_size : nat) :
  0 < batch_size -> n_samples <= length data ->
  let texts := map (original_text max_length) (firstn n_samples data) in
  exists base rounds g',
    Part000.batch_average_log_prob prec emax computation_tokenizer
      pad_token_id token_nll texts batch_size = inr base
    /\ round_scores
         (round_000 choose t5_encode t5_eos_token_id t5_generate prec emax
            computation_tokenizer pad_token_id token_nll texts batch_size)
         g n_perturbations = inr (rounds, g')
    /\ Part000.optimized_processing choose t5_encode t5_eos_token_id
         t5_generate prec emax computation_tokenizer pad_token_id token_nll
         g data n_samples max_length n_perturbations batch_size
       = inr (base, per_text n_samples rounds, g')
    /\ length base = n_samples
    /\ length rounds = n_perturbations
    /\ Forall (fun all_log_probs => length all_log_probs = n_samples) rounds.
Proof.
  intros Hbs Hn texts.
  assert (Htexts : length texts = n_samples).
  { unfold texts. rewrite length_map, length_firstn. lia. }
  destruct (@scorer_total_000 prec emax computation_tokenizer pad_token_id
              token_nll Hrows texts batch_size Hbs) as (base & Hbase & Hlb).
  destruct (@round_loop_all G
              (round_000 choose t5_encode t5_eos_token_id t5_generate prec
                 emax computation_tokenizer pad_token_id token_nll texts
                 batch_size)
              n_samples) with (rounds_all := n_perturbations) (g := g)
    as (rounds & g' & Hrs & Hl & HF & Hloop).
  { intros g0. destruct (round_total_000 texts g0 Hbs) as (s & g1 & E & Hs).
    exists s, g1. split; [exact E|congruence]. }
  exists base, rounds, g'.
  split; [exact Hbase|]. split; [exact Hrs|].
  split; [|split; [congruence|split; assumption]].
  unfold Part000.optimized_processing.
  rewrite (original_texts_000 _ max_length Hn). cbn [bind]. fold texts.
  rewrite Hbase. cbn [bind].
  rewrite perturbation_loop_000, Hloop. reflexivity.
Qed.

Lemma optimized_processing_ok_001 (g : G) (data : list record)
    (num_samples max_length num_perturbation batch_size : nat) :
  0 < batch_size -> num_samples <= length data ->
  let texts := map (original_text max_length) (firstn num_samples data) in
  exists base rounds g',
    Part001.batch_average_log_prob prec emax computation_tokenizer
      pad_token_id token_nll texts batch_size = inr base
    /\ round_scores
         (round_001 choose t5_encode t5_generate prec emax
            computation_tokenizer pad_token_id token_nll texts batch_size)
         g num_perturbation = inr (rounds, g')
    /\ Part001.optimized_processing choose t5_encode
         t5_generate prec emax computation_tokenizer pad_token_id token_nll
         g data num_samples max_length num_perturbation batch_size
       = inr (base, per_text num_samples rounds, g')
    /\ length base = num_samples
    /\ length rounds = num_perturbation
    /\ Forall (fun all_log_probs => length all_log_probs = num_samples) rounds.
Proof.
  intros Hbs Hn texts.
  assert (Htexts : length texts = num_samples).
  { unfold texts. rewrite length_map, length_firstn. lia. }
  destruct (@scorer_total_001 prec emax computation_tokenizer pad_token_id
              token_nll Hrows texts batch_size Hbs) as (base & Hbase & Hlb).
  destruct (@round_loop_all G
              (round_001 choose t5_encode t5_generate prec
                 emax computation_tokenizer pad_token_id token_nll texts
                 batch_size)
              num_samples) with (rounds_all := num_perturbation) (g := g)
    as (rounds & g' & Hrs & Hl & HF & Hloop).
  { intros g0. destruct (round_total_001 texts g0 Hbs) as (s & g1 & E & Hs).
    exists s, g1. split; [exact E|congruence]. }
  exists base, rounds, g'.
  split; [exact Hbase|]. split; [exact Hrs|].
  split; [|split; [congruence|split; assumption]].
  unfold Part001.optimized_processing.
  rewrite original_texts_same, (original_texts_000 _ max_length Hn).
  cbn [bind]. fold texts.
  rewrite Hbase. cbn [bind].
  rewrite perturbation_loop_001, Hloop. reflexivity.
Qed.
End Driver.

(** X8 ([optimized_processing], both notebooks): with well-behaved
    capabilities (a sampler of distinct positions, a token for every
    marker, one infill output and one score row per text), a positive batch
    size and at least [n_samples] entries, the driver never raises.  It
    scores the first [n_samples] entries, each cut to its first
    [max_length] words, and returns their scores together with the scores
    of the perturbation rounds organised by text: list [j] holds the score
    of text [j] in round 0, 1, ... in that order, and there is no list at
    all when the number of rounds is 0. *)
Theorem driver_organizes_scores_by_text :
  forall (G : Type) (choose : G -> nat -> nat -> list nat * G)
         (t5_encode : Py.str -> list Z) (t5_eos_token_id : Z)
         (t5_generate : G -> list Py.str -> Z -> list Py.str * G)
         (prec emax : Z) (computation_tokenizer : list Py.str -> encoding)
         (pad_token_id : Z) (token_nll : encoding -> list (list spec_float))
         (g : G) (data : list record)
         (n_samples max_length n_perturbations batch_size : nat),
    sampler_ok choose -> encodes_markers t5_encode ->
    output_per_input t5_generate ->
    row_per_text computation_tokenizer token_nll ->
    0 < batch_size -> n_samples <= length data ->
    let texts := map (original_text max_length) (firstn n_samples data) in
    (exists base rounds g',
        Part000.batch_average_log_prob prec emax computation_tokenizer
          pad_token_id token_nll texts batch_size = inr base
        /\ round_scores
             (round_000 choose t5_encode t5_eos_token_id t5_generate prec emax
                computation_tokenizer pad_token_id token_nll texts batch_size)
             g n_perturbations = inr (rounds, g')
        /\ Part000.optimized_processing choose t5_encode t5_eos_token_id
             t5_generate prec emax computation_tokenizer pad_token_id
             token_nll g data n_samples max_length n_perturbations batch_size
           = inr (base, per_text n_samples rounds, g')
        /\ length base = n_samples
        /\ length rounds = n_perturbations
        /\ Forall (fun all_log_probs => length all_log_probs = n_samples)
             rounds)
    /\ (exists base rounds g',
           Part001.batch_average_log_prob prec emax computation_tokenizer
             pad_token_id token_nll texts batch_size = inr base
           /\ round_scores
                (round_001 choose t5_encode t5_generate prec emax
                   computation_tokenizer pad_token_id token_nll texts
                   batch_size)
                g n_perturbations = inr (rounds, g')
           /\ Part001.optimized_processing choose t5_encode
                t5_generate prec emax computation_tokenizer pad_token_id
                token_nll g data n_samples max_length n_perturbations
                batch_size
              = inr (base, per_text n_samples rounds, g')
           /\ length base = n_samples
           /\ length rounds = n_perturbations
           /\ Forall (fun all_log_probs => length all_log_probs = n_samples)
                rounds).
Proof.
  intros G choose t5_encode eos t5_generate prec emax tok pad nll g data
         n_samples max_length n_perturbations batch_size
         Hok Henc Hgen Hrows Hbs Hn texts.
  split.
  - now apply optimized_processing_ok_000.
  - now apply optimized_processing_ok_001.
Qed.

Lemma driver_organizes_scores_by_text_witness :
  let texts := map (original_text 50) (firstn 2 sample_data) in
  (exists base rounds g',
      Part000.batch_average_log_prob BF16.prec BF16.emax tiny_tokenizer 0
        (tiny_nll BF16.prec BF16.emax) texts 2 = inr base
      /\ round_scores
           (round_000 lowest t5_like_encode 1 constant_generate
              BF16.prec BF16.emax tiny_tokenizer 0
              (tiny_nll BF16.prec BF16.emax) texts 2)
           tt 3 = inr (rounds, g')
      /\ Part000.optimized_processing lowest t5_like_encode 1
           constant_generate BF16.prec BF16.emax tiny_tokenizer 0
           (tiny_nll BF16.prec BF16.emax) tt sample_data 2 50 3 2
         = inr (base, per_text 2 rounds, g')
      /\ length base = 2
      /\ length rounds = 3
      /\ Forall (fun all_log_probs => length all_log_probs = 2) rounds)
  /\ (exists base rounds g',
         Part001.batch_average_log_prob BF16.prec BF16.emax tiny_tokenizer 0
           (tiny_nll BF16.prec BF16.emax) texts 2 = inr base
         /\ round_scores
              (round_001 lowest t5_like_encode constant_generate
                 BF16.prec BF16.emax tiny_tokenizer 0
                 (tiny_nll BF16.prec BF16.emax) texts 2)
              tt 3 = inr (rounds, g')
         /\ Part001.optimized_processing lowest t5_like_encode
              constant_generate BF16.prec BF16.emax tiny_tokenizer 0
              (tiny_nll BF16.prec BF16.emax) tt sample_data 2 50 3 2
            = inr (base, per_text 2 rounds, g')
         /\ length base = 2
         /\ length rounds = 3
         /\ Forall (fun all_log_probs => length all_log_probs = 2) rounds).
Proof.
  apply (@driver_organizes_scores_by_text unit lowest t5_like_encode 1
           constant_generate BF16.prec BF16.emax tiny_tokenizer 0
           (tiny_nll BF16.prec BF16.emax) tt sample_data 2 50 3 2
           lowest_ok t5_like_encode_markers constant_generate_per_input
           (tiny_row_per_text BF16.prec BF16.emax)).
  - lia.
  - simpl. lia.
Defined.

(** X9 ([optimized_processing] in both notebooks, [compute_perplexity]):
    asking for more samples than the data holds raises [IndexError] while
    the list of original texts is built, before any tokenizer or model is
    called. *)
Theorem too_many_samples_raise_index_error :
  forall (G : Type) (choose : G -> nat -> nat -> list nat * G)
         (t5_encode : Py.str -> list Z) (t5_eos_token_id : Z)
         (t5_generate : G -> list Py.str -> Z -> list Py.str * G)
         (prec emax : Z) (computation_tokenizer : list Py.str -> encoding)
         (pad_token_id : Z) (token_nll : encoding -> list (list spec_float))
         (torch_exp : spec_float -> spec_float)
         (g : G) (data : list record)
         (n_samples max_length n_perturbations batch_size : nat),
    length data < n_samples ->
    Part000.optimized_processing choose t5_encode t5_eos_token_id
      t5_generate prec emax computation_tokenizer pad_token_id token_nll
      g data n_samples max_length n_perturbations batch_size
    = inl IndexError
    /\ Part001.optimized_processing choose t5_encode
         t5_generate prec emax computation_tokenizer pad_token_id token_nll
         g data n_samples max_length n_perturbations batch_size
       = inl IndexError
    /\ Part000.compute_perplexity prec emax computation_tokenizer
         pad_token_id token_nll torch_exp data n_samples max_length
       = inl IndexError.
Proof.
  intros G choose t5_encode eos t5_generate prec emax tok pad nll torch_exp
         g data n_samples max_length n_perturbations batch_size Hn.
  unfold Part000.optimized_processing, Part001.optimized_processing,
    Part000.compute_perplexity.
  change (Part001.original_texts data n_samples max_length)
    with (Part000.original_texts data n_samples max_length).
  rewrite (original_texts_beyond _ max_length Hn).
  repeat split.
Qed.

Lemma too_many_samples_raise_index_error_witness :
  Part000.optimized_processing lowest t5_like_encode 1 constant_generate
    BF16.prec BF16.emax tiny_tokenizer 0 (tiny_nll BF16.prec BF16.emax)
    tt sample_data 4 50 3 2
  = inl IndexError
  /\ Part001.optimized_processing lowest t5_like_encode constant_generate
       BF16.prec BF16.emax tiny_tokenizer 0 (tiny_nll BF16.prec BF16.emax)
       tt sample_data 4 50 3 2
     = inl IndexError
  /\ Part000.compute_perplexity BF16.prec BF16.emax tiny_tokenizer 0
       (tiny_nll BF16.prec BF16.emax) (fun x => x) sample_data 4 50
     = inl IndexError.
Proof.
  apply (@too_many_samples_raise_index_error unit lowest t5_like_encode 1
           constant_generate BF16.prec BF16.emax tiny_tokenizer 0
           (tiny_nll BF16.prec BF16.emax) (fun x => x) tt sample_data
           4 50 3 2).
  simpl. lia.
Defined.
(** ** Discrepancy aggregator: the two notebooks side by side *)

Lemma add_zero_l (prec emax : Z) (x : spec_float) :
  same_value (Fl.add prec emax Fl.zero x) x.
Proof.
  destruct x as [s|s| |s m e]; try (left; reflexivity).
  right. destruct s; split; eexists; reflexivity.
Qed.

Lemma sum_from_same_value (prec emax : Z) (l : list spec_float)
    (x x' : spec_float) :
  same_value x x' ->
  same_value (Fl.sum_from prec emax x l) (Fl.sum_from prec emax x' l).
Proof.
  unfold Fl.sum_from. revert x x'.
  induction l as [|t l IH]; intros x x' H; [exact H|].
  simpl. apply IH. now apply add_same_value.
Qed.

Lemma sub_same_value_r (prec emax : Z) (x y y' : spec_float) :
  same_value y y' ->
  same_value (Fl.sub prec emax x y) (Fl.sub prec emax x y').
Proof.
  intros [->|[[s ->] [s' ->]]]; [apply same_value_refl|].
  destruct x as [sx|sx| |sx m e]; try (left; reflexivity).
  right. destruct s, s', sx; split; eexists; reflexivity.
Qed.

(** Builtin [sum] starts from [0] and adds from left to right, and so does
    numpy below 8 elements, from [-0.0]: the totals differ in the sign of a
    zero at most. *)
Lemma py_sum_np_sum (l : list spec_float) :
  length l < 8 -> same_value (Part001.py_sum l) (Np.sum l).
Proof.
  intros Hlen. rewrite (np_sum_short _ Hlen).
  destruct l as [|x r]; [apply same_value_refl|].
  unfold Part001.py_sum, B64.sum_from, left_to_right.
  cbn [Fl.sum_from fold_left].
  apply (sum_from_same_value B64.prec B64.emax r). apply add_zero_l.
Qed.

Lemma discrepancy_at_total (b : spec_float) (t : list spec_float) :
  t <> [] ->
  Part001.discrepancy_at [b] [t] 0
  = inr (B64.sub b (B64.div (Part001.py_sum t) (B64.of_nat (length t)))).
Proof.
  intros Ht. unfold Part001.discrepancy_at.
  cbn [index nth_error bind ret].
  destruct t as [|x r]; [congruence|]. reflexivity.
Qed.

Lemma discrepancy_at_same (b : spec_float) (t : list spec_float) :
  t <> [] ->
  length t < 8 ->
  exists s,
    Part001.discrepancy_at [b] [t] 0 = inr s
    /\ same_value s (Part000.discrepancy_score false b t).
Proof.
  intros Ht Hlen. rewrite (discrepancy_at_total b Ht).
  eexists. split; [reflexivity|].
  unfold Part000.discrepancy_score.
  apply sub_same_value_r. unfold Np.mean.
  apply div_same_value. now apply py_sum_np_sum.
Qed.

Lemma compute_001_cons (b : spec_float) (base : list spec_float)
    (t : list spec_float) (transformed : list (list spec_float)) :
  Part001.compute_detectgpt_discrepancy (b :: base) (t :: transformed)
  = (s <- Part001.discrepancy_at [b] [t] 0 ;;
     rest <- Part001.compute_detectgpt_discrepancy base transformed ;;
     ret (s :: rest)).
Proof.
  unfold Part001.compute_detectgpt_discrepancy.
  cbn [length seq mapM]. rewrite mapM_seq_shift. reflexivity.
Qed.

Lemma compute_001_nil (b : spec_float) (base : list spec_float) :
  Part001.compute_detectgpt_discrepancy (b :: base) [] = inl IndexError.
Proof. reflexivity. Qed.

Lemma compute_001_empty_row (b : spec_float) (base : list spec_float)
    (transformed : list (list spec_float)) :
  Part001.compute_detectgpt_discrepancy (b :: base) ([] :: transformed)
  = inl ZeroDivisionError.
Proof. reflexivity. Qed.

Lemma compute_001_same (base : list spec_float) :
  forall (transformed : list (list spec_float)) (scores : list spec_float),
    Forall (fun perturbed_log_probs => length perturbed_log_probs < 8)
      transformed ->
    Part001.compute_detectgpt_discrepancy base transformed = inr scores ->
    Forall2 same_value scores
      (Part000.compute_detectgpt_discrepancy base transformed false).
Proof.
  induction base as [|b base IH]; intros transformed scores Hshort H.
  - injection H as <-. constructor.
  - destruct transformed as [|t transformed];
      [rewrite compute_001_nil in H; discriminate H|].
    destruct t as [|x r];
      [rewrite compute_001_empty_row in H; discriminate H|].
    inversion Hshort as [|? ? Hlen Hrest_short]; subst.
    rewrite compute_001_cons in H.
    destruct (@discrepancy_at_same b (x :: r)) as (s & Hs & Hsame);
      [discriminate|exact Hlen|].
    rewrite Hs in H. cbn [bind] in H.
    destruct (Part001.compute_detectgpt_discrepancy base transformed)
      as [e|rest] eqn:Hrest; [discriminate H|].
    cbn [bind ret] in H. injection H as <-.
    change (Part000.compute_detectgpt_discrepancy (b :: base)
              ((x :: r) :: transformed) false)
      with (Part000.discrepancy_score false b (x :: r)
            :: Part000.compute_detectgpt_discrepancy base transformed false).
    constructor; [exact Hsame|]. now apply IH.
Qed.

(** X10 ([compute_detectgpt_discrepancy], the two notebooks): on lists of
    fewer than 8 perturbed scores, whenever the plain-Python aggregator
    returns scores, the numpy aggregator without normalisation returns the
    same number of scores for the same input, and each pair of scores is
    the same floating-point value, up to the sign of a zero (builtin [sum]
    starts from [0], so it turns a total of [-0.0] into [0.0]).  From 8
    scores on numpy adds pairwise and the two aggregators can round
    differently: on eight times 0.1 against the base 0.0 the scores
    differ. *)
Theorem aggregators_agree_without_normalization :
  forall (base : list spec_float) (transformed : list (list spec_float))
         (scores : list spec_float),
    Forall (fun perturbed_log_probs => length perturbed_log_probs < 8)
      transformed ->
    Part001.compute_detectgpt_discrepancy base transformed = inr scores ->
    (length scores = length base
     /\ Forall2 same_value scores
          (Part000.compute_detectgpt_discrepancy base transformed false))
    /\ exists score_001 score_000,
        Part001.compute_detectgpt_discrepancy [Fl.zero] [repeat tenth 8]
        = inr [score_001]
        /\ Part000.compute_detectgpt_discrepancy [Fl.zero] [repeat tenth 8]
             false = [score_000]
        /\ ~ same_value score_001 score_000.
Proof.
  intros base transformed scores Hshort H. split; [split|].
  - unfold Part001.compute_detectgpt_discrepancy in H.
    apply mapM_length in H. now rewrite length_seq in H.
  - now apply compute_001_same.
  - eexists. eexists. split; [vm_compute; reflexivity|].
    split; [vm_compute; reflexivity|].
    intros [E|[[s E] _]]; discriminate E.
Qed.

Lemma aggregators_agree_without_normalization_witness :
  (length [B64.of_Z 1; B64.of_Z 0] = 2
   /\ Forall2 same_value [B64.of_Z 1; B64.of_Z 0]
        (Part000.compute_detectgpt_discrepancy
           [B64.of_Z (-2); B64.of_Z 0]
           [[B64.of_Z (-3); B64.of_Z (-3)]; [Fl.neg (B64.of_Z 0)]] false))
  /\ exists score_001 score_000,
      Part001.compute_detectgpt_discrepancy [Fl.zero] [repeat tenth 8]
      = inr [score_001]
      /\ Part000.compute_detectgpt_discrepancy [Fl.zero] [repeat tenth 8]
           false = [score_000]
      /\ ~ same_value score_001 score_000.
Proof.
  apply (@aggregators_agree_without_normalization
           [B64.of_Z (-2); B64.of_Z 0]
           [[B64.of_Z (-3); B64.of_Z (-3)]; [Fl.neg (B64.of_Z 0)]]
           [B64.of_Z 1; B64.of_Z 0]).
  - repeat constructor.
  - vm_compute. reflexivity.
Defined.

Lemma compute_001_short (transformed : list (list spec_float)) :
  forall base : list spec_float,
    length transformed < length base ->
    Forall (fun perturbed_log_probs => perturbed_log_probs <> []) transformed ->
    Part001.compute_detectgpt_discrepancy base transformed = inl IndexError.
Proof.
  induction transformed as [|t transformed IH]; intros base Hlen Hne.
  - destruct base as [|b base]; [simpl in Hlen; lia|reflexivity].
  - destruct base as [|b base]; [simpl in Hlen; lia|].
    inversion Hne as [|? ? Ht Hrest]; subst.
    rewrite compute_001_cons.
    rewrite (discrepancy_at_total b Ht). cbn [bind].
    rewrite IH; [reflexivity| |exact Hrest]. simpl in Hlen. lia.
Qed.

(** X11 ([compute_detectgpt_discrepancy], the two notebooks): when fewer
    lists of perturbed scores than base scores are passed (every list
    non-empty), the plain-Python aggregator raises [IndexError] at the
    first text without a list, while the numpy aggregator, which walks the
    [zip] of the two arguments, raises nothing and returns scores for the
    texts that have a list only. *)
Theorem aggregator_with_missing_lists :
  forall (base : list spec_float) (transformed : list (list spec_float))
         (normalization : bool),
    length transformed < length base ->
    Forall (fun perturbed_log_probs => perturbed_log_probs <> []) transformed ->
    Part001.compute_detectgpt_discrepancy base transformed = inl IndexError
    /\ length (Part000.compute_detectgpt_discrepancy base transformed
                 normalization) = length transformed.
Proof.
  intros base transformed normalization Hlen Hne. split.
  - now apply compute_001_short.
  - rewrite discrepancy_length. lia.
Qed.

Lemma aggregator_with_missing_lists_witness :
  Part001.compute_detectgpt_discrepancy
    [B64.of_Z (-2); B64.of_Z (-4)] [[B64.of_Z (-3); B64.of_Z (-5)]]
  = inl IndexError
  /\ length (Part000.compute_detectgpt_discrepancy
               [B64.of_Z (-2); B64.of_Z (-4)] [[B64.of_Z (-3); B64.of_Z (-5)]]
               true) = 1.
Proof.
  apply (@aggregator_with_missing_lists
           [B64.of_Z (-2); B64.of_Z (-4)] [[B64.of_Z (-3); B64.of_Z (-5)]] true).
  - simpl. lia.
  - constructor; [discriminate|constructor].
Defined.

(** X12 ([optimized_processing] followed by
    [compute_detectgpt_discrepancy], both notebooks): with no perturbation
    round the driver scores the texts, leaves the generator untouched and
    returns an empty list of perturbed scores, not one empty list per text;
    on that result the numpy aggregator returns no score at all, and the
    plain-Python aggregator raises [IndexError]. *)
Theorem no_perturbation_round_gives_no_score :
  forall (G : Type) (choose : G -> nat -> nat -> list nat * G)
         (t5_encode : Py.str -> list Z) (t5_eos_token_id : Z)
         (t5_generate : G -> list Py.str -> Z -> list Py.str * G)
         (prec emax : Z) (computation_tokenizer : list Py.str -> encoding)
         (pad_token_id : Z) (token_nll : encoding -> list (list spec_float))
         (g : G) (data : list record)
         (n_samples max_length batch_size : nat) (normalization : bool),
    row_per_text computation_tokenizer token_nll ->
    0 < batch_size -> 0 < n_samples -> n_samples <= length data ->
    (exists base,
        Part000.optimized_processing choose t5_encode t5_eos_token_id
          t5_generate prec emax computation_tokenizer pad_token_id token_nll
          g data n_samples max_length 0 batch_size = inr (base, [], g)
        /\ length base = n_samples
        /\ Part000.compute_detectgpt_discrepancy base [] normalization = [])
    /\ (exists base,
           Part001.optimized_processing choose t5_encode
             t5_generate prec emax computation_tokenizer pad_token_id
             token_nll g data n_samples max_length 0 batch_size
           = inr (base, [], g)
           /\ length base = n_samples
           /\ Part001.compute_detectgpt_discrepancy base [] = inl IndexError).
Proof.
  intros G choose t5_encode eos t5_generate prec emax tok pad nll g data
         n_samples max_length batch_size normalization Hrows Hbs Hpos Hn.
  set (texts := map (original_text max_length) (firstn n_samples data)).
  assert (Htexts : length texts = n_samples).
  { unfold texts. rewrite length_map, length_firstn. lia. }
  split.
  - destruct (@scorer_total_000 prec emax tok pad nll Hrows texts batch_size
                Hbs) as (base & Hbase & Hlb).
    exists base. split; [|split; [congruence|]].
    + unfold Part000.optimized_processing.
      rewrite (original_texts_000 _ max_length Hn). cbn [bind]. fold texts.
      rewrite Hbase. reflexivity.
    + unfold Part000.compute_detectgpt_discrepancy.
      now rewrite combine_nil.
  - destruct (@scorer_total_001 prec emax tok pad nll Hrows texts batch_size
                Hbs) as (base & Hbase & Hlb).
    exists base. split; [|split; [congruence|]].
    + unfold Part001.optimized_processing.
      change (Part001.original_texts data n_samples max_length)
        with (Part000.original_texts data n_samples max_length).
      rewrite (original_texts_000 _ max_length Hn). cbn [bind]. fold texts.
      rewrite Hbase. reflexivity.
    + destruct base as [|b base]; [simpl in Hlb; lia|reflexivity].
Qed.

Lemma no_perturbation_round_gives_no_score_witness :
  (exists base,
      Part000.optimized_processing lowest t5_like_encode 1 constant_generate
        BF16.prec BF16.emax tiny_tokenizer 0 (tiny_nll BF16.prec BF16.emax)
        tt sample_data 3 50 0 2 = inr (base, [], tt)
      /\ length base = 3
      /\ Part000.compute_detectgpt_discrepancy base [] true = [])
  /\ (exists base,
         Part001.optimized_processing lowest t5_like_encode constant_generate
           BF16.prec BF16.emax tiny_tokenizer 0 (tiny_nll BF16.prec BF16.emax)
           tt sample_data 3 50 0 2 = inr (base, [], tt)
         /\ length base = 3
         /\ Part001.compute_detectgpt_discrepancy base [] = inl IndexError).
Proof.
  apply (@no_perturbation_round_gives_no_score unit lowest t5_like_encode 1
           constant_generate BF16.prec BF16.emax tiny_tokenizer 0
           (tiny_nll BF16.prec BF16.emax) tt sample_data 3 50 2 true
           (tiny_row_per_text BF16.prec BF16.emax)).
  - lia.
  - lia.
  - simpl. lia.
Defined.

(** *** NaN and empty lists in the numpy aggregator *)

Lemma np_sum_all_nan (l : list spec_float) :
  l <> [] -> Forall (fun x => x = S754_nan) l -> Np.sum l = S754_nan.
Proof.
  intros Hne Hall. apply np_sum_with_nan.
  destruct l as [|x l]; [congruence|]. inversion Hall; subst. now left.
Qed.

Lemma std_with_nan (t : list spec_float) :
  In S754_nan t -> Np.std_ddof1 t = S754_nan.
Proof.
  intros Hin. unfold Np.std_ddof1, Np.mean.
  rewrite (np_sum_with_nan _ Hin).
  change (B64.div S754_nan (B64.of_nat (length t))) with S754_nan.
  rewrite map_map.
  rewrite np_sum_all_nan; [reflexivity| |].
  - destruct t; [destruct Hin|discriminate].
  - apply Forall_map, Forall_forall. intros v _.
    assert (Hs : B64.sub v S754_nan = S754_nan) by now destruct v.
    now rewrite Hs.
Qed.

(** X18 ([compute_detectgpt_discrepancy] of the first notebook): the numpy
    aggregator never raises on a list of perturbed scores that is empty or
    holds a NaN; without normalisation the score of that text is NaN, and
    with normalisation it is exactly [0.0], because the standard deviation
    is then NaN and [sigma > 0] is false. *)
Theorem nan_scores_become_zero_when_normalized :
  forall (b : spec_float) (t : list spec_float),
    t = [] \/ In S754_nan t ->
    Part000.compute_detectgpt_discrepancy [b] [t] false = [S754_nan]
    /\ Part000.compute_detectgpt_discrepancy [b] [t] true = [Fl.zero].
Proof.
  intros b t Ht.
  unfold Part000.compute_detectgpt_discrepancy, Part000.discrepancy_score.
  cbn [combine map].
  assert (Hmean : Np.mean t = S754_nan).
  { destruct Ht as [->|Hin]; [reflexivity|].
    unfold Np.mean. now rewrite (np_sum_with_nan _ Hin). }
  assert (Hstd : Np.std_ddof1 t = S754_nan).
  { destruct Ht as [->|Hin]; [reflexivity|now apply std_with_nan]. }
  rewrite Hmean, Hstd.
  assert (Hs : B64.sub b S754_nan = S754_nan) by now destruct b.
  rewrite Hs. split; reflexivity.
Qed.

Lemma nan_scores_become_zero_when_normalized_witness :
  Part000.compute_detectgpt_discrepancy
    [B64.of_Z (-2)] [[B64.of_Z (-3); S754_nan; B64.of_Z (-4)]] false
  = [S754_nan]
  /\ Part000.compute_detectgpt_discrepancy
       [B64.of_Z (-2)] [[B64.of_Z (-3); S754_nan; B64.of_Z (-4)]] true
     = [Fl.zero].
Proof.
  apply (@nan_scores_become_zero_when_normalized
           (B64.of_Z (-2)) [B64.of_Z (-3); S754_nan; B64.of_Z (-4)]).
  right. simpl. auto.
Defined.
(** ** Perplexity *)

Lemma neg_involutive (x : spec_float) : Fl.neg (Fl.neg x) = x.
Proof. destruct x as [s|s| |s m e]; simpl; now rewrite ?negb_involutive. Qed.

Lemma accumulate_zeros (prec emax : Z) (terms : list spec_float) :
  Forall (fun t => t = Fl.zero) terms ->
  accumulate prec emax terms = Fl.zero.
Proof.
  unfold accumulate. induction 1 as [|t terms -> _ IH]; [reflexivity|].
  simpl. exact IH.
Qed.

Lemma no_valid_flag (flags : list bool) :
  length (filter (fun b => b) flags) = 0 ->
  forall p b, nth_error flags p = Some b -> b = false.
Proof.
  induction flags as [|f flags IH]; intros H p b Hp.
  - destruct p; discriminate Hp.
  - destruct f; simpl in H; [discriminate H|].
    destruct p as [|p]; simpl in Hp; [now inversion Hp|].
    now apply (IH H p).
Qed.

Lemma all_terms_zero (terms : list spec_float) :
  (forall p, p < length terms -> nth_error terms p = Some Fl.zero) ->
  Forall (fun t => t = Fl.zero) terms.
Proof.
  induction terms as [|t terms IH]; intros H; [constructor|].
  constructor.
  - specialize (H 0 (Nat.lt_0_succ _)). simpl in H. now inversion H.
  - apply IH. intros p Hp. apply (H (S p)). simpl. lia.
Qed.

Section Perplexity.
Variables prec emax : Z.
Variable computation_tokenizer : list Py.str -> encoding.
Variable pad_token_id : Z.
Variable token_nll : encoding -> list (list spec_float).
Variable torch_exp : spec_float -> spec_float.

Lemma compute_perplexity_rows (data : list record)
    (n_samples max_length : nat) :
  n_samples <= length data ->
  let texts := map (original_text max_length) (firstn n_samples data) in
  let inputs := computation_tokenizer texts in
  exists perplexities,
    Part000.compute_perplexity prec emax computation_tokenizer pad_token_id
      token_nll torch_exp data n_samples max_length = inr perplexities
    /\ forall j ids mask nll_row,
        nth_error (input_ids inputs) j = Some ids ->
        nth_error (attention_mask inputs) j = Some mask ->
        nth_error (token_nll inputs) j = Some nll_row ->
        nth_error perplexities j
        = Some (torch_exp
                  (row_sentence_loss prec emax pad_token_id ids mask nll_row)).
Proof.
  intros Hn texts inputs. unfold Part000.compute_perplexity.
  rewrite (original_texts_000 _ max_length Hn). cbn [bind ret].
  fold texts. fold inputs.
  eexists. split; [reflexivity|].
  intros j ids mask nll_row Hi Hm Hnll.
  pose proof (nth_error_drop_first _ _ Hm) as Hsm.
  pose proof (@loss_row pad_token_id _ _ _ _ _ Hi Hnll) as Hl.
  assert (Hc : nth_error (map int_sum (drop_first (attention_mask inputs))) j
               = Some (int_sum (tl mask))) by now apply map_nth_error.
  assert (Hs : nth_error
                 (row_sums prec emax
                    (mul_mask prec emax
                       (cross_entropy_loss pad_token_id (token_nll inputs)
                          (drop_first (input_ids inputs)))
                       (drop_first (attention_mask inputs)))) j
               = Some (Fl.round prec emax
                         (accumulate prec emax
                            (masked_row_losses prec emax
                               (row_losses pad_token_id nll_row ids) mask)))).
  { unfold row_sums.
    apply (map_nth_error (fun row => Fl.round prec emax (accumulate prec emax row))).
    unfold mul_mask. apply (nth_error_map2 _ _ _ _ Hl Hsm). }
  apply map_nth_error.
  rewrite (nth_error_map2 _ _ _ _ Hs Hc). reflexivity.
Qed.
End Perplexity.

Lemma tiny_data_well_formed :
  well_formed 0
    (tiny_tokenizer (map (original_text 50) (firstn 3 tiny_data)))
    (tiny_nll BF16.prec BF16.emax
       (tiny_tokenizer (map (original_text 50) (firstn 3 tiny_data)))).
Proof. exact tiny_batch_well_formed. Qed.

(** X13 ([compute_perplexity] against [batch_average_log_prob] of the same
    notebook): the perplexity of a text is [exp] of minus the log
    probability that the scorer gives the text in the same batch, for
    every text with at least one valid token after the shift.  For a text
    with none (an empty or one-token text) the scorer returns [-inf], but
    the perplexity is [exp(0)]: the clamp makes the mean loss [0/1], and
    [compute_perplexity] has no override for such rows. *)
Theorem perplexity_against_log_prob :
  forall (prec emax : Z) (computation_tokenizer : list Py.str -> encoding)
         (pad_token_id : Z) (token_nll : encoding -> list (list spec_float))
         (torch_exp : spec_float -> spec_float)
         (data : list record) (n_samples max_length : nat),
    n_samples <= length data ->
    let texts := map (original_text max_length) (firstn n_samples data) in
    let inputs := computation_tokenizer texts in
    well_formed pad_token_id inputs (token_nll inputs) ->
    Fl.div prec emax Fl.zero (Fl.of_Z prec emax 1) = Fl.zero ->
    exists perplexities,
      Part000.compute_perplexity prec emax computation_tokenizer pad_token_id
        token_nll torch_exp data n_samples max_length = inr perplexities
      /\ forall j mask,
          nth_error (attention_mask inputs) j = Some mask ->
          exists score perplexity,
            nth_error (Part000.score_batch prec emax computation_tokenizer
                         pad_token_id token_nll texts) j = Some score
            /\ nth_error perplexities j = Some perplexity
            /\ (0 < valid_count mask -> perplexity = torch_exp (Fl.neg score))
            /\ (valid_count mask = 0 ->
                score = Fl.neg_inf /\ perplexity = torch_exp Fl.zero).
Proof.
  intros prec emax tok pad nll torch_exp data n_samples max_length Hn
         texts inputs Hwf Hone.
  destruct (@compute_perplexity_rows prec emax tok pad nll torch_exp data
              n_samples max_length Hn) as (perplexities & Hrun & Hrows).
  fold texts in Hrows. fold inputs in Hrows.
  exists perplexities. split; [exact Hrun|].
  intros j mask Hm.
  pose proof (wf_mask_rows Hwf) as Hrows_m.
  pose proof (wf_nll_rows Hwf) as Hrows_n.
  assert (Hj : j < length (attention_mask inputs)).
  { apply nth_error_Some. congruence. }
  destruct (nth_error (input_ids inputs) j) as [ids|] eqn:Hi;
    [|apply nth_error_None in Hi; lia].
  destruct (nth_error (nll inputs) j) as [nll_row|] eqn:Hnll;
    [|apply nth_error_None in Hnll; lia].
  pose proof (@score_batch_row_000 prec emax tok pad nll texts
                j ids mask nll_row Hi Hm Hnll) as H000.
  exists (row_log_prob_000 prec emax pad ids mask nll_row),
    (torch_exp (row_sentence_loss prec emax pad ids mask nll_row)).
  split; [exact H000|]. split; [now apply Hrows|].
  destruct Hwf as [_ _ Hcols Hbits Hpad].
  destruct (Hcols j ids mask nll_row Hi Hm Hnll) as [Hlm Hln].
  assert (Hmask : Forall (fun m => m = 0%Z \/ m = 1%Z) mask).
  { rewrite Forall_forall in Hbits. apply Hbits.
    eapply nth_error_In; eauto. }
  assert (Hc : int_sum (tl mask) = Z.of_nat (valid_count mask))
    by now apply int_sum_valid_count.
  unfold row_log_prob_000, row_sentence_loss. rewrite Hc. split.
  - intros Hpos.
    destruct (Z.eqb_spec (Z.of_nat (valid_count mask)) 0) as [E|_]; [lia|].
    now rewrite neg_involutive.
  - intros Hzero. rewrite Hzero. cbn [Z.of_nat Z.eqb Z.max Z.compare].
    split; [reflexivity|]. f_equal.
    rewrite accumulate_zeros; [exact Hone|].
    apply all_terms_zero. intros p Hp.
    assert (Hflags : length (valid_flags mask) = length (tl ids)).
    { unfold valid_flags. rewrite length_map.
      destruct mask, ids; simpl in *; lia. }
    assert (Hterms : length (masked_row_losses prec emax
                               (row_losses pad nll_row ids) mask)
                     = length (valid_flags mask)).
    { unfold masked_row_losses, row_losses. rewrite !length_map2.
      unfold valid_flags in *. rewrite length_map in *. lia. }
    apply padding_term_is_zero; auto.
    + intros q Hq. eapply Hpad; eauto.
    + destruct (nth_error (valid_flags mask) p) as [b|] eqn:Hb;
        [|apply nth_error_None in Hb; lia].
      f_equal. eapply no_valid_flag; [exact Hzero|exact Hb].
Qed.

Lemma perplexity_against_log_prob_witness :
  let texts := map (original_text 50) (firstn 3 tiny_data) in
  let inputs := tiny_tokenizer texts in
  exists perplexities,
    Part000.compute_perplexity BF16.prec BF16.emax tiny_tokenizer 0
      (tiny_nll BF16.prec BF16.emax) (fun x => x) tiny_data 3 50
    = inr perplexities
    /\ forall j mask,
        nth_error (attention_mask inputs) j = Some mask ->
        exists score perplexity,
          nth_error (Part000.score_batch BF16.prec BF16.emax tiny_tokenizer 0
                       (tiny_nll BF16.prec BF16.emax) texts) j = Some score
          /\ nth_error perplexities j = Some perplexity
          /\ (0 < valid_count mask -> perplexity = Fl.neg score)
          /\ (valid_count mask = 0 ->
              score = Fl.neg_inf /\ perplexity = Fl.zero).
Proof.
  apply (@perplexity_against_log_prob BF16.prec BF16.emax tiny_tokenizer 0
           (tiny_nll BF16.prec BF16.emax) (fun x => x) tiny_data 3 50).
  - simpl. lia.
  - exact tiny_data_well_formed.
  - reflexivity.
Defined.
(** ** Span masker: what every draw leaves *)

Lemma mask_step_last (pre : list Py.str) (a : Py.str) (i : nat) :
  Part001.mask_step (pre ++ [a]) i (length pre) = inr (pre ++ [extra_id i]).
Proof.
  unfold Part001.mask_step.
  assert (H1 : (length pre <? length (pre ++ [a])) = true).
  { apply Nat.ltb_lt. rewrite length_app. simpl. lia. }
  rewrite H1, length_set_item.
  assert (H2 : (length pre + 1 <? length (pre ++ [a])) = false).
  { apply Nat.ltb_ge. rewrite length_app. simpl. lia. }
  now rewrite H2, set_item_at.
Qed.

Lemma split_at {A} (l : list A) (idx : nat) :
  idx < length l -> exists a b, l = firstn idx l ++ a :: b /\ b = skipn (S idx) l.
Proof.
  revert idx. induction l as [|x l IH]; intros idx H; simpl in H; [lia|].
  destruct idx as [|idx].
  - now exists x, l.
  - destruct (IH idx) as (a & b & E & Hb); [lia|].
    exists a, b. simpl. split; [now rewrite <- E|exact Hb].
Qed.

Lemma count_marker_free (words : list Py.str) (j : nat) :
  marker_free_words words ->
  count_occ (list_eq_dec ascii_dec) words (extra_id j) = 0.
Proof. intros H. apply count_occ_not_In. apply H. Qed.

Lemma count_extra_id_cons (i j : nat) (l : list Py.str) :
  count_occ (list_eq_dec ascii_dec) (extra_id i :: l) (extra_id j)
  = (if i =? j then 1 else 0)
    + count_occ (list_eq_dec ascii_dec) l (extra_id j).
Proof.
  cbn [count_occ].
  destruct (list_eq_dec ascii_dec (extra_id i) (extra_id j)) as [E|E].
  - apply extra_id_inj in E. subst j. now rewrite Nat.eqb_refl.
  - destruct (Nat.eqb_spec i j) as [->|_]; [congruence|reflexivity].
Qed.

(** One mask at a position inside the untouched words: the words before the
    position stay untouched, the placeholder heads what follows, and what
    follows it has lost one word. *)
Lemma mask_step_inside (pre post : list Py.str) (i idx : nat) :
  idx < length pre ->
  exists post',
    Part001.mask_step (pre ++ post) i idx
    = inr (firstn idx pre ++ extra_id i :: post')
    /\ (forall w, count_occ (list_eq_dec ascii_dec) post' w
                  <= count_occ (list_eq_dec ascii_dec)
                       (skipn (S idx) pre ++ post) w)
    /\ length (skipn (S idx) pre ++ post) <= S (length post')
    /\ length post' <= length (skipn (S idx) pre ++ post).
Proof.
  intros Hidx. destruct (split_at pre Hidx) as (a & b & E & Hb).
  assert (Hlen : length (firstn idx pre) = idx) by (rewrite length_firstn; lia).
  rewrite <- Hb.
  remember (firstn idx pre) as p eqn:Hp. clear Hp Hb Hidx.
  subst pre idx. rewrite <- app_assoc. cbn [app].
  destruct (b ++ post) as [|x rest] eqn:Erest.
  - exists []. rewrite mask_step_last. repeat split; simpl; lia.
  - exists rest. rewrite mask_step_at. split; [reflexivity|].
    split; [|simpl; lia].
    intros w. cbn [count_occ]. destruct (list_eq_dec ascii_dec x w); lia.
Qed.

Lemma mask_loop_counts (mask_indices : list nat) :
  forall (pre post : list Py.str) (i : nat),
    descending_below (length pre) mask_indices ->
    marker_free_words pre ->
    (forall j, count_occ (list_eq_dec ascii_dec) post (extra_id j) <= 1) ->
    (forall j, i <= j ->
               count_occ (list_eq_dec ascii_dec) post (extra_id j) = 0) ->
    exists pre' post',
      Part001.mask_loop (pre ++ post) i mask_indices = inr (pre' ++ post')
      /\ marker_free_words pre'
      /\ (forall j, count_occ (list_eq_dec ascii_dec) post' (extra_id j) <= 1)
      /\ (forall j, i + length mask_indices <= j ->
                    count_occ (list_eq_dec ascii_dec) post' (extra_id j) = 0)
      /\ (mask_indices <> [] ->
          exists t, post' = extra_id (i + length mask_indices - 1) :: t).
Proof.
  induction mask_indices as [|idx rest IH]; intros pre post i Hd Hfree Hone Hnone.
  - exists pre, post. cbn [Part001.mask_loop length]. rewrite Nat.add_0_r.
    repeat split; auto. congruence.
  - destruct Hd as [Hidx Hrest].
    destruct (@mask_step_inside pre post i idx Hidx)
      as (post1 & Hstep & Hcount & _).
    cbn [Part001.mask_loop]. rewrite Hstep. cbn [bind].
    assert (Hlen : length (firstn idx pre) = idx)
      by (rewrite length_firstn; lia).
    destruct (@marker_free_words_part pre idx Hfree) as [Hpre1 _].
    destruct (@marker_free_words_part pre (S idx) Hfree) as [_ Hpre2].
    assert (Hpost1 : forall j,
               count_occ (list_eq_dec ascii_dec) post1 (extra_id j)
               <= count_occ (list_eq_dec ascii_dec) post (extra_id j)).
    { intros j. specialize (Hcount (extra_id j)).
      pose proof (count_marker_free j Hpre2) as Hz.
      unfold Py.str in *. rewrite count_occ_app, Hz in Hcount.
      exact Hcount. }
    assert (Hone1 : forall j,
               count_occ (list_eq_dec ascii_dec) (extra_id i :: post1)
                 (extra_id j) <= 1).
    { intros j. rewrite count_extra_id_cons.
      specialize (Hpost1 j). specialize (Hone j).
      destruct (Nat.eqb_spec i j) as [->|_]; [|lia].
      rewrite (Hnone j (Nat.le_refl j)) in Hpost1. lia. }
    assert (Hnone1 : forall j, S i <= j ->
               count_occ (list_eq_dec ascii_dec) (extra_id i :: post1)
                 (extra_id j) = 0).
    { intros j Hj. rewrite count_extra_id_cons.
      specialize (Hpost1 j). rewrite (Hnone j) in Hpost1 by lia.
      destruct (Nat.eqb_spec i j) as [->|_]; lia. }
    destruct rest as [|idx' rest'].
    + exists (firstn idx pre), (extra_id i :: post1).
      cbn [Part001.mask_loop length].
      replace (i + 1 - 1) with i by lia.
      repeat split; auto.
      * intros j Hj. apply Hnone1. lia.
      * intros _. now exists post1.
    + rewrite <- Hlen in Hrest.
      destruct (IH (firstn idx pre) (extra_id i :: post1) (S i)
                  Hrest Hpre1 Hone1 Hnone1)
        as (pre' & post' & Hloop & Hf' & Hone' & Hnone' & Hhead).
      exists pre', post'. split; [exact Hloop|].
      split; [exact Hf'|]. split; [exact Hone'|]. split.
      * intros j Hj. apply Hnone'. cbn [length] in *. lia.
      * intros _. destruct Hhead as (t & Ht); [discriminate|].
        exists t. rewrite Ht. f_equal. f_equal. cbn [length]. lia.
Qed.

(** The loop on positions that come highest first, each one once, below
    the last word. *)
Lemma mask_loop_any_descending (words : list Py.str) (ds : list nat) :
  marker_free_words words ->
  descending_below (length words - 1) ds ->
  let k := length ds in
  exists masked,
    Part001.mask_loop words 0 ds = inr masked
    /\ length masked <= length words
    /\ length words <= length masked + k
    /\ (forall j, count_occ (list_eq_dec ascii_dec) masked (extra_id j) <= 1)
    /\ (forall j, k <= j ->
                  count_occ (list_eq_dec ascii_dec) masked (extra_id j) = 0)
    /\ (0 < k ->
        count_occ (list_eq_dec ascii_dec) masked (extra_id (k - 1)) = 1).
Proof.
  intros Hfree Hds k.
  set (n := length words - 1) in *.
  assert (Hn : n <= length words) by (unfold n; lia).
  destruct (@mask_loop_descending ds words 0 n Hds Hn)
    as (masked & Hloop & Hle & Hge).
  exists masked.
  split; [exact Hloop|]. split; [exact Hle|]. split; [exact Hge|].
  set (pre := firstn n words).
  set (post := skipn n words).
  assert (Hpre : length pre = n)
    by (unfold pre; rewrite length_firstn; lia).
  destruct (@marker_free_words_part words n Hfree) as [Hfpre Hfpost].
  fold pre in Hfpre. fold post in Hfpost.
  rewrite <- Hpre in Hds.
  destruct (@mask_loop_counts ds pre post 0 Hds Hfpre)
    as (pre' & post' & Hloop' & Hf' & Hone & Hnone & Hhead).
  { intros j. rewrite (count_marker_free j Hfpost). lia. }
  { intros j _. apply (count_marker_free j Hfpost). }
  unfold pre, post in Hloop'. rewrite firstn_skipn, Hloop in Hloop'.
  injection Hloop' as ->. fold k in Hnone, Hhead. cbn [Nat.add] in *.
  assert (Hsum : forall j,
             count_occ (list_eq_dec ascii_dec) (pre' ++ post') (extra_id j)
             = count_occ (list_eq_dec ascii_dec) post' (extra_id j)).
  { intros j. pose proof (count_marker_free j Hf') as Hz.
    unfold Py.str in *. now rewrite count_occ_app, Hz. }
  split; [intros j; rewrite Hsum; apply Hone|].
  split; [intros j Hj; rewrite Hsum; now apply Hnone|].
  intros Hpos. rewrite Hsum.
  destruct Hhead as (t & Ht).
  { intros E. unfold k in Hpos. rewrite E in Hpos. simpl in Hpos. lia. }
  specialize (Hone (k - 1)). rewrite Ht in *.
  rewrite count_extra_id_cons in *. rewrite Nat.eqb_refl in *. lia.
Qed.

(** X14 ([batch_mask_text], the loop over the drawn positions in both
    notebooks): whatever positions are drawn, adjacent ones included, the
    loop keeps this much of the masking invariant.  For words without
    placeholder words and a draw of [k] distinct positions below
    [len(words) - 1], sorted highest first as either notebook sorts it,
    the loop raises nothing, and in the words it leaves no placeholder
    occurs twice, no placeholder of index [k] or more occurs, the last
    placeholder written, of index [k - 1], is always there, and at most
    [k] words are gone. *)
Theorem masker_invariant_for_any_draw :
  forall (words : list Py.str) (picked : list nat),
    marker_free_words words ->
    NoDup picked ->
    Forall (fun idx => idx < length words - 1) picked ->
    let k := length picked in
    exists masked,
      Part000.mask_loop words 0 (rev (Part000.np_sort picked)) = inr masked
      /\ Part001.mask_loop words 0 (Py.sorted_reverse picked) = inr masked
      /\ length masked <= length words
      /\ length words <= length masked + k
      /\ (forall j, count_occ (list_eq_dec ascii_dec) masked (extra_id j) <= 1)
      /\ (forall j, k <= j ->
                    count_occ (list_eq_dec ascii_dec) masked (extra_id j) = 0)
      /\ (0 < k ->
          count_occ (list_eq_dec ascii_dec) masked (extra_id (k - 1)) = 1).
Proof.
  intros words picked Hfree Hnd Hlt k.
  destruct (@mask_loop_any_descending words (Py.sorted_reverse picked) Hfree)
    as (masked & Hloop & Hrest).
  { now apply sorted_reverse_descending. }
  rewrite length_sorted_reverse in Hrest. fold k in Hrest.
  exists masked. rewrite (rev_np_sort Hnd), mask_loop_same.
  split; [exact Hloop|]. split; [exact Hloop|]. exact Hrest.
Qed.

Lemma masker_invariant_for_any_draw_witness :
  exists masked,
    Part000.mask_loop (Py.split (Py.lit "a b c d e")) 0
      (rev (Part000.np_sort [1; 3; 2])) = inr masked
    /\ Part001.mask_loop (Py.split (Py.lit "a b c d e")) 0
         (Py.sorted_reverse [1; 3; 2]) = inr masked
    /\ length masked <= length (Py.split (Py.lit "a b c d e"))
    /\ length (Py.split (Py.lit "a b c d e")) <= length masked + 3
    /\ (forall j, count_occ (list_eq_dec ascii_dec) masked (extra_id j) <= 1)
    /\ (forall j, 3 <= j ->
                  count_occ (list_eq_dec ascii_dec) masked (extra_id j) = 0)
    /\ (0 < 3 ->
        count_occ (list_eq_dec ascii_dec) masked (extra_id (3 - 1)) = 1).
Proof.
  apply (@masker_invariant_for_any_draw (Py.split (Py.lit "a b c d e"))
           [1; 3; 2]).
  - intros j Hin. vm_compute in Hin.
    repeat (destruct Hin as [Hin|Hin]; [discriminate Hin|]). exact Hin.
  - repeat constructor; simpl; intuition lia.
  - vm_compute. repeat constructor.
Defined.
(** ** Span masker: a draw without adjacent positions *)

(** X19 ([batch_mask_text], the loop over the drawn positions in both
    notebooks): for words without placeholder words and a draw of [k]
    distinct positions below [len(words) - 1] of which no two are
    adjacent, sorted highest first as either notebook sorts it, the loop
    leaves each placeholder below [k] exactly once and no other
    placeholder, and one word less per mask. *)
Theorem spaced_draw_keeps_every_placeholder :
  forall (words : list Py.str) (picked : list nat),
    marker_free_words words ->
    NoDup picked ->
    Forall (fun idx => idx < length words - 1) picked ->
    (forall a b, In a picked -> In b picked -> a <> b ->
                 a + 2 <= b \/ b + 2 <= a) ->
    let k := length picked in
    exists masked,
      Part000.mask_loop words 0 (rev (Part000.np_sort picked)) = inr masked
      /\ Part001.mask_loop words 0 (Py.sorted_reverse picked) = inr masked
      /\ length masked + k = length words
      /\ forall j,
          count_occ (list_eq_dec ascii_dec) masked (extra_id j)
          = if j <? k then 1 else 0.
Proof.
  intros words picked Hfree Hnd Hlt Hfar k.
  assert (Hsp : spaced_below (length words) (Py.sorted_reverse picked)).
  { apply sorted_reverse_spaced; [|exact Hnd|exact Hfar].
    eapply Forall_impl; [|exact Hlt]. intros i Hi. simpl in Hi. lia. }
  destruct (@masking_invariant_when_spaced _ _ Hfree Hsp)
    as (masked & H0 & H1 & Hl & Hc).
  rewrite length_sorted_reverse in Hl, Hc.
  exists masked. rewrite (rev_np_sort Hnd). auto.
Qed.

Lemma spaced_draw_keeps_every_placeholder_witness :
  exists masked,
    Part000.mask_loop (Py.split (Py.lit "a b c d e")) 0
      (rev (Part000.np_sort [0; 3])) = inr masked
    /\ Part001.mask_loop (Py.split (Py.lit "a b c d e")) 0
         (Py.sorted_reverse [0; 3]) = inr masked
    /\ length masked + 2 = length (Py.split (Py.lit "a b c d e"))
    /\ forall j,
        count_occ (list_eq_dec ascii_dec) masked (extra_id j)
        = if j <? 2 then 1 else 0.
Proof.
  apply (@spaced_draw_keeps_every_placeholder
           (Py.split (Py.lit "a b c d e")) [0; 3]).
  - intros j Hin. vm_compute in Hin.
    repeat (destruct Hin as [Hin|Hin]; [discriminate Hin|]). exact Hin.
  - repeat constructor; simpl; intuition discriminate.
  - vm_compute. repeat constructor.
  - simpl. intros a b [<-|[<-|[]]] [<-|[<-|[]]] H; try congruence; lia.
Defined.
(** ** The text the driver scores *)

(** X15 ([optimized_processing] and [batch_mask_text], both notebooks):
    the text the driver builds for an entry splits back into exactly the
    first [max_length] words of the entry, so normalising it again changes
    nothing; and as [max_length] is at most the masker's [max_words] (50
    against 370 by default) the masker's own truncation never cuts: the
    words it masks are the words the driver kept. *)
Theorem driver_text_round_trip :
  forall (entry : record) (max_length max_words : nat),
    max_length <= max_words ->
    Py.split (original_text max_length entry)
    = firstn max_length (Py.split (record_text entry))
    /\ normalized (original_text max_length entry)
       = original_text max_length entry
    /\ truncate max_words (Py.split (original_text max_length entry))
       = firstn max_length (Py.split (record_text entry))
    /\ unmasked max_words (original_text max_length entry)
       = original_text max_length entry.
Proof.
  intros entry max_length max_words Hle.
  assert (Hsplit : Py.split (original_text max_length entry)
                   = firstn max_length (Py.split (record_text entry))).
  { unfold original_text. apply split_join, firstn_words, split_words. }
  assert (Ht : truncate max_words (Py.split (original_text max_length entry))
               = firstn max_length (Py.split (record_text entry))).
  { rewrite Hsplit. apply truncate_short. rewrite length_firstn. lia. }
  split; [exact Hsplit|]. split; [|split; [exact Ht|]].
  - unfold normalized. now rewrite Hsplit.
  - unfold unmasked. now rewrite Ht.
Qed.

Lemma driver_text_round_trip_witness :
  Py.split (original_text 5 sample_entry)
  = firstn 5 (Py.split (record_text sample_entry))
  /\ normalized (original_text 5 sample_entry) = original_text 5 sample_entry
  /\ truncate 370 (Py.split (original_text 5 sample_entry))
     = firstn 5 (Py.split (record_text sample_entry))
  /\ unmasked 370 (original_text 5 sample_entry)
     = original_text 5 sample_entry.
Proof.
  apply (@driver_text_round_trip sample_entry 5 370).
  lia.
Defined.
(** ** Placeholders that no fill replaces *)

Lemma in_join_occurs (sep w : Py.str) (words : list Py.str) :
  In w words -> occurs w (Py.join sep words).
Proof.
  induction words as [|x rest IH]; [intros []|].
  destruct rest as [|y rest'].
  - intros [<-|[]]. exists [], []. now rewrite app_nil_r.
  - change (Py.join sep (x :: y :: rest'))
      with (x ++ sep ++ Py.join sep (y :: rest')).
    intros [<-|Hin].
    + now exists [], (sep ++ Py.join sep (y :: rest')).
    + destruct (IH Hin) as (a & b & E).
      exists (x ++ sep ++ a), b. rewrite E. now rewrite <- !app_assoc.
Qed.

(** X16 ([batch_mask_text] followed by [batch_apply_extracted_fills], both
    notebooks): when the masking loop has run on a draw of [k > 0]
    distinct positions (below [len(words) - 1], on words without
    placeholder words) and fewer fills than masks come back (the model
    stopped early, or a mask was lost to an adjacent one and the stop token
    came too soon), the perturbed text still holds the placeholder of the
    last mask, [<extra_id_{k-1}>]: fills are matched to placeholders by
    their position in the list, and no fill reaches that index. *)
Theorem too_few_fills_leave_a_placeholder :
  forall (words : list Py.str) (picked : list nat),
    marker_free_words words ->
    NoDup picked ->
    Forall (fun idx => idx < length words - 1) picked ->
    let k := length picked in
    0 < k ->
    exists masked,
      Part000.mask_loop words 0 (rev (Part000.np_sort picked)) = inr masked
      /\ Part001.mask_loop words 0 (Py.sorted_reverse picked) = inr masked
      /\ forall fills perturbed,
          length fills < k ->
          (Part000.batch_apply_extracted_fills
             [Py.join (Py.lit " ") masked] [fills] = [perturbed]
           \/ Part001.batch_apply_extracted_fills
                [Py.join (Py.lit " ") masked] [fills] = [perturbed]) ->
          occurs (extra_id (k - 1)) perturbed.
Proof.
  intros words picked Hfree Hnd Hlt k Hpos.
  destruct (@mask_loop_any_descending words (Py.sorted_reverse picked) Hfree)
    as (masked & E1 & _ & _ & _ & _ & Hlast).
  { now apply sorted_reverse_descending. }
  rewrite length_sorted_reverse in Hlast. fold k in Hlast.
  exists masked. rewrite (rev_np_sort Hnd), mask_loop_same.
  split; [exact E1|]. split; [exact E1|].
  intros fills perturbed Hfills Happly.
  assert (Hin : In (extra_id (k - 1)) masked).
  { apply (count_occ_In (list_eq_dec ascii_dec)).
    pose proof (Hlast Hpos) as Hc. unfold k, Py.str in *. lia. }
  pose proof (@in_join_occurs (Py.lit " ") _ _ Hin) as Hocc.
  assert (Hloop : occurs (extra_id (k - 1))
                    (Part001.fill_loop 0 (Py.join (Py.lit " ") masked) fills)).
  { apply fill_loop_keeps_marker; [lia|exact Hocc]. }
  destruct Happly as [Ha|Ha].
  - unfold Part000.batch_apply_extracted_fills, map2 in Ha. cbn in Ha.
    destruct fills as [|fill rest]; injection Ha as <-; [exact Hocc|].
    unfold Part000.replace_masks. rewrite replace_masks_from_fill_loop.
    exact Hloop.
  - unfold Part001.batch_apply_extracted_fills, map2 in Ha. cbn in Ha.
    destruct fills as [|fill rest]; injection Ha as <-; [exact Hocc|].
    exact Hloop.
Qed.

Lemma too_few_fills_leave_a_placeholder_witness :
  exists masked,
    Part000.mask_loop (Py.split (Py.lit "a b c d e")) 0
      (rev (Part000.np_sort [1; 3; 2])) = inr masked
    /\ Part001.mask_loop (Py.split (Py.lit "a b c d e")) 0
         (Py.sorted_reverse [1; 3; 2]) = inr masked
    /\ forall fills perturbed,
        length fills < 3 ->
        (Part000.batch_apply_extracted_fills
           [Py.join (Py.lit " ") masked] [fills] = [perturbed]
         \/ Part001.batch_apply_extracted_fills
              [Py.join (Py.lit " ") masked] [fills] = [perturbed]) ->
        occurs (extra_id (3 - 1)) perturbed.
Proof.
  apply (@too_few_fills_leave_a_placeholder (Py.split (Py.lit "a b c d e"))
           [1; 3; 2]).
  - intros j Hin. vm_compute in Hin.
    repeat (destruct Hin as [Hin|Hin]; [discriminate Hin|]). exact Hin.
  - repeat constructor; simpl; intuition lia.
  - vm_compute. repeat constructor.
  - simpl. lia.
Defined.
(** ** From the masker to the infill requester: counting placeholders *)

Lemma startswith_prefix_plain (w : Py.str) :
  ~ In "<"%char w -> Py.startswith extra_id_prefix w = false.
Proof.
  intros H. destruct w as [|c w]; [reflexivity|].
  change extra_id_prefix with ("<"%char :: Py.lit "extra_id_").
  cbn [Py.startswith].
  destruct (Ascii.eqb_spec "<"%char c) as [<-|_]; [|reflexivity].
  exfalso. apply H. now left.
Qed.

Lemma startswith_prefix_marker (j : nat) (s : Py.str) :
  Py.startswith extra_id_prefix (extra_id j ++ s) = true.
Proof. unfold extra_id. rewrite <- app_assoc. apply startswith_app. Qed.

Lemma count_plain (w s : Py.str) :
  ~ In "<"%char w ->
  Py.count_from extra_id_prefix 0 (w ++ s) = Py.count_from extra_id_prefix 0 s.
Proof.
  induction w as [|c w IH]; intros H; [reflexivity|].
  cbn [app Py.count_from].
  assert (Hs : Py.startswith extra_id_prefix (c :: w ++ s) = false).
  { change extra_id_prefix with ("<"%char :: Py.lit "extra_id_").
    cbn [Py.startswith].
    destruct (Ascii.eqb_spec "<"%char c) as [<-|_]; [|reflexivity].
    exfalso. apply H. now left. }
  rewrite Hs. apply IH. intros Hin. apply H. now right.
Qed.

Lemma count_skip (sub u s : Py.str) :
  Py.count_from sub (length u) (u ++ s) = Py.count_from sub 0 s.
Proof.
  induction u as [|c u IH]; [reflexivity|].
  cbn [app length Py.count_from]. exact IH.
Qed.

Lemma count_marker (j : nat) (s : Py.str) :
  Py.count_from extra_id_prefix 0 (extra_id j ++ s)
  = S (Py.count_from extra_id_prefix 0 s).
Proof.
  pose proof (startswith_prefix_marker j s) as Hs.
  rewrite extra_id_head in *. cbn [app] in *.
  cbn [Py.count_from]. rewrite Hs. f_equal.
  unfold marker_body. rewrite <- !app_assoc.
  change (length extra_id_prefix - 1) with (length (Py.lit "extra_id_")).
  rewrite count_skip.
  rewrite app_assoc. apply count_plain.
  intros Hin. apply in_app_or in Hin. destruct Hin as [Hin|Hin].
  - pose proof (of_nat_digits j) as Hd. rewrite Forall_forall in Hd.
    specialize (Hd _ Hin). discriminate Hd.
  - simpl in Hin. destruct Hin as [Hin|[]]. discriminate Hin.
Qed.

Lemma placeholder_count_cons (w : Py.str) (words : list Py.str) :
  placeholder_or_plain w ->
  (exists j, w = extra_id j
             /\ placeholder_count (w :: words) = S (placeholder_count words))
  \/ (~ In "<"%char w
      /\ placeholder_count (w :: words) = placeholder_count words).
Proof.
  intros [(j & ->)|Hplain].
  - left. exists j. split; [reflexivity|].
    unfold placeholder_count. cbn [filter].
    pose proof (startswith_prefix_marker j []) as Hs.
    rewrite app_nil_r in Hs. now rewrite Hs.
  - right. split; [exact Hplain|].
    unfold placeholder_count. cbn [filter].
    now rewrite (startswith_prefix_plain _ Hplain).
Qed.

(** [text.count("<extra_id_")] on a masked text counts its placeholders. *)
Lemma count_join_placeholders (words : list Py.str) :
  Forall placeholder_or_plain words ->
  Py.count (Py.join (Py.lit " ") words) extra_id_prefix
  = placeholder_count words.
Proof.
  unfold Py.count.
  induction 1 as [|w rest Hw Hrest IH]; [reflexivity|].
  assert (Hsp : forall s,
             Py.count_from extra_id_prefix 0 (Py.lit " " ++ s)
             = Py.count_from extra_id_prefix 0 s).
  { intros s. apply count_plain. intros [Hin|[]]. discriminate Hin. }
  assert (Hjoin : Py.count_from extra_id_prefix 0
                    (Py.join (Py.lit " ") (w :: rest))
                  = Py.count_from extra_id_prefix 0
                      (w ++ Py.join (Py.lit " ") rest)).
  { destruct rest as [|w' rest']; [cbn [Py.join]; now rewrite app_nil_r|].
    change (Py.join (Py.lit " ") (w :: w' :: rest'))
      with (w ++ Py.lit " " ++ Py.join (Py.lit " ") (w' :: rest')).
    destruct Hw as [(j & ->)|Hplain].
    - now rewrite !count_marker, Hsp.
    - rewrite (@count_plain w _ Hplain).
      rewrite (@count_plain w (Py.join (Py.lit " ") (w' :: rest')) Hplain).
      apply Hsp. }
  rewrite Hjoin.
  destruct (@placeholder_count_cons w rest Hw) as [(j & -> & ->)|(Hplain & ->)].
  - rewrite count_marker. now rewrite IH.
  - rewrite (@count_plain w _ Hplain). exact IH.
Qed.

Lemma mask_step_inside_eq (pre post : list Py.str) (i idx : nat) :
  idx < length pre ->
  Part001.mask_step (pre ++ post) i idx
  = inr (firstn idx pre ++ extra_id i :: tl (skipn (S idx) pre ++ post)).
Proof.
  intros Hidx. destruct (split_at pre Hidx) as (a & b & E & Hb).
  assert (Hlen : length (firstn idx pre) = idx) by (rewrite length_firstn; lia).
  rewrite <- Hb.
  remember (firstn idx pre) as p eqn:Hp. clear Hp Hb Hidx.
  subst pre idx. rewrite <- app_assoc. cbn [app].
  destruct (b ++ post) as [|x rest] eqn:Erest.
  - apply mask_step_last.
  - apply mask_step_at.
Qed.

Lemma placeholder_count_app (l1 l2 : list Py.str) :
  placeholder_count (l1 ++ l2) = placeholder_count l1 + placeholder_count l2.
Proof. unfold placeholder_count. now rewrite filter_app, length_app. Qed.

Lemma placeholder_count_plain (words : list Py.str) :
  Forall (fun w => ~ In "<"%char w) words -> placeholder_count words = 0.
Proof.
  unfold placeholder_count. induction 1 as [|w words Hw _ IH]; [reflexivity|].
  cbn [filter]. now rewrite (startswith_prefix_plain _ Hw).
Qed.

Lemma placeholder_count_tl (words : list Py.str) :
  placeholder_count (tl words) <= placeholder_count words.
Proof.
  destruct words as [|w words]; [reflexivity|].
  unfold placeholder_count. cbn [tl filter].
  destruct (Py.startswith extra_id_prefix w); simpl; lia.
Qed.

Lemma placeholder_count_marker (j : nat) (words : list Py.str) :
  placeholder_count (extra_id j :: words) = S (placeholder_count words).
Proof.
  unfold placeholder_count. cbn [filter].
  pose proof (startswith_prefix_marker j []) as Hs.
  rewrite app_nil_r in Hs. now rewrite Hs.
Qed.

Lemma plain_is_placeholder_or_plain (words : list Py.str) :
  Forall (fun w => ~ In "<"%char w) words -> Forall placeholder_or_plain words.
Proof. apply Forall_impl. intros w H. now right. Qed.

Lemma Forall_tl {A} (P : A -> Prop) (l : list A) :
  Forall P l -> Forall P (tl l).
Proof. destruct 1; [constructor|assumption]. Qed.

Lemma Forall_firstn {A} (P : A -> Prop) (n : nat) (l : list A) :
  Forall P l -> Forall P (firstn n l).
Proof.
  intros H. rewrite Forall_forall in *. intros x Hx. apply H.
  rewrite <- (firstn_skipn n l). apply in_or_app. now left.
Qed.

Lemma Forall_skipn {A} (P : A -> Prop) (n : nat) (l : list A) :
  Forall P l -> Forall P (skipn n l).
Proof.
  intros H. rewrite Forall_forall in *. intros x Hx. apply H.
  rewrite <- (firstn_skipn n l). apply in_or_app. now right.
Qed.

Lemma mask_loop_placeholders (mask_indices : list nat) :
  forall (pre post : list Py.str) (i : nat),
    descending_below (length pre) mask_indices ->
    Forall (fun w => ~ In "<"%char w) pre ->
    Forall placeholder_or_plain post ->
    placeholder_count post <= i ->
    exists masked,
      Part001.mask_loop (pre ++ post) i mask_indices = inr masked
      /\ Forall placeholder_or_plain masked
      /\ placeholder_count masked <= i + length mask_indices
      /\ (mask_indices <> [] -> 1 <= placeholder_count masked).
Proof.
  induction mask_indices as [|idx rest IH]; intros pre post i Hd Hpre Hpost Hi.
  - exists (pre ++ post). cbn [Part001.mask_loop length].
    split; [reflexivity|]. split.
    + apply Forall_app. split; [now apply plain_is_placeholder_or_plain|auto].
    + rewrite placeholder_count_app, (@placeholder_count_plain _ Hpre).
      split; [lia|congruence].
  - destruct Hd as [Hidx Hrest].
    cbn [Part001.mask_loop]. rewrite (@mask_step_inside_eq pre post i idx Hidx).
    cbn [bind].
    assert (Hlen : length (firstn idx pre) = idx)
      by (rewrite length_firstn; lia).
    set (post1 := tl (skipn (S idx) pre ++ post)).
    assert (Hpost1 : Forall placeholder_or_plain (extra_id i :: post1)).
    { constructor; [left; now exists i|]. apply Forall_tl, Forall_app.
      split; [|exact Hpost].
      now apply plain_is_placeholder_or_plain, Forall_skipn. }
    assert (Hc1 : placeholder_count post1 <= i).
    { unfold post1.
      pose proof (placeholder_count_tl (skipn (S idx) pre ++ post)) as Ht.
      rewrite placeholder_count_app in Ht.
      pose proof (@placeholder_count_plain _ (@Forall_skipn _ _ (S idx) _ Hpre))
        as Hz.
      unfold Py.str in *. lia. }
    rewrite <- Hlen in Hrest.
    destruct (IH (firstn idx pre) (extra_id i :: post1) (S i) Hrest
                (@Forall_firstn _ _ idx _ Hpre) Hpost1)
      as (masked & Hloop & Hok & Hle & Hge).
    { rewrite placeholder_count_marker. lia. }
    exists masked. split; [exact Hloop|]. split; [exact Hok|].
    cbn [length]. split; [lia|]. intros _.
    destruct rest as [|idx' rest']; [|apply Hge; discriminate].
    cbn [Part001.mask_loop] in Hloop. injection Hloop as <-.
    rewrite placeholder_count_app, placeholder_count_marker. lia.
Qed.

(** X17 ([batch_mask_text] feeding [batch_replace_masks], both notebooks):
    for words without ["<"] and a draw of [k] distinct positions below
    [len(words) - 1], the count [text.count("<extra_id_")] that the infill
    requester takes from the masked text is exactly the number of
    placeholders among the words the masking loop leaves; it never exceeds
    the number [k] of masks, and it is at least 1 whenever there is a mask,
    whatever positions were drawn. *)
Theorem requester_counts_the_placeholders :
  forall (words : list Py.str) (picked : list nat),
    Forall (fun w => ~ In "<"%char w) words ->
    NoDup picked ->
    Forall (fun idx => idx < length words - 1) picked ->
    let k := length picked in
    exists masked,
      Part000.mask_loop words 0 (rev (Part000.np_sort picked)) = inr masked
      /\ Part001.mask_loop words 0 (Py.sorted_reverse picked) = inr masked
      /\ Part000.n_expected [Py.join (Py.lit " ") masked]
         = [placeholder_count masked]
      /\ Part001.n_expected [Py.join (Py.lit " ") masked]
         = [placeholder_count masked]
      /\ placeholder_count masked <= k
      /\ (0 < k -> 1 <= placeholder_count masked).
Proof.
  intros words picked Hplain Hnd Hlt k.
  set (n := length words - 1).
  set (ds := Py.sorted_reverse picked).
  assert (Hds : descending_below n ds)
    by now apply sorted_reverse_descending.
  assert (Hdl : length ds = k)
    by (unfold ds; now rewrite length_sorted_reverse).
  set (pre := firstn n words).
  set (post := skipn n words).
  assert (Hpre : length pre = n)
    by (unfold pre, n; rewrite length_firstn; lia).
  rewrite <- Hpre in Hds.
  destruct (@mask_loop_placeholders ds pre post 0 Hds)
    as (masked & Hloop & Hok' & Hle & Hge).
  { now apply Forall_firstn. }
  { now apply plain_is_placeholder_or_plain, Forall_skipn. }
  { rewrite placeholder_count_plain; [lia|now apply Forall_skipn]. }
  unfold pre, post in Hloop. rewrite firstn_skipn in Hloop.
  exists masked.
  rewrite (rev_np_sort Hnd), mask_loop_same. fold ds.
  split; [exact Hloop|]. split; [exact Hloop|].
  unfold Part000.n_expected, Part001.n_expected. cbn [map].
  rewrite (count_join_placeholders Hok').
  split; [reflexivity|]. split; [reflexivity|].
  rewrite Hdl in *. split; [exact Hle|].
  intros Hpos. apply Hge. intros E. rewrite E in Hdl. simpl in Hdl. lia.
Qed.

Lemma requester_counts_the_placeholders_witness :
  exists masked,
    Part000.mask_loop (Py.split (Py.lit "a b c d e")) 0
      (rev (Part000.np_sort [1; 3; 2])) = inr masked
    /\ Part001.mask_loop (Py.split (Py.lit "a b c d e")) 0
         (Py.sorted_reverse [1; 3; 2]) = inr masked
    /\ Part000.n_expected [Py.join (Py.lit " ") masked]
       = [placeholder_count masked]
    /\ Part001.n_expected [Py.join (Py.lit " ") masked]
       = [placeholder_count masked]
    /\ placeholder_count masked <= 3
    /\ (0 < 3 -> 1 <= placeholder_count masked).
Proof.
  apply (@requester_counts_the_placeholders (Py.split (Py.lit "a b c d e"))
           [1; 3; 2]).
  - vm_compute.
    repeat (apply Forall_cons || apply Forall_nil);
      intros Hin; simpl in Hin;
      repeat (destruct Hin as [Hin|Hin]; [discriminate Hin|]); exact Hin.
  - repeat constructor; simpl; intuition lia.
  - vm_compute. repeat constructor.
Defined.
(** ** The experiment: driver, then aggregator *)

Lemma compute_001_total (base : list spec_float) :
  forall transformed : list (list spec_float),
    length transformed = length base ->
    Forall (fun perturbed_log_probs => perturbed_log_probs <> []) transformed ->
    exists scores,
      Part001.compute_detectgpt_discrepancy base transformed = inr scores
      /\ length scores = length base.
Proof.
  induction base as [|b base IH]; intros transformed Hlen Hne.
  - exists []. split; reflexivity.
  - destruct transformed as [|t transformed]; [discriminate Hlen|].
    inversion Hne as [|? ? Ht Hrest]; subst.
    rewrite compute_001_cons.
    rewrite (discrepancy_at_total b Ht). cbn [bind].
    destruct (IH transformed) as (scores & -> & Hs);
      [simpl in Hlen; lia|exact Hrest|].
    eexists. split; [reflexivity|]. simpl. now rewrite Hs.
Qed.

Lemma per_text_rows (n_samples : nat) (rounds : list (list spec_float)) :
  rounds <> [] ->
  length (per_text n_samples rounds) = n_samples
  /\ Forall (fun perturbed_log_probs =>
               length perturbed_log_probs = length rounds)
            (per_text n_samples rounds).
Proof.
  intros Hne. destruct rounds as [|r rounds]; [congruence|].
  unfold per_text. split.
  - now rewrite length_map, length_seq.
  - apply Forall_map, Forall_forall. intros j _. now rewrite length_map.
Qed.

(** X20 ([optimized_processing] followed by
    [compute_detectgpt_discrepancy], as the experiment cells call them, in
    both notebooks): with well-behaved capabilities, a positive batch
    size, at least one perturbation round and at least [n_samples] entries,
    the experiment raises nothing and ends with exactly one discrepancy
    score per text, with or without normalisation. *)
Theorem experiment_returns_score_per_text :
  forall (G : Type) (choose : G -> nat -> nat -> list nat * G)
         (t5_encode : Py.str -> list Z) (t5_eos_token_id : Z)
         (t5_generate : G -> list Py.str -> Z -> list Py.str * G)
         (prec emax : Z) (computation_tokenizer : list Py.str -> encoding)
         (pad_token_id : Z) (token_nll : encoding -> list (list spec_float))
         (g : G) (data : list record)
         (n_samples max_length n_perturbations batch_size : nat)
         (normalization : bool),
    sampler_ok choose -> encodes_markers t5_encode ->
    output_per_input t5_generate ->
    row_per_text computation_tokenizer token_nll ->
    0 < batch_size -> 0 < n_perturbations -> n_samples <= length data ->
    (exists base transformed g',
        Part000.optimized_processing choose t5_encode t5_eos_token_id
          t5_generate prec emax computation_tokenizer pad_token_id token_nll
          g data n_samples max_length n_perturbations batch_size
        = inr (base, transformed, g')
        /\ length (Part000.compute_detectgpt_discrepancy base transformed
                     normalization) = n_samples)
    /\ (exists base transformed g' scores,
           Part001.optimized_processing choose t5_encode
             t5_generate prec emax computation_tokenizer pad_token_id
             token_nll g data n_samples max_length n_perturbations batch_size
           = inr (base, transformed, g')
           /\ Part001.compute_detectgpt_discrepancy base transformed
              = inr scores
           /\ length scores = n_samples).
Proof.
  intros G choose t5_encode eos t5_generate prec emax tok pad nll g data
         n_samples max_length n_perturbations batch_size normalization
         Hok Henc Hgen Hrows Hbs Hp Hn.
  split.
  - destruct (@optimized_processing_ok_000 G choose t5_encode eos t5_generate
                prec emax tok pad nll Hok Henc Hgen Hrows g data n_samples
                max_length n_perturbations batch_size Hbs Hn)
      as (base & rounds & g' & _ & _ & Hrun & Hlb & Hlr & _).
    exists base, (per_text n_samples rounds), g'. split; [exact Hrun|].
    assert (Hne : rounds <> []).
    { intros E. rewrite E in Hlr. simpl in Hlr. lia. }
    destruct (per_text_rows n_samples Hne) as [Hlt _].
    rewrite discrepancy_length, Hlb, Hlt. apply Nat.min_id.
  - destruct (@optimized_processing_ok_001 G choose t5_encode t5_generate
                prec emax tok pad nll Hok Henc Hgen Hrows g data n_samples
                max_length n_perturbations batch_size Hbs Hn)
      as (base & rounds & g' & _ & _ & Hrun & Hlb & Hlr & _).
    assert (Hne : rounds <> []).
    { intros E. rewrite E in Hlr. simpl in Hlr. lia. }
    destruct (per_text_rows n_samples Hne) as [Hlt Hrows'].
    destruct (@compute_001_total base (per_text n_samples rounds))
      as (scores & Hs & Hls).
    + congruence.
    + eapply Forall_impl; [|exact Hrows']. intros row Hrow E.
      rewrite E, Hlr in Hrow. simpl in Hrow. lia.
    + exists base, (per_text n_samples rounds), g', scores.
      split; [exact Hrun|]. split; [exact Hs|congruence].
Qed.

Lemma experiment_returns_score_per_text_witness :
  (exists base transformed g',
      Part000.optimized_processing lowest t5_like_encode 1 constant_generate
        BF16.prec BF16.emax tiny_tokenizer 0 (tiny_nll BF16.prec BF16.emax)
        tt sample_data 3 50 2 2
      = inr (base, transformed, g')
      /\ length (Part000.compute_detectgpt_discrepancy base transformed true)
         = 3)
  /\ (exists base transformed g' scores,
         Part001.optimized_processing lowest t5_like_encode constant_generate
           BF16.prec BF16.emax tiny_tokenizer 0 (tiny_nll BF16.prec BF16.emax)
           tt sample_data 3 50 2 2
         = inr (base, transformed, g')
         /\ Part001.compute_detectgpt_discrepancy base transformed
            = inr scores
         /\ length scores = 3).
Proof.
  apply (@experiment_returns_score_per_text unit lowest t5_like_encode 1
           constant_generate BF16.prec BF16.emax tiny_tokenizer 0
           (tiny_nll BF16.prec BF16.emax) tt sample_data 3 50 2 2 true
           lowest_ok t5_like_encode_markers constant_generate_per_input
           (tiny_row_per_text BF16.prec BF16.emax)).
  - lia.
  - lia.
  - simpl. lia.
Defined.
(** ** The earlier notebook *)

(** *** Masking that blanks the second word of a span *)

Lemma old_insert_same (x : nat) (l : list nat) :
  Old.insert x l = Part000.insert_asc x l.
Proof.
  induction l as [|y l IH]; [reflexivity|].
  simpl. now rewrite IH.
Qed.

Lemma old_sorted_same (l : list nat) : Old.sorted l = Part000.np_sort l.
Proof.
  induction l as [|x l IH]; [reflexivity|].
  simpl. now rewrite old_insert_same, IH.
Qed.

Lemma length_insert_asc (x : nat) (l : list nat) :
  length (Part000.insert_asc x l) = S (length l).
Proof.
  induction l as [|y l IH]; [reflexivity|].
  simpl. destruct (x <=? y); simpl; [reflexivity|now rewrite IH].
Qed.

Lemma length_np_sort (l : list nat) : length (Part000.np_sort l) = length l.
Proof.
  induction l as [|x l IH]; [reflexivity|].
  simpl. now rewrite length_insert_asc, IH.
Qed.

Lemma old_mask_step_at (p q : list Py.str) (a b : Py.str) (i : nat) :
  Old.mask_step (p ++ a :: b :: q) i (length p)
  = inr (p ++ extra_id i :: [] :: q).
Proof.
  unfold Old.mask_step.
  assert (H1 : (length p <? length (p ++ a :: b :: q)) = true).
  { apply Nat.ltb_lt. rewrite length_app. simpl. lia. }
  rewrite H1, length_set_item.
  assert (H2 : (length p + 1 <? length (p ++ a :: b :: q)) = true).
  { apply Nat.ltb_lt. rewrite length_app. simpl. lia. }
  rewrite H2, set_item_at.
  replace (p ++ extra_id i :: b :: q)
    with ((p ++ [extra_id i]) ++ b :: q) by now rewrite <- app_assoc.
  replace (length p + 1) with (length (p ++ [extra_id i]))
    by (rewrite length_app; reflexivity).
  now rewrite set_item_at, <- app_assoc.
Qed.

Lemma extra_id_not_empty (j : nat) : extra_id j <> [].
Proof. rewrite extra_id_head. discriminate. Qed.

Lemma old_mask_loop_counts (mask_indices : list nat) :
  forall (pre post : list Py.str) (i : nat),
    ascending_from (length pre) mask_indices ->
    (forall idx, In idx mask_indices ->
                 idx + 1 < length pre + length post) ->
    marker_free_words post ->
    exists pre' post',
      Old.mask_loop (pre ++ post) i mask_indices = inr (pre' ++ post')
      /\ length pre' + length post' = length pre + length post
      /\ marker_free_words post'
      /\ forall j,
          count_occ (list_eq_dec ascii_dec) pre' (extra_id j)
          = count_occ (list_eq_dec ascii_dec) pre (extra_id j)
            + (if (i <=? j) && (j <? i + length mask_indices) then 1 else 0).
Proof.
  induction mask_indices as [|idx rest IH]; intros pre post i Hasc Hlt Hfree.
  - exists pre, post. cbn [Old.mask_loop length].
    repeat split; auto. intros j. rewrite Nat.add_0_r.
    destruct (Nat.leb_spec i j), (Nat.ltb_spec j i); simpl; lia.
  - destruct Hasc as [Hge Hrest].
    pose proof (Hlt idx (or_introl eq_refl)) as Hidx.
    assert (Hin : (idx - length pre) + 1 < length post) by lia.
    destruct (split_at_pair post (idx - length pre) Hin) as (a & b & E).
    assert (HfreeA : marker_free_words (firstn (idx - length pre) post)).
    { apply (@marker_free_words_part post (idx - length pre) Hfree). }
    assert (HfreeB0 : marker_free_words (skipn (idx - length pre + 2) post)).
    { apply (@marker_free_words_part post (idx - length pre + 2) Hfree). }
    assert (HA : length (firstn (idx - length pre) post) = idx - length pre)
      by (rewrite length_firstn; lia).
    assert (HB : length (skipn (idx - length pre + 2) post) + 2
                 + (idx - length pre) = length post)
      by (rewrite length_skipn; lia).
    remember (firstn (idx - length pre) post) as A eqn:EA in *.
    remember (skipn (idx - length pre + 2) post) as B eqn:EB in *.
    clear EA EB.
    assert (Hp : length (pre ++ A) = idx) by (rewrite length_app; lia).
    cbn [Old.mask_loop].
    assert (Hstep : Old.mask_step (pre ++ post) i idx
                    = inr ((pre ++ A) ++ extra_id i :: [] :: B)).
    { rewrite E, app_assoc, <- Hp. apply old_mask_step_at. }
    rewrite Hstep. cbn [bind].
    replace ((pre ++ A) ++ extra_id i :: [] :: B)
      with (((pre ++ A) ++ [extra_id i]) ++ [] :: B)
      by now rewrite <- app_assoc.
    assert (Hlen1 : length ((pre ++ A) ++ [extra_id i]) = S idx)
      by (rewrite length_app, Hp; simpl; lia).
    assert (Htotal : length ((pre ++ A) ++ [extra_id i]) + length ([] :: B)
                     = length pre + length post).
    { rewrite Hlen1. cbn [length]. unfold Py.str in *. lia. }
    assert (HfreeB : marker_free_words ([] :: B)).
    { intros j [Hj|Hj]; [symmetry in Hj; now apply (@extra_id_not_empty j)|].
      now apply (HfreeB0 j). }
    destruct (IH ((pre ++ A) ++ [extra_id i]) ([] :: B) (S i))
      as (pre' & post' & Hloop & Hlen' & Hfree' & Hcount).
    { now rewrite Hlen1. }
    { intros idx2 Hidx2. pose proof (Hlt idx2 (or_intror Hidx2)) as H2.
      unfold Py.str in *. lia. }
    { exact HfreeB. }
    exists pre', post'. split; [exact Hloop|].
    split; [unfold Py.str in *; lia|].
    split; [exact Hfree'|]. intros j. rewrite Hcount.
    pose proof (count_marker_free j HfreeA) as HzA.
    unfold Py.str in *. rewrite !count_occ_app, HzA.
    pose proof (count_extra_id_cons i j []) as Hc. cbn [count_occ] in Hc.
    unfold Py.str in *. cbn [count_occ] in *.
    destruct (list_eq_dec ascii_dec (extra_id i) (extra_id j)) as [Eij|Eij].
    + apply extra_id_inj in Eij. subst j. cbn [length].
      destruct (Nat.leb_spec (S i) i), (Nat.leb_spec i i),
        (Nat.ltb_spec i (S i + length rest)),
        (Nat.ltb_spec i (i + S (length rest))); simpl; lia.
    + assert (Hij : i <> j) by congruence. cbn [length].
      destruct (Nat.leb_spec (S i) j), (Nat.leb_spec i j),
        (Nat.ltb_spec j (S i + length rest)),
        (Nat.ltb_spec j (i + S (length rest))); simpl; lia.
Qed.

(** X21 ([mask_text] of the earlier notebook, its loop over the drawn
    positions): with increasing positions and the second word of a span
    blanked instead of deleted, the loop keeps the whole masking invariant
    for every draw, adjacent positions included.  For words without
    placeholder words and a draw of [k] distinct positions below
    [len(words) - 1], sorted as the notebook sorts it, the number of words
    is unchanged, and every placeholder below [k] occurs exactly once and
    no other placeholder occurs. *)
Theorem old_masker_keeps_every_placeholder :
  forall (words : list Py.str) (picked : list nat),
    marker_free_words words ->
    NoDup picked ->
    Forall (fun idx => idx < length words - 1) picked ->
    let k := length picked in
    exists masked,
      Old.mask_loop words 0 (Old.sorted picked) = inr masked
      /\ length masked = length words
      /\ forall j,
          count_occ (list_eq_dec ascii_dec) masked (extra_id j)
          = if j <? k then 1 else 0.
Proof.
  intros words picked Hfree Hnd Hlt k.
  rewrite old_sorted_same.
  destruct (@old_mask_loop_counts (Part000.np_sort picked) [] words 0)
    as (pre' & post' & Hloop & Hlen' & Hfree' & Hcount).
  { now apply np_sort_ascending. }
  { intros idx Hidx. apply in_np_sort in Hidx.
    rewrite Forall_forall in Hlt. specialize (Hlt idx Hidx).
    cbn [length]. lia. }
  { exact Hfree. }
  cbn [app] in Hloop. rewrite Hloop.
  exists (pre' ++ post').
  split; [reflexivity|]. split.
  - rewrite length_app. cbn [length] in Hlen'. lia.
  - intros j. pose proof (count_marker_free j Hfree') as Hz.
    specialize (Hcount j). rewrite length_np_sort in Hcount.
    unfold Py.str in *. rewrite count_occ_app, Hz, Hcount.
    cbn [count_occ Nat.add Nat.leb andb]. unfold k. lia.
Qed.

Lemma old_masker_keeps_every_placeholder_witness :
  exists masked,
    Old.mask_loop (Py.split (Py.lit "a b c d e")) 0 (Old.sorted [1; 3; 2])
    = inr masked
    /\ length masked = length (Py.split (Py.lit "a b c d e"))
    /\ forall j,
        count_occ (list_eq_dec ascii_dec) masked (extra_id j)
        = if j <? 3 then 1 else 0.
Proof.
  apply (@old_masker_keeps_every_placeholder (Py.split (Py.lit "a b c d e"))
           [1; 3; 2]).
  - intros j Hin. vm_compute in Hin.
    repeat (destruct Hin as [Hin|Hin]; [discriminate Hin|]). exact Hin.
  - repeat constructor; simpl; intuition lia.
  - vm_compute. repeat constructor.
Defined.

(** *** Word swap *)

Lemma swap_adjacent_at (p q : list Py.str) (a b : Py.str) :
  Old.swap_adjacent (p ++ a :: b :: q) (length p) = inr (p ++ b :: a :: q).
Proof.
  unfold Old.swap_adjacent, index.
  assert (H1 : nth_error (p ++ a :: b :: q) (length p + 1) = Some b).
  { rewrite nth_error_app2 by lia.
    replace (length p + 1 - length p) with 1 by lia. reflexivity. }
  assert (H2 : nth_error (p ++ a :: b :: q) (length p) = Some a).
  { rewrite nth_error_app2 by lia. now rewrite Nat.sub_diag. }
  rewrite H1, H2. cbn [bind ret]. rewrite set_item_at.
  replace (p ++ b :: b :: q) with ((p ++ [b]) ++ b :: q)
    by now rewrite <- app_assoc.
  replace (length p + 1) with (length (p ++ [b]))
    by (rewrite length_app; reflexivity).
  now rewrite set_item_at, <- app_assoc.
Qed.

(** X22 ([word_swap_perturbation] of the earlier notebook): with a
    generator that keeps to its bounds the perturbation never raises; a
    text of at most three words comes back with its whitespace normalised
    and nothing else changed, and a longer text comes back with two
    adjacent words exchanged: the same words, as many times each, in the
    same number. *)
Theorem word_swap_keeps_the_words :
  forall (G : Type) (randint : G -> nat -> nat -> nat * G) (g : G)
         (text : Py.str),
    randint_ok randint ->
    exists perturbed g',
      Old.word_swap_perturbation randint g text = inr (perturbed, g')
      /\ length (Py.split perturbed) = length (Py.split text)
      /\ (forall w,
             count_occ (list_eq_dec ascii_dec) (Py.split perturbed) w
             = count_occ (list_eq_dec ascii_dec) (Py.split text) w)
      /\ (length (Py.split text) <= 3 -> perturbed = normalized text)
      /\ (3 < length (Py.split text) ->
          exists p a b q,
            Py.split text = p ++ a :: b :: q
            /\ Py.split perturbed = p ++ b :: a :: q).
Proof.
  intros G randint g text Hrand. unfold Old.word_swap_perturbation.
  pose proof (split_words text) as Hwords.
  destruct (Nat.ltb_spec 3 (length (Py.split text))) as [Hlong|Hshort].
  - pose proof (Hrand g 0 (length (Py.split text) - 2) (Nat.le_0_l _)) as Hi.
    destruct (randint g 0 (length (Py.split text) - 2)) as [i g'].
    cbn [fst] in Hi. destruct Hi as [_ Hi].
    destruct (split_at_pair (Py.split text) i) as (a & b & E); [lia|].
    assert (Hp : length (firstn i (Py.split text)) = i)
      by (rewrite length_firstn; lia).
    remember (firstn i (Py.split text)) as p eqn:Ep in *.
    remember (skipn (i + 2) (Py.split text)) as q eqn:Eq in *.
    clear Ep Eq. subst i. rewrite E, swap_adjacent_at.
    cbn [bind ret]. exists (Py.join (Py.lit " ") (p ++ b :: a :: q)), g'.
    assert (Hswapped : Forall is_word (p ++ b :: a :: q)).
    { rewrite E in Hwords. apply Forall_app in Hwords.
      destruct Hwords as [Hwp Hrest].
      inversion Hrest as [|? ? Ha Hrest']; subst.
      inversion Hrest' as [|? ? Hb Hq]; subst.
      apply Forall_app. split; [exact Hwp|].
      constructor; [exact Hb|constructor; [exact Ha|exact Hq]]. }
    rewrite (split_join Hswapped).
    split; [reflexivity|]. split; [|split; [|split]].
    + rewrite !length_app. reflexivity.
    + intros w. unfold Py.str in *. rewrite !count_occ_app.
      cbn [count_occ].
      destruct (list_eq_dec ascii_dec a w), (list_eq_dec ascii_dec b w); lia.
    + intros Hle. rewrite E, length_app in Hlong. rewrite length_app in Hle.
      lia.
    + intros _. now exists p, a, b, q.
  - exists (Py.join (Py.lit " ") (Py.split text)), g.
    rewrite (split_join Hwords).
    split; [reflexivity|]. split; [reflexivity|]. split; [reflexivity|].
    split; [reflexivity|]. intros Hlong. lia.
Qed.

Lemma highest_ok : randint_ok highest.
Proof. intros g a b Hab. simpl. lia. Qed.

Lemma word_swap_keeps_the_words_witness :
  exists perturbed g',
    Old.word_swap_perturbation highest tt (Py.lit "one two  three four")
    = inr (perturbed, g')
    /\ length (Py.split perturbed)
       = length (Py.split (Py.lit "one two  three four"))
    /\ (forall w,
           count_occ (list_eq_dec ascii_dec) (Py.split perturbed) w
           = count_occ (list_eq_dec ascii_dec)
               (Py.split (Py.lit "one two  three four")) w)
    /\ (length (Py.split (Py.lit "one two  three four")) <= 3 ->
        perturbed = normalized (Py.lit "one two  three four"))
    /\ (3 < length (Py.split (Py.lit "one two  three four")) ->
        exists p a b q,
          Py.split (Py.lit "one two  three four") = p ++ a :: b :: q
          /\ Py.split perturbed = p ++ b :: a :: q).
Proof.
  exact (@word_swap_keeps_the_words unit highest tt
           (Py.lit "one two  three four") highest_ok).
Defined.
